(** * DesktopAnimationTool: tile flips, eye gaze and region synthesis

    A shallow embedding of [effects/flip_tile.py], [effects/eyes.py] and
    [effects/hidden.py].

    Conventions.
    - Python [int] is [Z]; Python [float] is idealised as a real number
      ([R]): [math.sin], [math.cos], [abs], [max] and [%] are the real
      functions, and a float comparison is the real comparison.
    - A pygame surface is its grid of pixels, a list of rows.  Every
      [copy()] in the source yields a fresh object that is never mutated
      through another name, so surfaces are plain values.
    - [random] is modelled by passing the drawn values in, in the order
      the source draws them. *)

From Stdlib Require Import Reals Lra Lia ZArith List Bool.
From Stdlib Require Import FunctionalExtensionality.
Import ListNotations.

Open Scope R_scope.

(** ** Python helpers *)

(** [int(r)] on a float: truncation toward zero. *)
Definition py_int (r : R) : Z :=
  if Rle_dec 0 r then Int_part r else (- Int_part (- r))%Z.

(** [a % m] on floats with [m > 0]: the result has the sign of [m]. *)
Definition py_fmod (a m : R) : R := a - m * IZR (Int_part (a / m)).

(** [math.radians]. *)
Definition radians (deg : R) : R := deg * PI / 180.

(** [l[i]] with Python's negative indices; [None] stands for IndexError. *)
Definition py_index {A} (l : list A) (i : Z) : option A :=
  let n := Z.of_nat (length l) in
  if (0 <=? i)%Z then nth_error l (Z.to_nat i)
  else if (0 <=? n + i)%Z then nth_error l (Z.to_nat (n + i))
  else None.

(** [l[-1] = v]; on the empty list Python raises, the model leaves it. *)
Definition set_last {A} (l : list A) (v : A) : list A :=
  match l with
  | [] => []
  | _ => removelast l ++ [v]
  end.

(** [range(n)] as integers. *)
Definition py_range (n : Z) : list Z := map Z.of_nat (seq 0 (Z.to_nat n)).

(** [f] applied [n] times. *)
Fixpoint iter_n {A} (n : nat) (f : A -> A) (a : A) : A :=
  match n with
  | O => a
  | S k => f (iter_n k f a)
  end.

(** ** config.py *)

Module Config.

Definition FPS : R := 60.
Definition FLIP_SPEED : R := 5.

End Config.

(** ** pygame surfaces *)

Definition RGB : Type := Z * Z * Z.
Definition RGBA : Type := Z * Z * Z * Z.

(** An opaque screen-sized image: rows of RGB pixels. *)
Definition Image : Type := list (list RGB).

(** A per-pixel-alpha surface: rows of RGBA pixels. *)
Definition Surface : Type := list (list RGBA).

Definition transparent : RGBA := (0, 0, 0, 0)%Z.

Definition image_get_at (img : Image) (px py : Z) : option RGB :=
  if ((0 <=? px) && (0 <=? py))%Z
  then match nth_error img (Z.to_nat py) with
       | Some row => nth_error row (Z.to_nat px)
       | None => None
       end
  else None.

(** [pygame.transform.flip(s, flip_x, flip_y)]. *)
Definition transform_flip (s : Surface) (flip_x flip_y : bool) : Surface :=
  let s1 := if flip_x then map (@rev RGBA) s else s in
  if flip_y then rev s1 else s1.

(** [screen.blit(surface, (0, 0))] on rows of pixels: the part of the
    screen the surface covers takes the surface's pixels. *)
Definition overlay {A} (src dst : list A) : list A :=
  firstn (length dst) src ++ skipn (length src) dst.

Fixpoint blit_origin (src dst : Image) : Image :=
  match src, dst with
  | r :: src', d :: dst' => overlay r d :: blit_origin src' dst'
  | _, _ => dst
  end.

(** ** effects/flip_tile.py *)

Module Flip_tile.

Definition LINE_FADE_SPEED : Z := 5.

Inductive Direction : Type := horizontal | vertical.

(** The values [FlipTile.__init__] and [_precompute_flip_states] draw from
    [random], in the order of the calls: [randint(1, 4)],
    [choice(['horizontal', 'vertical'])], [uniform(-2, 2)] and the two
    [choice([True, False])] of the scrambled start. *)
Record Draws : Type := {
  d_target_flips : Z;
  d_direction : Direction;
  d_jitter : R;
  d_pre_flip_x : bool;
  d_pre_flip_y : bool
}.

(** What the library guarantees about the draws. *)
Definition valid_draws (d : Draws) : Prop :=
  (1 <= d_target_flips d <= 4)%Z /\ -2 <= d_jitter d <= 2.

Record FlipTile : Type := {
  x : Z;
  y : Z;
  size : Z;
  delay : Z;
  edge_softness : Z;
  reverse : bool;
  original_surface : Surface;
  original_soft : Surface;
  flip_angle : R;
  target_flips : Z;
  total_rotation : Z;
  flip_direction : Direction;
  flip_speed : R;
  is_animating : bool;
  is_complete : bool;
  current_delay : Z;
  line_alpha : Z;
  flip_surfaces : list Surface;
  flip_surfaces_soft : list Surface;
  final_surface : Surface;
  final_surface_soft : Surface
}.

(** Attribute assignments. *)
Definition set_flip_angle (t : FlipTile) (v : R) : FlipTile :=
  {| x := x t; y := y t; size := size t; delay := delay t;
     edge_softness := edge_softness t; reverse := reverse t;
     original_surface := original_surface t; original_soft := original_soft t;
     flip_angle := v; target_flips := target_flips t;
     total_rotation := total_rotation t; flip_direction := flip_direction t;
     flip_speed := flip_speed t; is_animating := is_animating t;
     is_complete := is_complete t; current_delay := current_delay t;
     line_alpha := line_alpha t; flip_surfaces := flip_surfaces t;
     flip_surfaces_soft := flip_surfaces_soft t;
     final_surface := final_surface t;
     final_surface_soft := final_surface_soft t |}.

Definition set_is_animating (t : FlipTile) (v : bool) : FlipTile :=
  {| x := x t; y := y t; size := size t; delay := delay t;
     edge_softness := edge_softness t; reverse := reverse t;
     original_surface := original_surface t; original_soft := original_soft t;
     flip_angle := flip_angle t; target_flips := target_flips t;
     total_rotation := total_rotation t; flip_direction := flip_direction t;
     flip_speed := flip_speed t; is_animating := v;
     is_complete := is_complete t; current_delay := current_delay t;
     line_alpha := line_alpha t; flip_surfaces := flip_surfaces t;
     flip_surfaces_soft := flip_surfaces_soft t;
     final_surface := final_surface t;
     final_surface_soft := final_surface_soft t |}.

Definition set_is_complete (t : FlipTile) (v : bool) : FlipTile :=
  {| x := x t; y := y t; size := size t; delay := delay t;
     edge_softness := edge_softness t; reverse := reverse t;
     original_surface := original_surface t; original_soft := original_soft t;
     flip_angle := flip_angle t; target_flips := target_flips t;
     total_rotation := total_rotation t; flip_direction := flip_direction t;
     flip_speed := flip_speed t; is_animating := is_animating t;
     is_complete := v; current_delay := current_delay t;
     line_alpha := line_alpha t; flip_surfaces := flip_surfaces t;
     flip_surfaces_soft := flip_surfaces_soft t;
     final_surface := final_surface t;
     final_surface_soft := final_surface_soft t |}.

Definition set_current_delay (t : FlipTile) (v : Z) : FlipTile :=
  {| x := x t; y := y t; size := size t; delay := delay t;
     edge_softness := edge_softness t; reverse := reverse t;
     original_surface := original_surface t; original_soft := original_soft t;
     flip_angle := flip_angle t; target_flips := target_flips t;
     total_rotation := total_rotation t; flip_direction := flip_direction t;
     flip_speed := flip_speed t; is_animating := is_animating t;
     is_complete := is_complete t; current_delay := v;
     line_alpha := line_alpha t; flip_surfaces := flip_surfaces t;
     flip_surfaces_soft := flip_surfaces_soft t;
     final_surface := final_surface t;
     final_surface_soft := final_surface_soft t |}.

Definition set_line_alpha (t : FlipTile) (v : Z) : FlipTile :=
  {| x := x t; y := y t; size := size t; delay := delay t;
     edge_softness := edge_softness t; reverse := reverse t;
     original_surface := original_surface t; original_soft := original_soft t;
     flip_angle := flip_angle t; target_flips := target_flips t;
     total_rotation := total_rotation t; flip_direction := flip_direction t;
     flip_speed := flip_speed t; is_animating := is_animating t;
     is_complete := is_complete t; current_delay := current_delay t;
     line_alpha := v; flip_surfaces := flip_surfaces t;
     flip_surfaces_soft := flip_surfaces_soft t;
     final_surface := final_surface t;
     final_surface_soft := final_surface_soft t |}.

(** [Surface((size, size), SRCALPHA)] followed by
    [blit(original_image, (0, 0), (x, y, size, size))]: the part of the
    rectangle that lies on the image is copied opaque, the rest stays
    transparent. *)
Definition extract_tile (img : Image) (x y size : Z) : Surface :=
  map (fun dy =>
         map (fun dx =>
                match image_get_at img (x + dx) (y + dy) with
                | Some (r, g, b) => (r, g, b, 255%Z)
                | None => transparent
                end)
             (py_range size))
      (py_range size).

Section SoftEdges.

(** [int(255 * (dist / edge) ** 0.6)], the eased falloff; a float power,
    left abstract. *)
Variable edge_alpha : Z -> Z -> Z.

(** [_create_soft_edge_surface].  The [alpha_mask] the source also builds
    is never read and is left out. *)
Definition create_soft_edge_surface (edge : Z) (surface : Surface) : Surface :=
  let sz := Z.of_nat (length (hd [] surface)) in
  if (edge <=? 0)%Z then surface
  else
    map (fun yr : Z * list RGBA =>
           let (py, row) := yr in
           map (fun xp : Z * RGBA =>
                  let (px, pixel) := xp in
                  let dist_from_edge :=
                    Z.min (Z.min px py) (Z.min (sz - 1 - px) (sz - 1 - py)) in
                  if (dist_from_edge <? edge)%Z then
                    match pixel with
                    | (r, g, b, a) =>
                        (r, g, b, Z.min a (edge_alpha dist_from_edge edge))
                    end
                  else pixel)
               (combine (py_range (Z.of_nat (length row))) row))
        (combine (py_range (Z.of_nat (length surface))) surface).

(** The loop of [_precompute_flip_states]: [n] further states, each the
    chosen mirror of the one before. *)
Fixpoint flip_loop (n : nat) (dir : Direction) (current : Surface)
  : list Surface :=
  match n with
  | O => []
  | S k =>
      let next := match dir with
                  | horizontal => transform_flip current true false
                  | vertical => transform_flip current false true
                  end in
      next :: flip_loop k dir next
  end.

(** The scrambled start of [_precompute_flip_states]: the copy of the
    bitmap after the two random mirrors. *)
Definition scrambled_start (orig : Surface) (pre_x pre_y : bool) : Surface :=
  let current := orig in
  let current := if pre_x then transform_flip current true false
                 else current in
  if pre_y then transform_flip current false true else current.

(** The list one of the two sequences of [_precompute_flip_states] ends
    up as, from the untouched bitmap [orig]. *)
Definition precompute_states (orig : Surface) (rev_flag : bool)
    (flips : Z) (dir : Direction) (pre_x pre_y : bool) : list Surface :=
  let current := scrambled_start orig pre_x pre_y in
  let surfaces := current :: flip_loop (Z.to_nat flips) dir current in
  let surfaces := set_last surfaces orig in
  if rev_flag then rev surfaces else surfaces.

(** [FlipTile.__init__], [_precompute_flip_states] included. *)
Definition init (original_image : Image) (x y size delay edge_softness : Z)
    (reverse : bool) (d : Draws) : FlipTile :=
  let original_surface := extract_tile original_image x y size in
  let original_soft := create_soft_edge_surface edge_softness original_surface in
  let target_flips := d_target_flips d in
  let surfaces :=
    precompute_states original_surface reverse target_flips (d_direction d)
                      (d_pre_flip_x d) (d_pre_flip_y d) in
  let surfaces_soft :=
    precompute_states original_soft reverse target_flips (d_direction d)
                      (d_pre_flip_x d) (d_pre_flip_y d) in
  {| x := x; y := y; size := size; delay := delay;
     edge_softness := edge_softness; reverse := reverse;
     original_surface := original_surface; original_soft := original_soft;
     flip_angle := 0; target_flips := target_flips;
     total_rotation := (target_flips * 180)%Z;
     flip_direction := d_direction d;
     flip_speed := Config.FLIP_SPEED + d_jitter d;
     is_animating := false; is_complete := false; current_delay := delay;
     line_alpha := if negb reverse then 255%Z else 0%Z;
     flip_surfaces := surfaces; flip_surfaces_soft := surfaces_soft;
     final_surface := last surfaces [];
     final_surface_soft := last surfaces_soft [] |}.

End SoftEdges.

Definition start_animation (t : FlipTile) : FlipTile :=
  set_is_animating t true.

(** [FlipTile.update]. *)
Definition update (t : FlipTile) : FlipTile :=
  if is_complete t then
    if reverse t then
      if (line_alpha t <? 255)%Z
      then set_line_alpha t (Z.min 255 (line_alpha t + LINE_FADE_SPEED * 2))
      else t
    else
      if (line_alpha t >? 0)%Z
      then set_line_alpha t (Z.max 0 (line_alpha t - LINE_FADE_SPEED))
      else t
  else
    let t1 :=
      if (reverse t && is_animating t && (line_alpha t <? 255)%Z)%bool
      then set_line_alpha t (Z.min 255 (line_alpha t + LINE_FADE_SPEED))
      else t in
    if (current_delay t1 >? 0)%Z
    then set_current_delay t1 (current_delay t1 - 1)
    else
      let t2 := if negb (is_animating t1) then start_animation t1 else t1 in
      let t3 := set_flip_angle t2 (flip_angle t2 + flip_speed t2) in
      if Rge_dec (flip_angle t3) (IZR (total_rotation t3))
      then set_is_complete (set_flip_angle t3 (IZR (total_rotation t3))) true
      else t3.

(** The squash factor of [draw]:
    [max(0.02, abs(math.cos(math.radians(flip_angle % 180))))]. *)
Definition squash_scale (angle : R) : R :=
  let angle_in_flip := py_fmod angle 180 in
  let scale := Rabs (cos (radians angle_in_flip)) in
  Rmax (2 / 100) scale.

(** What [draw] sends to the screen: a surface, the size it is scaled to
    ([None] when it is blitted as it is) and the position. *)
Record Blit : Type := {
  blit_surface : Surface;
  blit_scaled_to : option (Z * Z);
  blit_dest : Z * Z
}.

(** [FlipTile.draw]; [None] stands for an IndexError. *)
Definition draw (t : FlipTile) (use_soft_edges : bool) : option Blit :=
  if is_complete t then
    Some {| blit_surface := final_surface t; blit_scaled_to := None;
            blit_dest := (x t, y t) |}
  else
    let surfaces :=
      if use_soft_edges then flip_surfaces_soft t else flip_surfaces t in
    if negb (is_animating t) then
      match py_index surfaces 0 with
      | Some s => Some {| blit_surface := s; blit_scaled_to := None;
                          blit_dest := (x t, y t) |}
      | None => None
      end
    else
      let flip_index := py_int (flip_angle t / 180) in
      let angle_in_flip := py_fmod (flip_angle t) 180 in
      let flip_index :=
        Z.min flip_index (Z.of_nat (length (flip_surfaces t)) - 2) in
      let scale := squash_scale (flip_angle t) in
      let base :=
        if Rlt_dec angle_in_flip 90 then py_index surfaces flip_index
        else py_index surfaces (flip_index + 1) in
      match base with
      | None => None
      | Some base_surface =>
          match flip_direction t with
          | horizontal =>
              let new_width := Z.max 1 (py_int (IZR (size t) * scale)) in
              let offset_x := ((size t - new_width) / 2)%Z in
              Some {| blit_surface := base_surface;
                      blit_scaled_to := Some (new_width, size t);
                      blit_dest := (x t + offset_x, y t)%Z |}
          | vertical =>
              let new_height := Z.max 1 (py_int (IZR (size t) * scale)) in
              let offset_y := ((size t - new_height) / 2)%Z in
              Some {| blit_surface := base_surface;
                      blit_scaled_to := Some (size t, new_height);
                      blit_dest := (x t, y t + offset_y)%Z |}
          end
      end.

End Flip_tile.

(** ** effects/eyes.py *)

Module Eyes.

(** One entry of [EyeEffect.eyes]. *)
Record Eye : Type := {
  eye_x : Z;
  eye_y : Z;
  eye_w : Z;
  eye_h : Z;
  center_x : Z;
  center_y : Z;
  padded_rect : Z * Z * Z * Z;
  original_pixels : Image;
  current_shift_x : Z;
  current_shift_y : Z
}.

Record EyeEffect : Type := {
  screen_width : Z;
  screen_height : Z;
  original : Image;
  current_surface : Image;
  time : R;
  is_complete : bool;
  eyes : list Eye;
  look_speed : R;
  max_shift : Z;
  animation_duration : R
}.

Definition set_time (s : EyeEffect) (v : R) : EyeEffect :=
  {| screen_width := screen_width s; screen_height := screen_height s;
     original := original s; current_surface := current_surface s;
     time := v; is_complete := is_complete s; eyes := eyes s;
     look_speed := look_speed s; max_shift := max_shift s;
     animation_duration := animation_duration s |}.

Definition set_is_complete (s : EyeEffect) (v : bool) : EyeEffect :=
  {| screen_width := screen_width s; screen_height := screen_height s;
     original := original s; current_surface := current_surface s;
     time := time s; is_complete := v; eyes := eyes s;
     look_speed := look_speed s; max_shift := max_shift s;
     animation_duration := animation_duration s |}.

Definition set_current_surface (s : EyeEffect) (v : Image) : EyeEffect :=
  {| screen_width := screen_width s; screen_height := screen_height s;
     original := original s; current_surface := v;
     time := time s; is_complete := is_complete s; eyes := eyes s;
     look_speed := look_speed s; max_shift := max_shift s;
     animation_duration := animation_duration s |}.

(** [EyeEffect.__init__] once one of [_use_polygon_data],
    [_use_manual_eyes] and [_detect_eyes] has filled [self.eyes] with
    [found]: those three only append to that list. *)
Definition init (image : Image) (screen_width screen_height : Z)
    (found : list Eye) : EyeEffect :=
  {| screen_width := screen_width; screen_height := screen_height;
     original := image; current_surface := image;
     time := 0; is_complete := false; eyes := found;
     look_speed := 5 / 10; max_shift := 8; animation_duration := 10 |}.

(** The two gaze components [update] computes once [self.time] has been
    advanced to [t]. *)
Definition look_x (s : EyeEffect) (t : R) : R :=
  sin (t * look_speed s * 2) * IZR (max_shift s) + sin (t * (37 / 10)) * 2.

Definition look_y (s : EyeEffect) (t : R) : R :=
  sin (t * look_speed s * (15 / 10) + 1) * IZR (max_shift s) * (5 / 10)
  + sin (t * (23 / 10)) * 1.

Section Blender.

(** The pixel work of [_shift_eye_pixels] for one eye: from the gaze
    offset and the frame so far to the frame with that eye's pupil
    resampled.  It writes to [current_surface] only; it is left abstract,
    and everything below holds for every such function. *)
Variable shift_pixels : Eye -> R -> R -> Image -> Image.

Definition shift_eye_pixels (s : EyeEffect) (eye_info : Eye)
    (shift_x shift_y : R) : EyeEffect :=
  set_current_surface s
    (shift_pixels eye_info shift_x shift_y (current_surface s)).

(** [EyeEffect.update]. *)
Definition update (s : EyeEffect) : EyeEffect :=
  if (is_complete s || (length (eyes s) =? 0)%nat)%bool then s
  else
    let s1 := set_time s (time s + 1 / Config.FPS) in
    if Rge_dec (time s1) (animation_duration s1) then
      set_current_surface (set_is_complete s1 true) (original s1)
    else
      let s2 := set_current_surface s1 (original s1) in
      let lx := look_x s2 (time s2) in
      let ly := look_y s2 (time s2) in
      fold_left (fun acc eye => shift_eye_pixels acc eye lx ly) (eyes s2) s2.

End Blender.

(** [EyeEffect.draw]: the screen after the call. *)
Definition draw (s : EyeEffect) (screen : Image) : Image :=
  blit_origin (current_surface s) screen.

(** [EyeEffect.restart]. *)
Definition restart (s : EyeEffect) : EyeEffect :=
  set_is_complete (set_time s 0) false.

End Eyes.

(** ** effects/hidden.py *)

Module Hidden.

Definition BGR : Type := Z * Z * Z.
Definition Point : Type := Z * Z.

(** A numpy array of shape (screen_height, screen_width, ...) is the
    function from (row, column) to its entry; every write of the source is
    at an index on the screen. *)
Definition Array (A : Type) : Type := Z -> Z -> A.
Definition Mask : Type := Array Z.

(** One record of [polygon_data]: [x], [y], [w], [h] are read with
    [region['x']], the other keys with [region.get]. *)
Record RegionData : Type := {
  rd_polygon : option (list Point);
  rd_source_polygon : option (list Point);
  rd_x : Z;
  rd_y : Z;
  rd_w : Z;
  rd_h : Z;
  rd_source_x : option Z;
  rd_source_y : option Z;
  rd_source_w : option Z;
  rd_source_h : option Z
}.

(** One entry of [HiddenEffect.regions]. *)
Record Region : Type := {
  polygon : list Point;
  source_polygon : option (list Point);
  x : Z;
  y : Z;
  w : Z;
  h : Z;
  source_x : Z;
  source_y : Z;
  source_w : Z;
  source_h : Z
}.

(** The OpenCV and numpy operations [_apply_inpainting] calls, as far as
    they are not written out below. *)
Record OpenCV : Type := {
  (** whether [cv2.fillPoly] paints pixel (row, column) for the polygon *)
  poly_covers : list Point -> Z -> Z -> bool;
  (** [cv2.resize(src, (w, h), INTER_LINEAR)] of a [sh] x [sw] crop:
      arguments [sh sw w h src] *)
  resize_linear : Z -> Z -> Z -> Z -> Array BGR -> Array BGR;
  (** [cv2.resize(src, (w, h), INTER_NEAREST)] of a mask crop *)
  resize_nearest : Z -> Z -> Z -> Z -> Mask -> Mask;
  (** [cv2.dilate(mask, np.ones((k, k)), iterations=n)]: arguments [k n] *)
  dilate : Z -> Z -> Mask -> Mask;
  (** the colour the flat pre-fill gives pixel (row, column): the mean of
      the image over the sampling band plus that pixel's draw of
      [np.random.normal(0, 3, 3)], clipped to a byte *)
  flat_fill : Array BGR -> Mask -> Z -> Z -> BGR;
  (** [cv2.inpaint(img, mask, 8, cv2.INPAINT_TELEA)] *)
  inpaint : Array BGR -> Mask -> Array BGR;
  (** [cv2.bilateralFilter(img, 5, 40, 40)] *)
  bilateral_filter : Array BGR -> Array BGR;
  (** [cv2.GaussianBlur(mask.astype(float), (15, 15), 0)] *)
  gaussian_blur : Mask -> Array R
}.

(** What the two [import cv2] attempts of [_apply_inpainting] find: the
    first one, and the one after the [pip install] it runs when the first
    fails.  [None] is an ImportError. *)
Record Environment : Type := {
  import_cv2 : option OpenCV;
  import_cv2_after_install : option OpenCV
}.

Record HiddenEffect : Type := {
  screen_width : Z;
  screen_height : Z;
  original : Image;
  current_surface : Image;
  hidden_surface : option Image;
  time : R;
  is_complete : bool;
  regions : list Region;
  reveal_duration : R;
  hold_duration : R;
  animation_duration : R
}.

Definition set_hidden_surface (s : HiddenEffect) (v : option Image)
  : HiddenEffect :=
  {| screen_width := screen_width s; screen_height := screen_height s;
     original := original s; current_surface := current_surface s;
     hidden_surface := v; time := time s; is_complete := is_complete s;
     regions := regions s; reveal_duration := reveal_duration s;
     hold_duration := hold_duration s;
     animation_duration := animation_duration s |}.

Definition set_current_surface (s : HiddenEffect) (v : Image) : HiddenEffect :=
  {| screen_width := screen_width s; screen_height := screen_height s;
     original := original s; current_surface := v;
     hidden_surface := hidden_surface s; time := time s;
     is_complete := is_complete s;
     regions := regions s; reveal_duration := reveal_duration s;
     hold_duration := hold_duration s;
     animation_duration := animation_duration s |}.

Definition set_time (s : HiddenEffect) (v : R) : HiddenEffect :=
  {| screen_width := screen_width s; screen_height := screen_height s;
     original := original s; current_surface := current_surface s;
     hidden_surface := hidden_surface s; time := v;
     is_complete := is_complete s;
     regions := regions s; reveal_duration := reveal_duration s;
     hold_duration := hold_duration s;
     animation_duration := animation_duration s |}.

Definition set_is_complete (s : HiddenEffect) (v : bool) : HiddenEffect :=
  {| screen_width := screen_width s; screen_height := screen_height s;
     original := original s; current_surface := current_surface s;
     hidden_surface := hidden_surface s; time := time s;
     is_complete := v;
     regions := regions s; reveal_duration := reveal_duration s;
     hold_duration := hold_duration s;
     animation_duration := animation_duration s |}.

Definition set_regions (s : HiddenEffect) (v : list Region) : HiddenEffect :=
  {| screen_width := screen_width s; screen_height := screen_height s;
     original := original s; current_surface := current_surface s;
     hidden_surface := hidden_surface s; time := time s;
     is_complete := is_complete s;
     regions := v; reveal_duration := reveal_duration s;
     hold_duration := hold_duration s;
     animation_duration := animation_duration s |}.

Definition get_default {A} (o : option A) (d : A) : A :=
  match o with Some v => v | None => d end.

(** [_process_regions]. *)
Definition process_regions (s : HiddenEffect) (polygon_data : list RegionData)
  : HiddenEffect :=
  fold_left
    (fun acc region =>
       set_regions acc
         (regions acc ++
          [{| polygon := get_default (rd_polygon region) [];
              source_polygon := rd_source_polygon region;
              x := rd_x region; y := rd_y region;
              w := rd_w region; h := rd_h region;
              source_x := get_default (rd_source_x region) 0%Z;
              source_y := get_default (rd_source_y region) 0%Z;
              source_w := get_default (rd_source_w region) 0%Z;
              source_h := get_default (rd_source_h region) 0%Z |}]))
    polygon_data s.

(** *** Image conversions and mask primitives *)

Definition in_bounds (height width row col : Z) : bool :=
  ((0 <=? row) && (row <? height) && (0 <=? col) && (col <? width))%Z.

(** [pygame.image.tostring], [np.frombuffer], [reshape] and
    [cv2.cvtColor(_, COLOR_RGB2BGR)] of a screen-sized image. *)
Definition to_cv (img : Image) : Array BGR :=
  fun row col =>
    match image_get_at img col row with
    | Some (r, g, b) => (b, g, r)
    | None => (0, 0, 0)%Z
    end.

(** [cv2.cvtColor(_, COLOR_BGR2RGB)] and [pygame.image.frombuffer]. *)
Definition from_cv (height width : Z) (a : Array BGR) : Image :=
  map (fun row =>
         map (fun col => match a row col with (b, g, r) => (r, g, b) end)
             (py_range width))
      (py_range height).

(** [np.zeros((screen_height, screen_width))]. *)
Definition zeros : Mask := fun _ _ => 0%Z.

(** [cv2.fillPoly(mask, [pts], 255)]. *)
Definition fill_poly (cv : OpenCV) (height width : Z) (mask : Mask)
    (pts : list Point) : Mask :=
  fun row col =>
    if (in_bounds height width row col && poly_covers cv pts row col)%bool
    then 255%Z else mask row col.

(** [cv2.rectangle(mask, (x, y), (x + w, y + h), 255, -1)]: filled, both
    corners included. *)
Definition rect_covers (x y w h row col : Z) : bool :=
  ((Z.min x (x + w) <=? col) && (col <=? Z.max x (x + w))
   && (Z.min y (y + h) <=? row) && (row <=? Z.max y (y + h)))%Z.

Definition rectangle (height width : Z) (mask : Mask) (x y w h : Z) : Mask :=
  fun row col =>
    if (in_bounds height width row col && rect_covers x y w h row col)%bool
    then 255%Z else mask row col.

(** [a[y0:y0+h, x0:x0+w]] for a box that lies on the screen, re-indexed
    from 0. *)
Definition crop {A} (a : Array A) (y0 x0 : Z) : Array A :=
  fun row col => a (y0 + row)%Z (x0 + col)%Z.

(** [cv2.subtract] on bytes: saturating. *)
Definition subtract (a b : Mask) : Mask :=
  fun row col => Z.max 0 (a row col - b row col).

(** [np.sum(mask) > 0]. *)
Definition mask_any (height width : Z) (m : Mask) : bool :=
  existsb (fun row => existsb (fun col => (m row col >? 0)%Z) (py_range width))
          (py_range height).

(** [.astype(np.uint8)] of a float. *)
Definition to_uint8 (r : R) : Z := (py_int r mod 256)%Z.

(** *** _apply_inpainting *)

Section Pipeline.

Variable cv : OpenCV.
Variables height width : Z.

(** The first loop: the composite mask. *)
Definition build_mask (rs : list Region) : Mask :=
  fold_left
    (fun mask region =>
       if (3 <=? Z.of_nat (length (polygon region)))%Z
       then fill_poly cv height width mask (polygon region)
       else rectangle height width mask
                      (x region) (y region) (w region) (h region))
    rs zeros.

(** [source_polygon and len(source_polygon) >= 3]. *)
Definition is_clone (region : Region) : bool :=
  match source_polygon region with
  | Some sp => negb (Nat.eqb (length sp) 0) && (3 <=? Z.of_nat (length sp))%Z
  | None => false
  end.

(** The clone branch for one region.  The two nested loops write each
    target pixel at most once, so they are given by the array they
    leave. *)
Definition clone_region (original_image result : Array BGR)
    (region_mask : Mask) (region : Region) : Array BGR :=
  let target_x := x region in
  let target_y := y region in
  let target_w := w region in
  let target_h := h region in
  if ((source_w region >? 0) && (source_h region >? 0)
      && (target_w >? 0) && (target_h >? 0))%Z
  then
    let source_crop :=
      crop original_image (source_y region) (source_x region) in
    let source_resized :=
      resize_linear cv (source_h region) (source_w region)
                    target_w target_h source_crop in
    let source_mask_full :=
      fill_poly cv height width zeros
                (get_default (source_polygon region) []) in
    let source_mask_crop :=
      crop source_mask_full (source_y region) (source_x region) in
    let source_mask_resized :=
      resize_nearest cv (source_h region) (source_w region)
                     target_w target_h source_mask_crop in
    fun ty tx =>
      let dy := (ty - target_y)%Z in
      let dx := (tx - target_x)%Z in
      if ((0 <=? dy) && (dy <? target_h) && (0 <=? dx) && (dx <? target_w))%Z
         && in_bounds height width ty tx
         && (region_mask ty tx >? 0)%Z
         && (source_mask_resized dy dx >? 0)%Z
      then source_resized dy dx
      else result ty tx
  else result.

(** The standard branch for one region: the flat pre-fill. *)
Definition prefill_region (original_image result : Array BGR)
    (region_mask : Mask) : Array BGR :=
  let mask_dilated := dilate cv 20 2 region_mask in
  let sample_band := subtract mask_dilated region_mask in
  if mask_any height width sample_band
  then
    fun py px =>
      if in_bounds height width py px && (region_mask py px >? 0)%Z
      then flat_fill cv original_image sample_band py px
      else result py px
  else result.

(** One pass of the second loop. *)
Definition process_region (original_image result : Array BGR)
    (region : Region) : Array BGR :=
  if (Z.of_nat (length (polygon region)) <? 3)%Z then result
  else
    let region_mask := fill_poly cv height width zeros (polygon region) in
    if is_clone region
    then clone_region original_image result region_mask region
    else prefill_region original_image result region_mask.

(** The feathered blend of the smoothed result onto the original,
    [.astype(np.uint8)] per channel. *)
Definition feather_blend (result_smooth original_image : Array BGR)
    (mask_feather : Array R) : Array BGR :=
  fun row col =>
    let m := mask_feather row col in
    match result_smooth row col, original_image row col with
    | (b1, g1, r1), (b0, g0, r0) =>
        (to_uint8 (IZR b1 * m + IZR b0 * (1 - m)),
         to_uint8 (IZR g1 * m + IZR g0 * (1 - m)),
         to_uint8 (IZR r1 * m + IZR r0 * (1 - m)))
    end.

(** Everything after the two loops, from the array [result] they leave. *)
Definition finish (original_image result : Array BGR) (mask : Mask)
  : Array BGR :=
  let mask_inpaint := dilate cv 3 1 mask in
  let result := inpaint cv result mask_inpaint in
  let result_smooth := bilateral_filter cv result in
  let mask_feather :=
    fun row col => gaussian_blur cv mask row col / 255 in
  feather_blend result_smooth original_image mask_feather.

(** The array the second loop leaves. *)
Definition cloned_and_prefilled (original_image : Array BGR)
    (rs : list Region) : Array BGR :=
  fold_left (process_region original_image) rs original_image.

(** The body of [_apply_inpainting] once [cv2] is imported: the final
    composite, still as an array. *)
Definition composite (img : Image) (rs : list Region) : Array BGR :=
  let original_image := to_cv img in
  finish original_image (cloned_and_prefilled original_image rs)
         (build_mask rs).

End Pipeline.

(** [_apply_inpainting]. *)
Definition apply_inpainting (env : Environment) (s : HiddenEffect)
  : HiddenEffect :=
  let run cv :=
    set_hidden_surface s
      (Some (from_cv (screen_height s) (screen_width s)
               (composite cv (screen_height s) (screen_width s)
                          (original s) (regions s)))) in
  match import_cv2 env with
  | Some cv => run cv
  | None =>
      match import_cv2_after_install env with
      | Some cv => run cv
      | None => set_hidden_surface s (Some (original s))
      end
  end.

(** [if polygon_data:] for an argument that is [None] or a list. *)
Definition truthy {A} (data : option (list A)) : bool :=
  match data with
  | Some (_ :: _) => true
  | _ => false
  end.

(** [HiddenEffect.__init__]. *)
Definition init (env : Environment) (image : Image)
    (screen_width screen_height : Z)
    (polygon_data : option (list RegionData)) : HiddenEffect :=
  let s :=
    {| screen_width := screen_width; screen_height := screen_height;
       original := image; current_surface := image;
       hidden_surface := None; time := 0; is_complete := false;
       regions := []; reveal_duration := 2; hold_duration := 8;
       animation_duration := 2 + 8 |} in
  if truthy polygon_data
  then apply_inpainting env (process_regions s (get_default polygon_data []))
  else s.

Section Reveal.

(** [hidden.set_alpha(a)], [current.blit(hidden, (0, 0))]: pygame's
    whole-surface alpha blend; arguments [a hidden current]. *)
Variable alpha_blit : Z -> Image -> Image -> Image.

(** [HiddenEffect.update]. *)
Definition update (s : HiddenEffect) : HiddenEffect :=
  match hidden_surface s with
  | None => s
  | Some hidden =>
      if is_complete s then s
      else
        let s1 := set_time s (time s + 1 / Config.FPS) in
        if Rge_dec (time s1) (animation_duration s1) then
          set_current_surface (set_is_complete s1 true) hidden
        else if Rlt_dec (time s1) (reveal_duration s1) then
          let progress := time s1 / reveal_duration s1 in
          let progress := progress * progress * (3 - 2 * progress) in
          set_current_surface s1
            (alpha_blit (py_int (255 * progress)) hidden (original s1))
        else set_current_surface s1 hidden
  end.

End Reveal.

(** [HiddenEffect.draw]: the screen after the call. *)
Definition draw (s : HiddenEffect) (screen : Image) : Image :=
  blit_origin (current_surface s) screen.

(** [HiddenEffect.restart]. *)
Definition restart (s : HiddenEffect) : HiddenEffect :=
  set_current_surface (set_is_complete (set_time s 0) false) (original s).

End Hidden.

(** ** Invariants of the tile state *)

Module Flip_tile_inv.
Import Flip_tile.

(** What every tile satisfies between two calls of [update]: the speed is
    the base speed plus a jitter of at most 2, the angle lies between 0
    and the total, and the tile is complete exactly at the total. *)
Definition angle_inv (t : FlipTile) : Prop :=
  3 <= flip_speed t
  /\ 0 <= flip_angle t <= IZR (total_rotation t)
  /\ (is_complete t = false -> flip_angle t < IZR (total_rotation t))
  /\ (is_complete t = true -> flip_angle t = IZR (total_rotation t)).

(** The attributes [update] never assigns, as [__init__] leaves them. *)
Definition shape_inv (t : FlipTile) : Prop :=
  (1 <= target_flips t <= 4)%Z
  /\ total_rotation t = (target_flips t * 180)%Z
  /\ length (flip_surfaces t) = S (Z.to_nat (target_flips t))
  /\ length (flip_surfaces_soft t) = S (Z.to_nat (target_flips t)).

(** The first statement of [update] on a tile that is not complete: the
    fade-in of a reversed tile's cut line. *)
Definition faded (t : FlipTile) : FlipTile :=
  if (reverse t && is_animating t && (line_alpha t <? 255)%Z)%bool
  then set_line_alpha t (Z.min 255 (line_alpha t + LINE_FADE_SPEED))
  else t.

End Flip_tile_inv.

(** ** Invariants of the eye effect *)

Module Eyes_inv.
Import Eyes.

(** The attributes [update] never assigns, as [__init__] leaves them. *)
Definition static (s : EyeEffect) (image : Image) (found : list Eye) : Prop :=
  original s = image /\ eyes s = found
  /\ look_speed s = 5 / 10 /\ max_shift s = 8%Z
  /\ animation_duration s = 10.

(** A complete effect shows the untouched image; one that is not complete
    has not reached the duration. *)
Definition settled (s : EyeEffect) (image : Image) : Prop :=
  (is_complete s = true -> current_surface s = image)
  /\ (is_complete s = false -> time s < animation_duration s).

End Eyes_inv.

(** ** Region synthesis: masks and the contract of OpenCV *)

Module Hidden_spec.
Import Hidden.

(** The pixels one region contributes to the composite mask: what
    [cv2.fillPoly] paints for a polygon of at least 3 points, the filled
    rectangle from (x, y) to (x + w, y + h) otherwise. *)
Definition region_covers (cv : OpenCV) (region : Region) (row col : Z) : bool :=
  if (3 <=? Z.of_nat (length (polygon region)))%Z
  then poly_covers cv (polygon region) row col
  else rect_covers (x region) (y region) (w region) (h region) row col.

(** A kernel of ones contains its anchor: dilation never clears a set
    pixel. *)
Definition dilate_extensive (cv : OpenCV) : Prop :=
  forall k n (m : Mask) row col,
    (0 < m row col)%Z -> (0 < dilate cv k n m row col)%Z.

(** [cv2.inpaint] reconstructs the pixels of the mask from the pixels
    outside it: when some pixel of the screen is outside the mask, two
    images that agree outside the mask are inpainted to the same image. *)
Definition inpaint_from_known (cv : OpenCV) (height width : Z) : Prop :=
  forall (img img' : Array BGR) (mask : Mask),
    (exists row col,
        in_bounds height width row col = true /\ mask row col = 0%Z) ->
    (forall row col, mask row col = 0%Z -> img row col = img' row col) ->
    inpaint cv img mask = inpaint cv img' mask.

End Hidden_spec.

(** A screen of the size of the image. *)
Definition same_shape (img screen : Image) : Prop :=
  Forall2 (fun r d => length r = length d) img screen.

(** ** Sample inputs *)

Module Samples.

(** A 2 x 2 image with four different pixels. *)
Definition image : Image :=
  [[(1, 0, 0); (2, 0, 0)]; [(3, 0, 0); (4, 0, 0)]]%Z.

(** No feathering is computed when [edge_softness] is 0. *)
Definition no_falloff : Z -> Z -> Z := fun _ _ => 0%Z.

(** One horizontal flip at base speed, scrambled start mirrored
    left-right. *)
Definition draws : Flip_tile.Draws :=
  {| Flip_tile.d_target_flips := 1;
     Flip_tile.d_direction := Flip_tile.horizontal;
     Flip_tile.d_jitter := 0;
     Flip_tile.d_pre_flip_x := true;
     Flip_tile.d_pre_flip_y := false |}.

(** The tile that covers [image], forward and reversed, without delay. *)
Definition tile (reverse : bool) : Flip_tile.FlipTile :=
  Flip_tile.init no_falloff image 0 0 2 0 0 reverse draws.

(** An eye box at the origin of [image] and an effect made of it. *)
Definition eye : Eyes.Eye :=
  {| Eyes.eye_x := 0; Eyes.eye_y := 0; Eyes.eye_w := 1; Eyes.eye_h := 1;
     Eyes.center_x := 0; Eyes.center_y := 0;
     Eyes.padded_rect := (0, 0, 2, 2)%Z;
     Eyes.original_pixels := image;
     Eyes.current_shift_x := 0; Eyes.current_shift_y := 0 |}.

Definition eye_effect : Eyes.EyeEffect := Eyes.init image 2 2 [eye].

(** A pupil blender that leaves the frame as it is. *)
Definition no_shift : Eyes.Eye -> R -> R -> Image -> Image :=
  fun _ _ _ frame => frame.

(** Neither [import cv2] succeeds. *)
Definition no_cv2 : Hidden.Environment :=
  {| Hidden.import_cv2 := None; Hidden.import_cv2_after_install := None |}.

(** An 8 x 4 image whose pixel at (row, column) is (10 row + column, 0, 0). *)
Definition wide_image : Image :=
  map (fun row => map (fun col => (10 * row + col, 0, 0)%Z) (py_range 8))
      (py_range 4).

(** A stand-in for OpenCV: polygons are filled as their bounding box,
    resizing keeps the crop, dilation takes the maximum over the 3 x 3
    neighbourhood, inpainting paints the mask grey, smoothing and blurring
    do nothing. *)
Definition box_covers (pts : list Hidden.Point) (row col : Z) : bool :=
  match pts with
  | [] => false
  | (px, py) :: rest =>
      let xmin := fold_left Z.min (map fst rest) px in
      let xmax := fold_left Z.max (map fst rest) px in
      let ymin := fold_left Z.min (map snd rest) py in
      let ymax := fold_left Z.max (map snd rest) py in
      ((xmin <=? col) && (col <=? xmax) && (ymin <=? row) && (row <=? ymax))%Z
  end.

Definition max3x3 (m : Hidden.Mask) : Hidden.Mask :=
  fun row col =>
    fold_left Z.max
      (map (fun d : Z * Z => m (row + fst d) (col + snd d))%Z
           [(-1, -1); (-1, 0); (-1, 1); (0, -1); (0, 1);
            (1, -1); (1, 0); (1, 1)]%Z)
      (m row col).

Definition grey_inpaint (img : Hidden.Array Hidden.BGR) (mask : Hidden.Mask)
  : Hidden.Array Hidden.BGR :=
  fun row col =>
    if (mask row col =? 0)%Z then img row col else (128, 128, 128)%Z.

Definition box_cv : Hidden.OpenCV :=
  {| Hidden.poly_covers := box_covers;
     Hidden.resize_linear := fun _ _ _ _ src => src;
     Hidden.resize_nearest := fun _ _ _ _ src => src;
     Hidden.dilate := fun _ _ m => max3x3 m;
     Hidden.flat_fill := fun _ _ _ _ => (0, 0, 0)%Z;
     Hidden.inpaint := grey_inpaint;
     Hidden.bilateral_filter := fun img => img;
     Hidden.gaussian_blur := fun m row col => IZR (m row col) |}.

(** A clone region as the polygon selector records it: the square with
    corners (1, 1) and (3, 3) is to be filled from the square with corners
    (5, 1) and (7, 3). *)
Definition clone_region : Hidden.Region :=
  {| Hidden.polygon := [(1, 1); (3, 1); (3, 3); (1, 3)]%Z;
     Hidden.source_polygon := Some [(5, 1); (7, 1); (7, 3); (5, 3)]%Z;
     Hidden.x := 1; Hidden.y := 1; Hidden.w := 2; Hidden.h := 2;
     Hidden.source_x := 5; Hidden.source_y := 1;
     Hidden.source_w := 2; Hidden.source_h := 2 |}.

End Samples.

(** ** More of the tile: cut lines, shapes *)

Module Flip_tile_lines.
Import Flip_tile.

(** What [draw_lines] puts on the screen: an outline of the given alpha
    on a surface of the given size, at the given position. *)
Record Outline : Type := {
  outline_alpha : Z;
  outline_surface_size : Z * Z;
  outline_rect : Z * Z * Z * Z;
  outline_dest : Z * Z
}.

(** [FlipTile.draw_lines]; [None] when nothing is drawn. *)
Definition draw_lines (t : FlipTile) : option Outline :=
  if (line_alpha t <=? 0)%Z then None
  else
    let alpha := py_int (IZR (line_alpha t) * (4 / 10)) in
    Some {| outline_alpha := alpha;
            outline_surface_size := (size t + 1, size t + 1)%Z;
            outline_rect := (0, 0, size t, size t)%Z;
            outline_dest := (x t, y t) |}.

(** The test of the orchestrator for a tile whose cut line has finished
    fading: [line_alpha >= 255 if reverse else line_alpha <= 0]. *)
Definition lines_done (rv : bool) (t : FlipTile) : bool :=
  if rv then (line_alpha t >=? 255)%Z else (line_alpha t <=? 0)%Z.

(** The cut line's alpha is a byte. *)
Definition line_inv (t : FlipTile) : Prop := (0 <= line_alpha t <= 255)%Z.

(** What is left of the fade of a complete tile. *)
Definition fade_left (t : FlipTile) : Z :=
  if reverse t then (255 - line_alpha t)%Z else line_alpha t.

(** A bitmap of [n] rows of [n] pixels. *)
Definition square (n : nat) (s : Surface) : Prop :=
  length s = n /\ Forall (fun row => length row = n) s.

(** A pixel after feathering: the same colour, an alpha that is not
    higher. *)
Definition feathered (p q : RGBA) : Prop :=
  match p, q with
  | (r, g, b, a), (r', g', b', a') =>
      r' = r /\ g' = g /\ b' = b /\ (a' <= a)%Z
  end.

(** [surface.get_at((px, py))]. *)
Definition surface_get_at (s : Surface) (px py : nat) : option RGBA :=
  match nth_error s py with
  | Some row => nth_error row px
  | None => None
  end.

End Flip_tile_lines.

(** ** More of the eye effect: the padded buffer and the sampled pupil *)

Module Eyes_geometry.
Import Eyes.

(** The padded rectangle the three builders of [EyeEffect.eyes] compute
    for an eye box: the box grown by [max_shift + 5] on every side and
    cut to the screen, as (x1, y1, x2 - x1, y2 - y1). *)
Definition padded_rect_of (screen_width screen_height max_shift : Z)
    (x y w h : Z) : Z * Z * Z * Z :=
  let pad := (max_shift + 5)%Z in
  let x1 := Z.max 0 (x - pad) in
  let y1 := Z.max 0 (y - pad) in
  let x2 := Z.min screen_width (x + w + pad) in
  let y2 := Z.min screen_height (y + h + pad) in
  (x1, y1, x2 - x1, y2 - y1)%Z.




(** An eye box that lies on the screen. *)
Definition box_on_screen (screen_width screen_height x y w h : Z) : Prop :=
  (0 <= x /\ 0 <= y /\ 0 <= w /\ 0 <= h
   /\ x + w <= screen_width /\ y + h <= screen_height)%Z.

End Eyes_geometry.

(** ** More of the region reveal *)

Module Hidden_reveal.
Import Hidden.

(** The ease of [HiddenEffect.update]:
    [progress * progress * (3 - 2 * progress)]. *)
Definition smoothstep (progress : R) : R :=
  progress * progress * (3 - 2 * progress).

(** The alpha [update] gives the hidden surface at clock [t] during the
    reveal of 2 seconds: [int(255 * progress)] after the ease. *)
Definition reveal_alpha (t : R) : Z := py_int (255 * smoothstep (t / 2)).

(** An effect whose hidden surface [hidden] has been synthesised, with
    the durations [__init__] sets. *)
Definition ready (s : HiddenEffect) (image hidden : Image) : Prop :=
  original s = image /\ hidden_surface s = Some hidden
  /\ reveal_duration s = 2 /\ animation_duration s = 2 + 8.

(** All channels of a pixel are bytes. *)
Definition byte_pixel (p : BGR) : Prop :=
  match p with
  | (b, g, r) => (0 <= b <= 255 /\ 0 <= g <= 255 /\ 0 <= r <= 255)%Z
  end.

(** An image of [height] rows of [width] pixels. *)
Definition screen_sized (height width : Z) (img : Image) : Prop :=
  Z.of_nat (length img) = height
  /\ Forall (fun row => Z.of_nat (length row) = width) img.

End Hidden_reveal.

(** ** main.py: the tile grid and the tiling branch of the loop *)

Module Main.
Import Flip_tile.

(** [math.ceil] of a float. *)
Definition py_ceil (r : R) : Z := (- Int_part (- r))%Z.

(** The two tiling values of [effect_mode]. *)
Inductive TileEffect : Type := effect_flip | effect_ripple.

(** Python's [%] by a positive integer. *)
Definition py_mod (a m : Z) : Z := (a mod m)%Z.

Section Tiles.

(** The feathering falloff of the tiles, [hash((col, row))], and the
    random draws of the tile built for a cell (column, row). *)
Variable edge_alpha : Z -> Z -> Z.
Variable hash_cell : Z -> Z -> Z.
Variable draws_at : Z -> Z -> Draws.

Variable wallpaper : Image.
Variables screen_width screen_height square_size : Z.
Variable smooth_edges : bool.
Variable effect_mode : TileEffect.
Variable reverse : bool.

(** The delay [_create_tiles] computes for the cell (col, row); [None]
    is the ZeroDivisionError of [dist / max_dist]. *)
Definition tile_delay (col row : Z) : option Z :=
  let center_x := (screen_width / 2)%Z in
  let center_y := (screen_height / 2)%Z in
  let max_dist := sqrt (IZR (center_x ^ 2 + center_y ^ 2)) in
  let x := (col * square_size)%Z in
  let y := (row * square_size)%Z in
  let tile_center_x := (x + square_size / 2)%Z in
  let tile_center_y := (y + square_size / 2)%Z in
  let dist := sqrt (IZR ((tile_center_x - center_x) ^ 2
                         + (tile_center_y - center_y) ^ 2)) in
  if Req_dec_T max_dist 0 then None
  else
    let normalized_dist := dist / max_dist in
    let delay :=
      match effect_mode with
      | effect_ripple =>
          let ring := py_int (normalized_dist * 10) in
          (ring * 8 + py_mod (hash_cell col row) 5)%Z
      | effect_flip => py_int (normalized_dist * 60)
      end in
    Some (if reverse then Z.max 0 (60 - delay) else delay).

(** The tile [_create_tiles] builds for the cell (col, row). *)
Definition tile_at (col row : Z) : option FlipTile :=
  match tile_delay col row with
  | None => None
  | Some delay =>
      Some (init edge_alpha wallpaper
                 (col * square_size) (row * square_size) square_size delay
                 (if smooth_edges then 6 else 0)%Z reverse
                 (draws_at col row))
  end.

(** The cells in the order of the two loops: row by row. *)
Definition cells (cols rows : Z) : list (Z * Z) :=
  flat_map (fun row => map (fun col => (col, row)) (py_range cols))
           (py_range rows).

(** A loop that stops at the first exception. *)
Fixpoint collect {A B} (f : A -> option B) (l : list A) : option (list B) :=
  match l with
  | [] => Some []
  | a :: l' =>
      match f a with
      | None => None
      | Some b =>
          match collect f l' with
          | None => None
          | Some bs => Some (b :: bs)
          end
      end
  end.

(** [DesktopAnimationTool._create_tiles]; [None] is a
    ZeroDivisionError. *)
Definition create_tiles : option (list FlipTile) :=
  if (square_size =? 0)%Z then None
  else
    let cols := py_ceil (IZR screen_width / IZR square_size) in
    let rows := py_ceil (IZR screen_height / IZR square_size) in
    collect (fun cell => tile_at (fst cell) (snd cell)) (cells cols rows).

End Tiles.

(** The tiles and the completion flag of the orchestrator. *)
Record Tiling : Type := {
  tiles : list FlipTile;
  all_complete : bool
}.

(** The tiling branch of [DesktopAnimationTool.update], up to the time
    stamp it takes from the clock; with the default [restart_interval] of
    0 the auto-restart that follows it never runs. *)
Definition update_tiling (reverse : bool) (o : Tiling) : Tiling :=
  let all_done := forallb is_complete (tiles o) in
  let all_lines_done :=
    forallb (fun tile =>
               if reverse then (line_alpha tile >=? 255)%Z
               else (line_alpha tile <=? 0)%Z)
            (tiles o) in
  let tiles' := map update (tiles o) in
  if (all_done && all_lines_done && negb (all_complete o))%bool
  then {| tiles := tiles'; all_complete := true |}
  else {| tiles := tiles'; all_complete := all_complete o |}.

(** A pixel lies on a tile's square. *)
Definition on_tile (t : FlipTile) (px py : Z) : Prop :=
  (x t <= px < x t + size t /\ y t <= py < y t + size t)%Z.

End Main.

(** ** effects/polygon_selector.py: events and the exported records *)

Module Polygon_selector.

Definition Point : Type := Z * Z.

Inductive Mode : Type := mode_eyes | mode_hidden | mode_hidden_clone.

(** The events [_handle_events] tells apart. *)
Inductive Event : Type :=
| Quit
| KeyEscape
| KeyReturn
| KeyBackspace
| KeyOther
| LeftClick (x y : Z)
| RightClick
| OtherButton
| OtherEvent.

Record Selector : Type := {
  mode : Mode;
  scale : R;
  polygons : list (list Point);
  source_polygons : list (list Point);
  current_polygon : list Point;
  current_region : Z;
  selecting_source : bool;
  current_target_polygon : option (list Point);
  running : bool;
  saved : bool
}.

(** The selector as [__init__] leaves it, for a mode and a display
    scale. *)
Definition init (m : Mode) (display_scale : R) : Selector :=
  {| mode := m; scale := display_scale;
     polygons := []; source_polygons := []; current_polygon := [];
     current_region := 1; selecting_source := false;
     current_target_polygon := None; running := true; saved := false |}.

Definition is_clone_mode (m : Mode) : bool :=
  match m with mode_hidden_clone => true | _ => false end.

(** The body of the loop of [_handle_events] for one event. *)
Definition handle_event (s : Selector) (e : Event) : Selector :=
  match e with
  | Quit | KeyEscape =>
      {| mode := mode s; scale := scale s; polygons := polygons s;
         source_polygons := source_polygons s;
         current_polygon := current_polygon s;
         current_region := current_region s;
         selecting_source := selecting_source s;
         current_target_polygon := current_target_polygon s;
         running := false; saved := saved s |}
  | KeyReturn =>
      let completes := (3 <=? Z.of_nat (length (current_polygon s)))%Z in
      let to_source :=
        (completes && is_clone_mode (mode s) && selecting_source s)%bool in
      let to_target := (completes && negb to_source)%bool in
      let sources :=
        if to_source then source_polygons s ++ [current_polygon s]
        else source_polygons s in
      let targets :=
        if to_target then polygons s ++ [current_polygon s]
        else polygons s in
      {| mode := mode s; scale := scale s; polygons := targets;
         source_polygons := sources;
         current_polygon := current_polygon s;
         current_region := current_region s;
         selecting_source :=
           if to_source then false else selecting_source s;
         current_target_polygon := current_target_polygon s;
         running := false;
         saved := if (0 <? Z.of_nat (length targets))%Z then true
                  else saved s |}
  | KeyBackspace =>
      {| mode := mode s; scale := scale s; polygons := polygons s;
         source_polygons := source_polygons s;
         current_polygon :=
           if (0 <? Z.of_nat (length (current_polygon s)))%Z
           then removelast (current_polygon s) else current_polygon s;
         current_region := current_region s;
         selecting_source := selecting_source s;
         current_target_polygon := current_target_polygon s;
         running := running s; saved := saved s |}
  | LeftClick x y =>
      {| mode := mode s; scale := scale s; polygons := polygons s;
         source_polygons := source_polygons s;
         current_polygon := current_polygon s ++ [(x, y)];
         current_region := current_region s;
         selecting_source := selecting_source s;
         current_target_polygon := current_target_polygon s;
         running := running s; saved := saved s |}
  | RightClick =>
      if (3 <=? Z.of_nat (length (current_polygon s)))%Z then
        if is_clone_mode (mode s) then
          if selecting_source s then
            {| mode := mode s; scale := scale s; polygons := polygons s;
               source_polygons := source_polygons s ++ [current_polygon s];
               current_polygon := [];
               current_region := (current_region s + 1)%Z;
               selecting_source := false;
               current_target_polygon := current_target_polygon s;
               running := running s; saved := saved s |}
          else
            {| mode := mode s; scale := scale s;
               polygons := polygons s ++ [current_polygon s];
               source_polygons := source_polygons s;
               current_polygon := [];
               current_region := current_region s;
               selecting_source := true;
               current_target_polygon := Some (current_polygon s);
               running := running s; saved := saved s |}
        else
          {| mode := mode s; scale := scale s;
             polygons := polygons s ++ [current_polygon s];
             source_polygons := source_polygons s;
             current_polygon := [];
             current_region := (current_region s + 1)%Z;
             selecting_source := selecting_source s;
             current_target_polygon := current_target_polygon s;
             running := running s; saved := saved s |}
      else s
  | KeyOther | OtherButton | OtherEvent => s
  end.

(** [_handle_events] on the events of one or several frames. *)
Definition handle_events (s : Selector) (events : list Event) : Selector :=
  fold_left handle_event events s.

(** [min] and [max] of a list of integers; [None] is the ValueError on
    the empty list. *)
Definition py_min (l : list Z) : option Z :=
  match l with
  | [] => None
  | a :: l' => Some (fold_left Z.min l' a)
  end.

Definition py_max (l : list Z) : option Z :=
  match l with
  | [] => None
  | a :: l' => Some (fold_left Z.max l' a)
  end.

(** One record of the exported list. *)
Record PolygonRecord : Type := {
  pr_x : Z;
  pr_y : Z;
  pr_w : Z;
  pr_h : Z;
  pr_polygon : list Point;
  pr_center_x : Z;
  pr_center_y : Z;
  pr_source_polygon : option (list Point);
  pr_source_x : option Z;
  pr_source_y : option Z;
  pr_source_w : option Z;
  pr_source_h : option Z
}.

(** [(int(x / scale), int(y / scale))] over a polygon. *)
Definition unscale (display_scale : R) (polygon : list Point) : list Point :=
  map (fun p => (py_int (IZR (fst p) / display_scale),
                 py_int (IZR (snd p) / display_scale)))
      polygon.

(** [(min(xs), min(ys), max(xs) - min(xs), max(ys) - min(ys))]. *)
Definition bounding_box (polygon : list Point) : option (Z * Z * Z * Z) :=
  let xs := map fst polygon in
  let ys := map snd polygon in
  match py_min xs, py_min ys, py_max xs, py_max ys with
  | Some x, Some y, Some x2, Some y2 => Some (x, y, x2 - x, y2 - y)%Z
  | _, _, _, _ => None
  end.

(** The record [_get_polygon_data] builds for the polygon number [i];
    [None] is a ValueError. *)
Definition record_of (s : Selector) (i : nat) (polygon : list Point)
  : option PolygonRecord :=
  let scaled_polygon := unscale (scale s) polygon in
  match bounding_box scaled_polygon with
  | None => None
  | Some (x, y, w, h) =>
      let plain :=
        {| pr_x := x; pr_y := y; pr_w := w; pr_h := h;
           pr_polygon := scaled_polygon;
           pr_center_x := (x + w / 2)%Z; pr_center_y := (y + h / 2)%Z;
           pr_source_polygon := None;
           pr_source_x := None; pr_source_y := None;
           pr_source_w := None; pr_source_h := None |} in
      if is_clone_mode (mode s) then
        match nth_error (source_polygons s) i with
        | None => Some plain
        | Some source_polygon =>
            let scaled_source := unscale (scale s) source_polygon in
            match bounding_box scaled_source with
            | None => None
            | Some (sx, sy, sw, sh) =>
                Some {| pr_x := x; pr_y := y; pr_w := w; pr_h := h;
                        pr_polygon := scaled_polygon;
                        pr_center_x := (x + w / 2)%Z;
                        pr_center_y := (y + h / 2)%Z;
                        pr_source_polygon := Some scaled_source;
                        pr_source_x := Some sx; pr_source_y := Some sy;
                        pr_source_w := Some sw; pr_source_h := Some sh |}
            end
        end
      else Some plain
  end.

(** The loop of [_get_polygon_data] from index [i] on. *)
Fixpoint records_from (s : Selector) (i : nat) (l : list (list Point))
  : option (list PolygonRecord) :=
  match l with
  | [] => Some []
  | polygon :: l' =>
      if (3 <=? Z.of_nat (length polygon))%Z then
        match record_of s i polygon with
        | None => None
        | Some r =>
            match records_from s (S i) l' with
            | None => None
            | Some rs => Some (r :: rs)
            end
        end
      else records_from s (S i) l'
  end.

(** [PolygonSelector._get_polygon_data]. *)
Definition get_polygon_data (s : Selector) : option (list PolygonRecord) :=
  records_from s 0 (polygons s).

(** The keys [HiddenEffect._process_regions] reads from a record. *)
Definition region_data_of (r : PolygonRecord) : Hidden.RegionData :=
  {| Hidden.rd_polygon := Some (pr_polygon r);
     Hidden.rd_source_polygon := pr_source_polygon r;
     Hidden.rd_x := pr_x r; Hidden.rd_y := pr_y r;
     Hidden.rd_w := pr_w r; Hidden.rd_h := pr_h r;
     Hidden.rd_source_x := pr_source_x r;
     Hidden.rd_source_y := pr_source_y r;
     Hidden.rd_source_w := pr_source_w r;
     Hidden.rd_source_h := pr_source_h r |}.

(** What the selector keeps true of its lists. *)
Definition well_formed (s : Selector) : Prop :=
  Forall (fun p => (3 <= length p)%nat) (polygons s)
  /\ Forall (fun p => (3 <= length p)%nat) (source_polygons s)
  /\ (length (source_polygons s) <= length (polygons s))%nat
  /\ (selecting_source s = true ->
      (length (source_polygons s) < length (polygons s))%nat)
  /\ (is_clone_mode (mode s) = false ->
      source_polygons s = [] /\ selecting_source s = false)
  /\ (saved s = true -> polygons s <> []).

(** The box [(x, y, w, h)] is the bounding box of the points: it holds
    every point and a point lies on each of its four sides. *)
Definition encloses (pts : list Point) (x y w h : Z) : Prop :=
  (0 <= w)%Z /\ (0 <= h)%Z
  /\ (forall pt, In pt pts ->
        (x <= fst pt <= x + w)%Z /\ (y <= snd pt <= y + h)%Z)
  /\ (exists pt, In pt pts /\ fst pt = x)
  /\ (exists pt, In pt pts /\ fst pt = (x + w)%Z)
  /\ (exists pt, In pt pts /\ snd pt = y)
  /\ (exists pt, In pt pts /\ snd pt = (y + h)%Z).

(** The source keys of a record describe the bounding box of its source
    polygon, or are all absent. *)
Definition source_enclosed (r : PolygonRecord) : Prop :=
  match pr_source_polygon r with
  | Some sp =>
      exists sx sy sw sh,
        pr_source_x r = Some sx /\ pr_source_y r = Some sy
        /\ pr_source_w r = Some sw /\ pr_source_h r = Some sh
        /\ (3 <= length sp)%nat /\ encloses sp sx sy sw sh
  | None =>
      pr_source_x r = None /\ pr_source_y r = None
      /\ pr_source_w r = None /\ pr_source_h r = None
  end.

(** An event that ends the loop of [run]. *)
Definition stops (e : Event) : bool :=
  match e with Quit | KeyEscape | KeyReturn => true | _ => false end.

(** The entry [HiddenEffect._process_regions] appends for a record. *)
Definition region_of (r : PolygonRecord) : Hidden.Region :=
  {| Hidden.polygon := pr_polygon r;
     Hidden.source_polygon := pr_source_polygon r;
     Hidden.x := pr_x r; Hidden.y := pr_y r;
     Hidden.w := pr_w r; Hidden.h := pr_h r;
     Hidden.source_x := Hidden.get_default (pr_source_x r) 0%Z;
     Hidden.source_y := Hidden.get_default (pr_source_y r) 0%Z;
     Hidden.source_w := Hidden.get_default (pr_source_w r) 0%Z;
     Hidden.source_h := Hidden.get_default (pr_source_h r) 0%Z |}.

(** What [run] gives once its loop has ended: the outer [None] is a
    ValueError, [Some None] is Python's [None]. *)
Definition run_result (s : Selector) : option (option (list PolygonRecord)) :=
  if (saved s && (0 <? Z.of_nat (length (polygons s)))%Z)%bool then
    match get_polygon_data s with
    | Some rs => Some (Some rs)
    | None => None
    end
  else Some None.

(** The source polygon [_get_polygon_data] pairs with the polygon
    number [i]. *)
Definition paired_source (s : Selector) (i : nat) : option (list Point) :=
  if is_clone_mode (mode s)
  then option_map (unscale (scale s)) (nth_error (source_polygons s) i)
  else None.

End Polygon_selector.

(** * Properties *)

(** ** Lists *)

Lemma last_set_last {A} (l : list A) (v d : A) :
  l <> [] -> last (set_last l v) d = v.
Proof.
  intros Hl. destruct l as [|a l]; [congruence|].
  unfold set_last. apply last_last.
Qed.

Lemma last_rev_hd {A} (l : list A) (d : A) : last (rev l) d = hd d l.
Proof.
  destruct l as [|a l]; [reflexivity|]. simpl. apply last_last.
Qed.

Lemma hd_rev_last {A} (l : list A) (d : A) : hd d (rev l) = last l d.
Proof.
  rewrite <- (rev_involutive l) at 2. now rewrite last_rev_hd.
Qed.

Lemma length_set_last {A} (l : list A) (v : A) :
  length (set_last l v) = length l.
Proof.
  destruct l as [|a l]; [reflexivity|].
  unfold set_last.
  rewrite length_app, removelast_firstn_len, length_firstn. simpl. lia.
Qed.

Lemma iter_n_add {A} (f : A -> A) (m n : nat) (a : A) :
  iter_n (m + n) f a = iter_n m f (iter_n n f a).
Proof. induction m as [|m IH]; simpl; [reflexivity | now rewrite IH]. Qed.

(** ** Flip tiles: the precomputed states *)

Module Flip_tile_states.
Import Flip_tile.

Lemma length_flip_loop n dir cur : length (flip_loop n dir cur) = n.
Proof.
  revert cur. induction n as [|n IH]; intros cur; simpl; [reflexivity|].
  now rewrite IH.
Qed.

Lemma length_precompute_states orig rv flips dir px py :
  length (precompute_states orig rv flips dir px py)
  = S (Z.to_nat flips).
Proof.
  unfold precompute_states.
  destruct rv; rewrite ?length_rev, length_set_last; simpl;
    now rewrite length_flip_loop.
Qed.

Lemma precompute_forward orig flips dir px py :
  last (precompute_states orig false flips dir px py) [] = orig.
Proof.
  unfold precompute_states. apply last_set_last. discriminate.
Qed.

Lemma precompute_reverse orig flips dir px py :
  (1 <= flips)%Z ->
  hd [] (precompute_states orig true flips dir px py) = orig
  /\ last (precompute_states orig true flips dir px py) []
     = scrambled_start orig px py.
Proof.
  intros Hf. unfold precompute_states.
  rewrite hd_rev_last, last_rev_hd. split.
  - apply last_set_last. discriminate.
  - destruct (Z.to_nat flips) as [|n] eqn:E; [lia|]. reflexivity.
Qed.

(** C3, as stated, fails: the reversed sample tile, whose scrambled start
    is mirrored left-right, has the mirrored bitmap as the last state, and
    that is the bitmap it shows once its flip is complete. *)
Lemma reversed_tile_ends_scrambled :
  valid_draws Samples.draws
  /\ last (flip_surfaces (Samples.tile true)) []
     <> original_surface (Samples.tile true)
  /\ final_surface (Samples.tile true)
     <> original_surface (Samples.tile true).
Proof.
  split; [|split].
  - unfold valid_draws; simpl. split; [lia | lra].
  - cbv. discriminate.
  - cbv. discriminate.
Qed.

(** C3, amended: a forward tile ends on the untouched bitmap; a reversed
    tile starts on the untouched bitmap and ends on the scrambled start
    bitmap (the original after the random mirrors).  In both directions
    [final_surface], which [draw] shows once the tile is complete, is the
    last state. *)
Theorem final_state_by_direction :
  forall edge_alpha img x y size delay edge rv d,
    valid_draws d ->
    let t := init edge_alpha img x y size delay edge rv d in
    length (flip_surfaces t) = S (Z.to_nat (target_flips t))
    /\ final_surface t = last (flip_surfaces t) []
    /\ (rv = false -> last (flip_surfaces t) [] = original_surface t)
    /\ (rv = true ->
        hd [] (flip_surfaces t) = original_surface t
        /\ last (flip_surfaces t) []
           = scrambled_start (original_surface t) (d_pre_flip_x d) (d_pre_flip_y d)).
Proof.
  intros ea img x0 y0 sz dl edge rv d [Hf _] t. subst t. simpl.
  split; [apply length_precompute_states|].
  split; [reflexivity|].
  split; intros ->.
  - apply precompute_forward.
  - apply precompute_reverse. lia.
Qed.

Lemma final_state_by_direction_witness :
  let t := Samples.tile true in
  length (flip_surfaces t) = S (Z.to_nat (target_flips t))
  /\ final_surface t = last (flip_surfaces t) []
  /\ (true = false -> last (flip_surfaces t) [] = original_surface t)
  /\ (true = true ->
      hd [] (flip_surfaces t) = original_surface t
      /\ last (flip_surfaces t) []
         = scrambled_start (original_surface t) true false).
Proof.
  apply (final_state_by_direction Samples.no_falloff Samples.image
           0 0 2 0 0 true Samples.draws).
  unfold valid_draws; simpl. split; [lia | lra].
Defined.

End Flip_tile_states.

(** ** Flip tiles: the update state machine *)

Module Flip_tile_run.
Import Flip_tile Flip_tile_inv.

Lemma set_line_alpha_same t : set_line_alpha t (line_alpha t) = t.
Proof. destruct t; reflexivity. Qed.

(** A complete tile: [update] only fades the cut line. *)
Lemma update_complete t :
  is_complete t = true ->
  update t = set_line_alpha t (line_alpha (update t))
  /\ is_complete (update t) = true.
Proof.
  intros Hc. unfold update. rewrite Hc.
  destruct (reverse t);
    [destruct (line_alpha t <? 255)%Z | destruct (line_alpha t >? 0)%Z];
    simpl; rewrite ?set_line_alpha_same; auto.
Qed.

Lemma iter_update_complete m t :
  is_complete t = true ->
  iter_n m update t = set_line_alpha t (line_alpha (iter_n m update t))
  /\ is_complete (iter_n m update t) = true.
Proof.
  intros Hc. induction m as [|m [IHeq IHc]]; simpl.
  - now rewrite set_line_alpha_same.
  - destruct (update_complete _ IHc) as [Heq Hc'].
    split; [|exact Hc'].
    rewrite Heq at 1. rewrite IHeq at 1. reflexivity.
Qed.

Lemma faded_fields t :
  flip_angle (faded t) = flip_angle t
  /\ flip_speed (faded t) = flip_speed t
  /\ total_rotation (faded t) = total_rotation t
  /\ current_delay (faded t) = current_delay t
  /\ is_complete (faded t) = is_complete t
  /\ is_animating (faded t) = is_animating t.
Proof.
  unfold faded.
  destruct (reverse t && is_animating t && (line_alpha t <? 255)%Z)%bool;
    simpl; auto 10.
Qed.

(** [update] on a tile that is not complete, by cases on the delay. *)
Lemma update_running t :
  is_complete t = false ->
  ((0 < current_delay t)%Z
   /\ update t = set_current_delay (faded t) (current_delay t - 1))
  \/ ((current_delay t <= 0)%Z
      /\ current_delay (update t) = current_delay t
      /\ flip_speed (update t) = flip_speed t
      /\ total_rotation (update t) = total_rotation t
      /\ is_animating (update t) = true
      /\ ((flip_angle t + flip_speed t >= IZR (total_rotation t)
           /\ is_complete (update t) = true
           /\ flip_angle (update t) = IZR (total_rotation t))
          \/ (flip_angle t + flip_speed t < IZR (total_rotation t)
              /\ is_complete (update t) = false
              /\ flip_angle (update t) = flip_angle t + flip_speed t))).
Proof.
  intros Hc. unfold update. rewrite Hc. fold (faded t).
  destruct (faded_fields t) as (Ha & Hs & Ht & Hd & Hcf & Han).
  cbv zeta. rewrite Hd.
  destruct (current_delay t >? 0)%Z eqn:Ed.
  - left. split; [lia | reflexivity].
  - right. split; [lia|].
    assert (Hanim : forall u : FlipTile,
               is_animating
                 (if negb (is_animating u) then start_animation u else u)
               = true).
    { intros u. destruct (is_animating u) eqn:E; simpl; auto. }
    assert (Hkeep : forall u : FlipTile,
               let u' := if negb (is_animating u) then start_animation u
                         else u in
               flip_angle u' = flip_angle u /\ flip_speed u' = flip_speed u
               /\ total_rotation u' = total_rotation u
               /\ current_delay u' = current_delay u
               /\ is_complete u' = is_complete u).
    { intros u. destruct (is_animating u); simpl; auto 10. }
    destruct (Hkeep (faded t)) as (Ka & Ks & Kt & Kd & Kc).
    specialize (Hanim (faded t)).
    set (u := if negb (is_animating (faded t)) then start_animation (faded t)
              else faded t) in *.
    simpl (flip_angle (set_flip_angle _ _)).
    simpl (total_rotation (set_flip_angle _ _)).
    destruct (Rge_dec (flip_angle u + flip_speed u) (IZR (total_rotation u)))
      as [Hge|Hlt]; simpl;
      rewrite ?Ka, ?Ks, ?Kt, ?Kd, ?Kc, ?Ha, ?Hs, ?Ht, ?Hd, ?Hcf in *.
    + repeat split; auto; left; repeat split; auto.
    + repeat split; auto; right; repeat split; auto; lra.
Qed.

Lemma angle_inv_set_current_delay t v :
  angle_inv (set_current_delay t v) <-> angle_inv t.
Proof. unfold angle_inv; simpl; tauto. Qed.

Lemma angle_inv_faded t : angle_inv (faded t) <-> angle_inv t.
Proof.
  unfold angle_inv.
  destruct (faded_fields t) as (Ha & Hs & Ht & Hd & Hcf & Han).
  rewrite Ha, Hs, Ht, Hcf. tauto.
Qed.

(** One step keeps the invariant and never lowers the angle. *)
Lemma angle_inv_update t :
  angle_inv t ->
  angle_inv (update t) /\ flip_angle t <= flip_angle (update t).
Proof.
  intros Hinv.
  destruct (is_complete t) eqn:Hc.
  - destruct (update_complete t Hc) as [Heq Hc'].
    rewrite Heq. unfold angle_inv in *. simpl. split; [tauto | lra].
  - destruct (update_running t Hc) as [[Hd Heq] | (Hd & _ & Hs & Ht & _ & Hcase)].
    + rewrite Heq. split.
      * now apply angle_inv_set_current_delay, angle_inv_faded.
      * simpl. destruct (faded_fields t) as (Ha & _). lra.
    + destruct Hinv as (Hsp & Hrange & Hlt & Heq).
      specialize (Hlt Hc).
      unfold angle_inv. rewrite Hs, Ht.
      destruct Hcase as [(Hge & Hc' & Ha') | (Hlt' & Hc' & Ha')];
        rewrite Hc', Ha'.
      * split; [|lra]. repeat split; try lra; congruence.
      * split; [|lra]. repeat split; try lra; congruence.
Qed.

Lemma IZR_total_pos (flips : Z) :
  (1 <= flips <= 4)%Z -> 180 <= IZR (flips * 180) <= 720.
Proof.
  intros [H1 H4]. rewrite mult_IZR.
  apply IZR_le in H1. apply IZR_le in H4. lra.
Qed.

Lemma angle_inv_init edge_alpha img x y size delay edge rv d :
  valid_draws d ->
  angle_inv (init edge_alpha img x y size delay edge rv d).
Proof.
  intros [Hf Hj]. unfold angle_inv. simpl. unfold Config.FLIP_SPEED.
  pose proof (IZR_total_pos _ Hf) as Ht.
  repeat split; intros; try lra; discriminate.
Qed.

Lemma angle_inv_iter n t : angle_inv t -> angle_inv (iter_n n update t).
Proof.
  intros H. induction n as [|n IH]; simpl; [exact H|].
  now apply angle_inv_update.
Qed.

Lemma total_rotation_update t : total_rotation (update t) = total_rotation t.
Proof.
  destruct (is_complete t) eqn:Hc.
  - destruct (update_complete t Hc) as [Heq _]. now rewrite Heq.
  - destruct (update_running t Hc) as [[_ Heq] | (_ & _ & _ & Ht & _)];
      [|exact Ht].
    rewrite Heq. simpl. apply faded_fields.
Qed.

Lemma total_rotation_iter n t :
  total_rotation (iter_n n update t) = total_rotation t.
Proof.
  induction n as [|n IH]; simpl; [reflexivity|].
  now rewrite total_rotation_update.
Qed.

(** C4: along every run of [update] from a freshly built tile the angle
    never decreases and never exceeds [total_rotation = 180 *
    target_flips]; once it equals the total, any number of further
    updates leaves every attribute but [line_alpha] as it is. *)
Theorem flip_angle_monotone_bounded_terminal :
  forall edge_alpha img x y size delay edge rv d n,
    valid_draws d ->
    let t := iter_n n update
               (init edge_alpha img x y size delay edge rv d) in
    total_rotation t = (180 * d_target_flips d)%Z
    /\ flip_angle t <= flip_angle (update t)
    /\ flip_angle t <= IZR (total_rotation t)
    /\ (flip_angle t = IZR (total_rotation t) ->
        forall m,
          iter_n m update t
          = set_line_alpha t (line_alpha (iter_n m update t))).
Proof.
  intros ea img x0 y0 sz dl edge rv d n Hd t.
  assert (Hinv : angle_inv t).
  { apply angle_inv_iter, angle_inv_init, Hd. }
  split; [|split; [|split]].
  - subst t. rewrite total_rotation_iter. unfold init.
    cbn [total_rotation]. lia.
  - apply angle_inv_update, Hinv.
  - apply Hinv.
  - intros Heq m.
    destruct (is_complete t) eqn:Hc.
    + apply iter_update_complete, Hc.
    + destruct Hinv as (_ & _ & Hlt & _). specialize (Hlt Hc). lra.
Qed.

Lemma flip_angle_monotone_bounded_terminal_witness :
  let t := iter_n 3 update (Samples.tile false) in
  total_rotation t = (180 * 1)%Z
  /\ flip_angle t <= flip_angle (update t)
  /\ flip_angle t <= IZR (total_rotation t)
  /\ (flip_angle t = IZR (total_rotation t) ->
      forall m,
        iter_n m update t
        = set_line_alpha t (line_alpha (iter_n m update t))).
Proof.
  apply (flip_angle_monotone_bounded_terminal Samples.no_falloff Samples.image
           0 0 2 0 0 false Samples.draws 3).
  unfold valid_draws; simpl. split; [lia | lra].
Defined.

End Flip_tile_run.

(** ** Flip tiles: termination *)

Module Flip_tile_termination.
Import Flip_tile Flip_tile_inv Flip_tile_run.

Lemma faded_idle t : is_animating t = false -> faded t = t.
Proof.
  intros H. unfold faded. rewrite H. now destruct (reverse t).
Qed.

(** While the delay lasts, [update] only counts it down. *)
Lemma delay_phase k t :
  is_complete t = false -> is_animating t = false ->
  (Z.of_nat k <= current_delay t)%Z ->
  iter_n k update t = set_current_delay t (current_delay t - Z.of_nat k).
Proof.
  intros Hc Ha. induction k as [|k IH]; intros Hk.
  - simpl. rewrite Z.sub_0_r. now destruct t.
  - simpl iter_n. rewrite IH by lia.
    set (u := set_current_delay t (current_delay t - Z.of_nat k)).
    assert (Hcu : is_complete u = false) by exact Hc.
    destruct (update_running u Hcu) as [[_ Heq] | [Hd _]].
    + rewrite Heq, faded_idle by exact Ha.
      subst u. unfold set_current_delay. simpl. f_equal. lia.
    + subst u. simpl in Hd. lia.
Qed.

(** Once the delay is over, every update that does not complete the tile
    adds at least 3 degrees. *)
Lemma flip_phase k t :
  angle_inv t -> (current_delay t <= 0)%Z ->
  let s := iter_n k update t in
  angle_inv s /\ (current_delay s <= 0)%Z
  /\ (is_complete s = true \/ flip_angle t + 3 * INR k <= flip_angle s).
Proof.
  intros Hinv Hd. induction k as [|k (IHinv & IHd & IH)].
  - simpl. repeat split; try apply Hinv; auto. right. lra.
  - cbv zeta in *. simpl iter_n. set (s := iter_n k update t) in *.
    split; [now apply angle_inv_update|].
    destruct (is_complete s) eqn:Hc.
    + destruct (update_complete s Hc) as [Heq Hc'].
      split; [|now left]. rewrite Heq. simpl. exact IHd.
    + destruct IH as [IH | IH]; [congruence|].
      destruct (update_running s Hc)
        as [[Hpos _] | (_ & Hd' & _ & _ & _ & Hcase)]; [lia|].
      split; [lia|].
      destruct Hcase as [(_ & Hc' & _) | (_ & _ & Ha')]; [now left|].
      right. rewrite Ha', S_INR.
      destruct IHinv as (Hsp & _). lra.
Qed.

(** C9: with a jitter in [-2, 2] and 1 to 4 flips, a tile built with delay
    [delay] is complete after [delay + 240] calls of [update], and after
    any larger number of calls. *)
Theorem tile_completes_within_bound :
  forall edge_alpha img x y size delay edge rv d n,
    valid_draws d ->
    (Z.to_nat delay + 240 <= n)%nat ->
    3 <= flip_speed (init edge_alpha img x y size delay edge rv d)
    /\ (total_rotation (init edge_alpha img x y size delay edge rv d)
        <= 720)%Z
    /\ is_complete
         (iter_n n update (init edge_alpha img x y size delay edge rv d))
       = true.
Proof.
  intros ea img x0 y0 sz dl edge rv d n Hd Hn.
  set (t := init ea img x0 y0 sz dl edge rv d).
  assert (Hinv : angle_inv t) by (apply angle_inv_init, Hd).
  split; [apply Hinv|].
  split; [subst t; unfold init; cbn [total_rotation];
          destruct Hd as [Hf _]; lia|].
  replace n with ((n - (Z.to_nat dl + 240)) + (240 + Z.to_nat dl))%nat by lia.
  rewrite 2 iter_n_add.
  apply iter_update_complete.
  (* the delay phase *)
  assert (Hphase1 : exists u, iter_n (Z.to_nat dl) update t = u
                              /\ angle_inv u /\ (current_delay u <= 0)%Z
                              /\ total_rotation u = total_rotation t).
  { destruct (Z_le_gt_dec dl 0) as [Hle | Hgt].
    - exists t. replace (Z.to_nat dl) with 0%nat by lia.
      repeat split; try apply Hinv. exact Hle.
    - eexists. split; [apply delay_phase; try reflexivity|].
      + subst t. unfold init. cbn [current_delay]. lia.
      + split; [now apply angle_inv_set_current_delay|].
        split; [|reflexivity].
        subst t. unfold init, set_current_delay. cbn [current_delay]. lia. }
  destruct Hphase1 as (u & -> & Hu & Hdu & Htu).
  (* the flip phase *)
  destruct (flip_phase 240 u Hu Hdu) as (Hs & _ & [Hc | Hang]); [exact Hc|].
  destruct (is_complete (iter_n 240 update u)) eqn:Hc; [reflexivity|].
  exfalso.
  destruct Hs as (_ & _ & Hlt & _). specialize (Hlt Hc).
  rewrite total_rotation_iter in Hlt.
  assert (Htot : IZR (total_rotation u) <= 720).
  { rewrite Htu. subst t. unfold init. cbn [total_rotation].
    apply (IZR_total_pos (d_target_flips d)), Hd. }
  destruct Hu as (_ & Hrange & _).
  rewrite INR_IZR_INZ in Hang.
  change (Z.of_nat 240) with 240%Z in Hang.
  lra.
Qed.

Lemma tile_completes_within_bound_witness :
  3 <= flip_speed (Samples.tile false)
  /\ (total_rotation (Samples.tile false) <= 720)%Z
  /\ is_complete (iter_n 240 update (Samples.tile false)) = true.
Proof.
  apply (tile_completes_within_bound Samples.no_falloff Samples.image
           0 0 2 0 0 false Samples.draws 240).
  - unfold valid_draws; simpl. split; [lia | lra].
  - simpl. lia.
Defined.

End Flip_tile_termination.

(** ** Flip tiles: the squash factor of [draw] *)

Module Flip_tile_draw.
Import Flip_tile Flip_tile_inv Flip_tile_run.

Lemma py_int_nonneg r : 0 <= r -> (0 <= py_int r)%Z.
Proof.
  intros Hr. unfold py_int. destruct (Rle_dec 0 r) as [_|Hn]; [|contradiction].
  destruct (base_Int_part r) as [_ Hgt].
  assert (H : IZR (-1) < IZR (Int_part r)) by (simpl; lra).
  apply lt_IZR in H. lia.
Qed.

Lemma py_index_in_range {A} (l : list A) (i : Z) :
  (0 <= i < Z.of_nat (length l))%Z -> exists v, py_index l i = Some v.
Proof.
  intros [H0 Hl]. unfold py_index.
  destruct (0 <=? i)%Z eqn:E; [|lia].
  destruct (nth_error l (Z.to_nat i)) as [v|] eqn:En; [now exists v|].
  apply nth_error_None in En. lia.
Qed.

(** Inside the half-cycle number [k] the float remainder is the offset
    from the start of the half-cycle. *)
Lemma py_fmod_half_cycle (k : Z) (a : R) :
  180 * IZR k <= a < 180 * IZR k + 180 ->
  py_fmod a 180 = a - 180 * IZR k.
Proof.
  intros [Hlo Hhi]. unfold py_fmod.
  rewrite <- (Int_part_spec (a / 180) k); [reflexivity|]. lra.
Qed.

Lemma radians_le a b : a <= b -> radians a <= radians b.
Proof. intros H. unfold radians. pose proof PI_RGT_0 as Hpi. nra. Qed.

(** On the first quarter turn the cosine is non-negative and falls. *)
Lemma abs_cos_falls a b :
  0 <= a -> a <= b -> b <= 90 ->
  Rabs (cos (radians b)) <= Rabs (cos (radians a)).
Proof.
  intros H0 Hab Hb. pose proof PI_RGT_0 as Hpi.
  assert (Ha2 : radians a <= PI / 2) by (unfold radians; nra).
  assert (Hb2 : radians b <= PI / 2) by (unfold radians; nra).
  assert (Ha0 : 0 <= radians a) by (unfold radians; nra).
  assert (Hb0 : 0 <= radians b) by (unfold radians; nra).
  rewrite !Rabs_pos_eq by (apply cos_ge_0; lra).
  apply cos_decr_1; try lra. now apply radians_le.
Qed.

(** On the second quarter turn the cosine is non-positive and its
    magnitude rises. *)
Lemma abs_cos_rises a b :
  90 <= a -> a <= b -> b <= 180 ->
  Rabs (cos (radians a)) <= Rabs (cos (radians b)).
Proof.
  intros H0 Hab Hb. pose proof PI_RGT_0 as Hpi.
  assert (Ha2 : PI / 2 <= radians a) by (unfold radians; nra).
  assert (Hb2 : PI / 2 <= radians b) by (unfold radians; nra).
  assert (Ha0 : radians a <= PI) by (unfold radians; nra).
  assert (Hb0 : radians b <= PI) by (unfold radians; nra).
  rewrite !Rabs_left1 by (apply cos_le_0; lra).
  apply Ropp_le_contravar.
  apply cos_decr_1; try lra. now apply radians_le.
Qed.

Lemma squash_scale_min a : 2 / 100 <= squash_scale a.
Proof. unfold squash_scale. apply Rmax_l. Qed.

Lemma squash_scale_falls (k : Z) a b :
  180 * IZR k <= a -> a <= b -> b <= 180 * IZR k + 90 ->
  squash_scale b <= squash_scale a.
Proof.
  intros Ha Hab Hb. unfold squash_scale. cbv zeta.
  rewrite (py_fmod_half_cycle k a), (py_fmod_half_cycle k b) by lra.
  apply Rle_max_compat_l. apply abs_cos_falls; lra.
Qed.

Lemma squash_scale_rises (k : Z) a b :
  180 * IZR k + 90 <= a -> a <= b -> b < 180 * IZR k + 180 ->
  squash_scale a <= squash_scale b.
Proof.
  intros Ha Hab Hb. unfold squash_scale. cbv zeta.
  rewrite (py_fmod_half_cycle k a), (py_fmod_half_cycle k b) by lra.
  apply Rle_max_compat_l. apply abs_cos_rises; lra.
Qed.

(** [update] assigns none of the attributes [draw] takes its geometry
    from. *)
Lemma update_static t :
  target_flips (update t) = target_flips t
  /\ flip_surfaces (update t) = flip_surfaces t
  /\ flip_surfaces_soft (update t) = flip_surfaces_soft t.
Proof.
  unfold update, start_animation.
  repeat match goal with
         | |- context [if ?c then _ else _] => destruct c
         end; simpl; auto.
Qed.

Lemma shape_inv_update t : shape_inv t -> shape_inv (update t).
Proof.
  unfold shape_inv. destruct (update_static t) as (-> & -> & ->).
  now rewrite total_rotation_update.
Qed.

Lemma shape_inv_iter n t : shape_inv t -> shape_inv (iter_n n update t).
Proof.
  intros H. induction n as [|n IH]; simpl; [exact H|].
  now apply shape_inv_update.
Qed.

Lemma shape_inv_init edge_alpha img x y size delay edge rv d :
  valid_draws d ->
  shape_inv (init edge_alpha img x y size delay edge rv d).
Proof.
  intros [Hf _]. unfold shape_inv, init.
  cbn [target_flips total_rotation flip_surfaces flip_surfaces_soft].
  rewrite !Flip_tile_states.length_precompute_states. auto.
Qed.

(** C5: a tile that is animating and not yet complete is drawn scaled by
    [max(0.02, |cos(angle_in_flip)|)] along the flip axis only (the width
    for a horizontal flip, the height for a vertical one, at least one
    pixel); the factor is never below 0.02, and inside every half-cycle
    [180 k, 180 k + 180) it falls up to [180 k + 90] and rises after. *)
Theorem draw_squash_scale :
  forall edge_alpha img x y size delay edge rv d n soft,
    valid_draws d ->
    let t := iter_n n update
               (init edge_alpha img x y size delay edge rv d) in
    is_animating t = true ->
    is_complete t = false ->
    let scale :=
      Rmax (2 / 100) (Rabs (cos (radians (py_fmod (flip_angle t) 180)))) in
    let side := Z.max 1 (py_int (IZR (Flip_tile.size t) * scale)) in
    (exists b,
        draw t soft = Some b
        /\ blit_scaled_to b
           = Some (match flip_direction t with
                   | horizontal => (side, Flip_tile.size t)
                   | vertical => (Flip_tile.size t, side)
                   end))
    /\ scale = squash_scale (flip_angle t)
    /\ (forall a, 2 / 100 <= squash_scale a)
    /\ (forall (k : Z) a b,
          180 * IZR k <= a -> a <= b -> b <= 180 * IZR k + 90 ->
          squash_scale b <= squash_scale a)
    /\ (forall (k : Z) a b,
          180 * IZR k + 90 <= a -> a <= b -> b < 180 * IZR k + 180 ->
          squash_scale a <= squash_scale b).
Proof.
  intros ea img x0 y0 sz dl edge rv d n soft Hd t Han Hc scale side.
  assert (Hinv : angle_inv t) by (apply angle_inv_iter, angle_inv_init, Hd).
  assert (Hsh : shape_inv t) by (apply shape_inv_iter, shape_inv_init, Hd).
  split; [|split; [reflexivity|split; [exact squash_scale_min|split]]].
  - destruct Hinv as (_ & [Ha0 _] & _).
    destruct Hsh as (Hf & _ & Hl & Hls).
    unfold draw. rewrite Hc, Han. cbv zeta. simpl negb. cbv iota.
    set (surfaces := if soft then flip_surfaces_soft t else flip_surfaces t).
    assert (Hlen : length surfaces = S (Z.to_nat (target_flips t))).
    { subst surfaces. now destruct soft. }
    set (fi := Z.min (py_int (flip_angle t / 180))
                     (Z.of_nat (length (flip_surfaces t)) - 2)).
    assert (Hfi : (0 <= fi <= target_flips t - 1)%Z).
    { subst fi. rewrite Hl.
      assert (0 <= py_int (flip_angle t / 180))%Z
        by (apply py_int_nonneg; lra).
      lia. }
    assert (Hbase : exists base,
               (if Rlt_dec (py_fmod (flip_angle t) 180) 90
                then py_index surfaces fi
                else py_index surfaces (fi + 1)) = Some base).
    { destruct (Rlt_dec (py_fmod (flip_angle t) 180) 90);
        apply py_index_in_range; rewrite Hlen; lia. }
    destruct Hbase as [base ->].
    destruct (flip_direction t); eexists; split; reflexivity.
  - exact squash_scale_falls.
  - exact squash_scale_rises.
Qed.

Lemma draw_squash_scale_witness :
  let t := iter_n 1 update (Samples.tile false) in
  let scale :=
    Rmax (2 / 100) (Rabs (cos (radians (py_fmod (flip_angle t) 180)))) in
  let side := Z.max 1 (py_int (IZR (Flip_tile.size t) * scale)) in
  (exists b,
      draw t true = Some b
      /\ blit_scaled_to b
         = Some (match flip_direction t with
                 | horizontal => (side, Flip_tile.size t)
                 | vertical => (Flip_tile.size t, side)
                 end))
  /\ scale = squash_scale (flip_angle t)
  /\ (forall a, 2 / 100 <= squash_scale a)
  /\ (forall (k : Z) a b,
        180 * IZR k <= a -> a <= b -> b <= 180 * IZR k + 90 ->
        squash_scale b <= squash_scale a)
  /\ (forall (k : Z) a b,
        180 * IZR k + 90 <= a -> a <= b -> b < 180 * IZR k + 180 ->
        squash_scale a <= squash_scale b).
Proof.
  apply (draw_squash_scale Samples.no_falloff Samples.image
           0 0 2 0 0 false Samples.draws 1 true).
  - unfold valid_draws; simpl. split; [lia | lra].
  - destruct (update_running (Samples.tile false) eq_refl)
      as [[Hpos _] | (_ & _ & _ & _ & Han & _)];
      [simpl in Hpos; lia | exact Han].
  - destruct (update_running (Samples.tile false) eq_refl)
      as [[Hpos _] | (_ & _ & _ & _ & _ & [(Hge & _) | (_ & Hc & _)])].
    + simpl in Hpos; lia.
    + simpl in Hge. unfold Config.FLIP_SPEED in Hge. lra.
    + exact Hc.
Defined.

End Flip_tile_draw.

(** ** Eye gaze: the offset *)

Module Eyes_gaze.
Import Eyes.

(** The four terms of the Taylor bound [sin_lb]. *)
Lemma sin_lb_val a :
  sin_lb a = a - a ^ 3 / 6 + a ^ 5 / 120 - a ^ 7 / 5040.
Proof.
  unfold sin_lb, sin_approx, sin_term. cbn [sum_f_R0].
  change (2 * 0 + 1)%nat with 1%nat.
  change (2 * 1 + 1)%nat with 3%nat.
  change (2 * 2 + 1)%nat with 5%nat.
  change (2 * 3 + 1)%nat with 7%nat.
  rewrite !INR_IZR_INZ.
  change (Z.of_nat (fact 1)) with 1%Z.
  change (Z.of_nat (fact 3)) with 6%Z.
  change (Z.of_nat (fact 5)) with 120%Z.
  change (Z.of_nat (fact 7)) with 5040%Z.
  field.
Qed.

Lemma PI_bounds : 3 < PI <= 7 / 2.
Proof.
  split.
  - pose proof PI2_3_2. lra.
  - unfold PI. pose proof pi2_int. lra.
Qed.

Lemma sin_2_lower : 907 / 1000 <= sin 2.
Proof.
  pose proof PI_bounds as [Hlo Hhi].
  destruct (SIN 2) as [Hlb _]; [lra | lra |].
  rewrite sin_lb_val in Hlb. lra.
Qed.

Lemma sin_74_lower : 389 / 1000 <= sin (2 * (37 / 10)).
Proof.
  pose proof PI_bounds as [Hlo Hhi].
  replace (2 * (37 / 10)) with ((74 / 10 - 2 * PI) + 2 * INR 1 * PI)
    by (simpl; lra).
  rewrite sin_period.
  assert (Hmono : sin (4 / 10) <= sin (74 / 10 - 2 * PI))
    by (apply sin_incr_1; lra).
  destruct (SIN (4 / 10)) as [Hlb _]; [lra | lra |].
  rewrite sin_lb_val in Hlb. lra.
Qed.

(** The gaze components are sums of two sinusoids; nothing clamps them. *)
Lemma gaze_bound_by_amplitudes s t :
  0 <= IZR (max_shift s) ->
  Rabs (look_x s t) <= IZR (max_shift s) + 2
  /\ Rabs (look_y s t) <= IZR (max_shift s) * (5 / 10) + 1.
Proof.
  intros Hm. unfold look_x, look_y.
  pose proof (SIN_bound (t * look_speed s * 2)) as H1.
  pose proof (SIN_bound (t * (37 / 10))) as H2.
  pose proof (SIN_bound (t * look_speed s * (15 / 10) + 1)) as H3.
  pose proof (SIN_bound (t * (23 / 10))) as H4.
  split; apply Rabs_le; split; nra.
Qed.

Section Run.

Variable shift_pixels : Eye -> R -> R -> Image -> Image.

Local Abbreviation step := (update shift_pixels).

(** The pupil writes change the frame and nothing else. *)
Lemma shift_eyes_fields l lx ly s :
  let s' := fold_left
              (fun acc eye => shift_eye_pixels shift_pixels acc eye lx ly)
              l s in
  time s' = time s /\ is_complete s' = is_complete s
  /\ original s' = original s /\ eyes s' = eyes s
  /\ look_speed s' = look_speed s /\ max_shift s' = max_shift s
  /\ animation_duration s' = animation_duration s.
Proof.
  revert s. induction l as [|e l IH]; intros s; simpl.
  - auto 10.
  - destruct (IH (shift_eye_pixels shift_pixels s e lx ly))
      as (-> & -> & -> & -> & -> & -> & ->).
    simpl. auto 10.
Qed.

(** [update] by cases. *)
Lemma update_cases s :
  (is_complete s = true /\ step s = s)
  \/ (eyes s = [] /\ step s = s)
  \/ (is_complete s = false /\ eyes s <> []
      /\ time s + 1 / 60 >= animation_duration s
      /\ step s
         = set_current_surface
             (set_is_complete (set_time s (time s + 1 / 60)) true)
             (original s))
  \/ (is_complete s = false /\ eyes s <> []
      /\ time s + 1 / 60 < animation_duration s
      /\ time (step s) = time s + 1 / 60
      /\ is_complete (step s) = false
      /\ original (step s) = original s /\ eyes (step s) = eyes s
      /\ look_speed (step s) = look_speed s
      /\ max_shift (step s) = max_shift s
      /\ animation_duration (step s) = animation_duration s).
Proof.
  unfold update, Config.FPS.
  destruct (is_complete s) eqn:Hc; [left; auto|].
  destruct (eyes s) as [|e l] eqn:He; [right; left; auto|].
  simpl orb. cbv iota zeta.
  simpl (time (set_time _ _)). simpl (animation_duration (set_time _ _)).
  destruct (Rge_dec (time s + 1 / 60) (animation_duration s)) as [Hge|Hlt].
  - right; right; left. repeat split; auto. discriminate.
  - right; right; right.
    match goal with
    | |- context [fold_left ?f ?l ?a] =>
        destruct (shift_eyes_fields l
                    (look_x a (time a)) (look_y a (time a)) a)
          as (H1 & H2 & H3 & H4 & H5 & H6 & H7)
    end.
    cbv zeta in H1, H2, H3, H4, H5, H6, H7.
    rewrite H1, H2, H3, H4, H5, H6, H7. simpl. rewrite <- He.
    repeat split; auto; try lra; congruence.
Qed.

End Run.

End Eyes_gaze.

(** ** Eye gaze: the run of the effect *)

Lemma overlay_same_length {A} (src dst : list A) :
  length src = length dst -> overlay src dst = src.
Proof.
  intros H. unfold overlay.
  rewrite <- H, firstn_all, skipn_all2 by lia. apply app_nil_r.
Qed.

Lemma blit_origin_same_shape img screen :
  same_shape img screen -> blit_origin img screen = img.
Proof.
  induction 1 as [|r d img screen Hrd _ IH]; simpl; [reflexivity|].
  now rewrite overlay_same_length, IH.
Qed.

Module Eyes_run.
Import Eyes Eyes_inv Eyes_gaze.

Section Run.

Variable shift_pixels : Eye -> R -> R -> Image -> Image.
Variable image : Image.
Variables width height : Z.
Variable found : list Eye.

Local Abbreviation step := (update shift_pixels).
Local Abbreviation start := (init image width height found).
Local Abbreviation state n := (iter_n n step start).

Lemma static_step s : static s image found -> static (step s) image found.
Proof.
  unfold static. intros (Ho & He & Hl & Hm & Hd).
  destruct (update_cases shift_pixels s)
    as [[_ Heq] | [[_ Heq] | [(_ & _ & _ & Heq)
                             | (_ & _ & _ & _ & _ & Ho' & He' & Hl' & Hm' & Hd')]]].
  - rewrite Heq. auto.
  - rewrite Heq. auto.
  - rewrite Heq. simpl. auto.
  - rewrite Ho', He', Hl', Hm', Hd'. auto.
Qed.

Lemma static_state n : static (state n) image found.
Proof.
  induction n as [|n IH]; [unfold static; simpl; auto 10|].
  apply static_step, IH.
Qed.

Lemma settled_step s :
  static s image found -> settled s image -> settled (step s) image.
Proof.
  intros (Ho & _ & _ & _ & Hd) [Hdone Hrun]. unfold settled.
  destruct (update_cases shift_pixels s)
    as [[Hc Heq] | [[_ Heq] | [(_ & _ & _ & Heq)
                             | (_ & _ & Hlt & Ht' & Hc' & _ & _ & _ & _ & Hd')]]].
  - rewrite Heq. auto.
  - rewrite Heq. auto.
  - rewrite Heq. simpl. split; [auto | discriminate].
  - rewrite Hc', Ht', Hd'. split; [discriminate | intros _; lra].
Qed.

Lemma settled_state n : settled (state n) image.
Proof.
  induction n as [|n IH].
  - unfold settled. simpl. split; [discriminate | intros _; lra].
  - apply settled_step; [apply static_state | exact IH].
Qed.

Lemma complete_fixed s m : is_complete s = true -> iter_n m step s = s.
Proof.
  intros Hc. induction m as [|m IH]; simpl; [reflexivity|].
  rewrite IH. unfold step, update. now rewrite Hc.
Qed.

Hypothesis some_eye : found <> [].

(** Before the duration has elapsed the clock is the tick count over 60
    and the effect is running. *)
Lemma state_before_end n :
  (n < 600)%nat ->
  is_complete (state n) = false /\ time (state n) = IZR (Z.of_nat n) / 60.
Proof.
  induction n as [|n IH]; intros Hn.
  - simpl. split; [reflexivity | lra].
  - destruct IH as [Hc Ht]; [lia|].
    pose proof (static_state n) as (_ & He & _ & _ & Hd).
    assert (Hlt : IZR (Z.of_nat n) / 60 + 1 / 60 < 10).
    { assert (H : (Z.of_nat n <= 598)%Z) by lia.
      apply IZR_le in H. lra. }
    cbn [iter_n].
    destruct (update_cases shift_pixels (state n))
      as [[Hc' _] | [[He' _] | [(_ & _ & Hge & _)
                               | (_ & _ & _ & Ht' & Hc' & _)]]].
    + congruence.
    + congruence.
    + rewrite Ht, Hd in Hge. lra.
    + split; [exact Hc'|]. rewrite Ht', Ht, Nat2Z.inj_succ, succ_IZR. lra.
Qed.

Lemma state_at_end n : n = 599%nat -> is_complete (state (S n)) = true.
Proof.
  intros Hn.
  destruct (state_before_end n) as [Hc Ht]; [lia|].
  pose proof (static_state n) as (_ & He & _ & _ & Hd).
  assert (Hn' : IZR (Z.of_nat n) = 599) by (subst n; reflexivity).
  cbn [iter_n].
  destruct (update_cases shift_pixels (state n))
    as [[Hc' _] | [[He' _] | [(_ & _ & _ & Heq)
                             | (_ & _ & Hlt & _)]]].
  - congruence.
  - congruence.
  - rewrite Heq. reflexivity.
  - rewrite Ht, Hd, Hn' in Hlt. lra.
Qed.

Lemma state_after_end n : (600 <= n)%nat -> is_complete (state n) = true.
Proof.
  intros Hn.
  destruct (Nat.le_exists_sub 600 n Hn) as (k & -> & _).
  rewrite iter_n_add.
  rewrite complete_fixed; apply (state_at_end 599 eq_refl).
Qed.

End Run.

(** C1, as stated, fails: at the tick that brings the clock of the sample
    effect to 2 seconds the effect is still running and the horizontal
    gaze offset is above [max_shift = 8]. *)
Lemma gaze_exceeds_max_shift :
  let s := iter_n 120 (update Samples.no_shift) Samples.eye_effect in
  is_complete s = false
  /\ time s = 2
  /\ 0 <= time s < animation_duration s
  /\ max_shift s = 8%Z
  /\ ~ Rabs (look_x s (time s)) <= 8.
Proof.
  assert (Hne : [Samples.eye] <> []) by discriminate.
  destruct (state_before_end Samples.no_shift Samples.image 2 2
              [Samples.eye] Hne 120) as [Hc Ht]; [lia|].
  destruct (static_state Samples.no_shift Samples.image 2 2 [Samples.eye] 120)
    as (_ & _ & Hl & Hm & Hd).
  change (Z.of_nat 120) with 120%Z in Ht.
  cbv zeta. unfold Samples.eye_effect.
  set (s := iter_n 120 (update Samples.no_shift)
              (init Samples.image 2 2 [Samples.eye])) in *.
  assert (Ht2 : time s = 2) by (rewrite Ht; lra).
  split; [exact Hc|]. split; [exact Ht2|].
  split; [rewrite Ht2, Hd; lra|]. split; [exact Hm|].
  rewrite Ht2. unfold look_x. rewrite Hl, Hm.
  replace (2 * (5 / 10) * 2) with 2 by lra.
  pose proof sin_2_lower. pose proof sin_74_lower.
  intros Habs.
  assert (Hle : sin 2 * 8 + sin (2 * (37 / 10)) * 2 <= 8).
  { eapply Rle_trans; [apply Rle_abs | exact Habs]. }
  lra.
Qed.

(** C1, amended: at every tick of every eye effect, and for every time,
    the horizontal offset is within [max_shift + 2 = 10] and the vertical
    one within [max_shift / 2 + 1 = 5]; the offsets are not clamped to
    [max_shift]. *)
Theorem gaze_within_amplitudes :
  forall shift_pixels image width height found n t,
    let s := iter_n n (update shift_pixels)
               (init image width height found) in
    max_shift s = 8%Z
    /\ Rabs (look_x s t) <= 10
    /\ Rabs (look_y s t) <= 5.
Proof.
  intros sp img w h found n t s.
  destruct (static_state sp img w h found n) as (_ & _ & _ & Hm & _).
  fold s in Hm.
  destruct (gaze_bound_by_amplitudes s t) as [Hx Hy];
    rewrite Hm in *; [lra|].
  split; [reflexivity|]. split; lra.
Qed.

(** C8: an eye effect with at least one eye is complete from the tick at
    which its clock reaches [animation_duration = 10] on (tick 600 of
    1/60 s); a complete effect holds the untouched image, every further
    [update] leaves it exactly as it is, and [draw] puts the untouched
    image on the screen. *)
Theorem eye_effect_settles :
  forall shift_pixels image width height found n,
    found <> [] ->
    let step := update shift_pixels in
    let s := iter_n n step (init image width height found) in
    animation_duration s = 10
    /\ (animation_duration s <= time s -> is_complete s = true)
    /\ ((600 <= n)%nat -> is_complete s = true)
    /\ (is_complete s = true ->
        current_surface s = image
        /\ forall m screen,
            iter_n m step s = s
            /\ draw (iter_n m step s) screen = blit_origin image screen
            /\ (same_shape image screen ->
                draw (iter_n m step s) screen = image)).
Proof.
  intros sp img w h found n Hne step s.
  destruct (static_state sp img w h found n) as (_ & _ & _ & _ & Hd).
  destruct (settled_state sp img w h found n) as [Hdone Hrun].
  change (iter_n n (update sp) (init img w h found)) with s
    in Hd, Hdone, Hrun.
  split; [exact Hd|]. split; [|split].
  - intros Hreach. destruct (is_complete s) eqn:Hc; [reflexivity|].
    specialize (Hrun eq_refl). lra.
  - intros Hn. now apply state_after_end.
  - intros Hc. split; [now apply Hdone|].
    intros m screen. subst step. rewrite complete_fixed by exact Hc.
    unfold draw. rewrite (Hdone Hc).
    split; [reflexivity|]. split; [reflexivity|].
    apply blit_origin_same_shape.
Qed.

Lemma eye_effect_settles_witness :
  let step := update Samples.no_shift in
  let s := iter_n 600 step Samples.eye_effect in
  animation_duration s = 10
  /\ (animation_duration s <= time s -> is_complete s = true)
  /\ ((600 <= 600)%nat -> is_complete s = true)
  /\ (is_complete s = true ->
      current_surface s = Samples.image
      /\ forall m screen,
          iter_n m step s = s
          /\ draw (iter_n m step s) screen = blit_origin Samples.image screen
          /\ (same_shape Samples.image screen ->
              draw (iter_n m step s) screen = Samples.image)).
Proof.
  apply (eye_effect_settles Samples.no_shift Samples.image 2 2
           [Samples.eye] 600).
  discriminate.
Defined.

End Eyes_run.

(** ** Region synthesis: the composite mask *)

Module Hidden_mask.
Import Hidden Hidden_spec.

Section Mask.

Variable cv : OpenCV.
Variables height width : Z.

Local Abbreviation mask_step :=
  (fun (mask : Mask) (region : Region) =>
     if (3 <=? Z.of_nat (length (polygon region)))%Z
     then fill_poly cv height width mask (polygon region)
     else rectangle height width mask
                    (x region) (y region) (w region) (h region)).

Lemma mask_step_covers mask region row col :
  mask_step mask region row col
  = if (in_bounds height width row col
        && region_covers cv region row col)%bool
    then 255%Z else mask row col.
Proof.
  unfold region_covers, fill_poly, rectangle.
  now destruct (3 <=? Z.of_nat (length (polygon region)))%Z.
Qed.

Lemma fold_mask_covers rs mask row col :
  fold_left mask_step rs mask row col
  = if (in_bounds height width row col
        && existsb (fun region => region_covers cv region row col) rs)%bool
    then 255%Z else mask row col.
Proof.
  revert mask. induction rs as [|region rs IH]; intros mask.
  - simpl. now rewrite andb_false_r.
  - cbn [fold_left existsb]. rewrite IH, mask_step_covers.
    destruct (in_bounds height width row col); simpl; [|reflexivity].
    destruct (region_covers cv region row col); simpl; [|reflexivity].
    now destruct (existsb _ rs).
Qed.

(** The composite mask, pixel by pixel. *)
Lemma build_mask_covers rs row col :
  build_mask cv height width rs row col
  = if (in_bounds height width row col
        && existsb (fun region => region_covers cv region row col) rs)%bool
    then 255%Z else 0%Z.
Proof. unfold build_mask. now rewrite fold_mask_covers. Qed.

End Mask.

(** C7: the composite mask is 255 or 0 everywhere, and it is 255 exactly
    on the screen pixels of the union of the regions' shapes: for a region
    whose polygon has at least 3 points what [cv2.fillPoly] paints for the
    polygon, for any other region its rectangle from (x, y) to
    (x + w, y + h), the polygon being left aside. *)
Theorem composite_mask_is_union :
  forall cv height width rs row col,
    (build_mask cv height width rs row col = 255%Z
     \/ build_mask cv height width rs row col = 0%Z)
    /\ (build_mask cv height width rs row col = 255%Z <->
        in_bounds height width row col = true
        /\ exists region,
            In region rs
            /\ (((3 <= Z.of_nat (length (polygon region)))%Z
                 /\ poly_covers cv (polygon region) row col = true)
                \/ ((Z.of_nat (length (polygon region)) < 3)%Z
                    /\ rect_covers (x region) (y region)
                                   (w region) (h region) row col = true))).
Proof.
  intros cv height width rs row col.
  rewrite build_mask_covers.
  destruct (in_bounds height width row col) eqn:Hb; simpl.
  - destruct (existsb _ rs) eqn:Hex.
    + split; [now left|]. split; [intros _|reflexivity].
      split; [reflexivity|].
      apply existsb_exists in Hex. destruct Hex as (region & Hin & Hcov).
      exists region. split; [exact Hin|].
      unfold region_covers in Hcov.
      destruct (3 <=? Z.of_nat (length (polygon region)))%Z eqn:Hlen;
        [left | right]; split; auto; lia.
    + split; [now right|]. split; [discriminate|].
      intros (_ & region & Hin & Hcov). exfalso.
      assert (Hex' : existsb (fun r => region_covers cv r row col) rs = true).
      { apply existsb_exists. exists region. split; [exact Hin|].
        unfold region_covers.
        destruct Hcov as [[Hlen Hp] | [Hlen Hr]].
        - destruct (3 <=? Z.of_nat (length (polygon region)))%Z eqn:E;
            [exact Hp | lia].
        - destruct (3 <=? Z.of_nat (length (polygon region)))%Z eqn:E;
            [lia | exact Hr]. }
      congruence.
  - split; [now right|]. split; [discriminate|].
    intros [Hfalse _]. discriminate.
Qed.

End Hidden_mask.

(** ** Region synthesis: construction without OpenCV and without regions *)

Module Hidden_init.
Import Hidden.

Lemma process_regions_fields data s :
  let s' := process_regions s data in
  original s' = original s /\ current_surface s' = current_surface s
  /\ hidden_surface s' = hidden_surface s /\ time s' = time s
  /\ is_complete s' = is_complete s
  /\ length (regions s') = (length (regions s) + length data)%nat.
Proof.
  revert s. induction data as [|region data IH]; intros s; simpl.
  - repeat split; auto.
  - destruct (IH (set_regions s
                    (regions s ++
                     [{| polygon := get_default (rd_polygon region) [];
                         source_polygon := rd_source_polygon region;
                         x := rd_x region; y := rd_y region;
                         w := rd_w region; h := rd_h region;
                         source_x := get_default (rd_source_x region) 0%Z;
                         source_y := get_default (rd_source_y region) 0%Z;
                         source_w := get_default (rd_source_w region) 0%Z;
                         source_h := get_default (rd_source_h region) 0%Z |}])))
      as (-> & -> & -> & -> & -> & ->).
    simpl. rewrite length_app. simpl. repeat split; auto. lia.
Qed.

(** C6, as stated, fails: built without region data and without OpenCV,
    the effect has no hidden surface at all. *)
Lemma no_cv2_no_regions_no_hidden_surface :
  hidden_surface (init Samples.no_cv2 Samples.image 2 2 None)
  <> Some Samples.image.
Proof. simpl. discriminate. Qed.

(** C6, amended: when neither import of OpenCV succeeds and the effect is
    built with at least one region, construction yields an effect whose
    hidden surface is the original image, unchanged, with the frame on the
    original and the clock at 0. *)
Theorem no_cv2_hidden_is_original :
  forall env image width height polygon_data,
    import_cv2 env = None ->
    import_cv2_after_install env = None ->
    truthy polygon_data = true ->
    let s := init env image width height polygon_data in
    hidden_surface s = Some image
    /\ original s = image
    /\ current_surface s = image
    /\ is_complete s = false
    /\ time s = 0
    /\ length (regions s) = length (get_default polygon_data []).
Proof.
  intros env img wd ht data H1 H2 Ht s. subst s.
  unfold init. rewrite Ht. unfold apply_inpainting. rewrite H1, H2.
  match goal with
  | |- context [process_regions ?s0 ?d] =>
      destruct (process_regions_fields d s0) as (Ho & Hcs & _ & Htm & Hc & Hl)
  end.
  cbv zeta in Ho, Hcs, Htm, Hc, Hl. simpl in Ho, Hcs, Htm, Hc, Hl.
  simpl. rewrite Ho, Hcs, Htm, Hc, Hl. auto 10.
Qed.

Lemma no_cv2_hidden_is_original_witness :
  let s := init Samples.no_cv2 Samples.wide_image 8 4
             (Some [{| rd_polygon := Some [(1, 1); (3, 1); (3, 3)]%Z;
                       rd_source_polygon := None;
                       rd_x := 1; rd_y := 1; rd_w := 2; rd_h := 2;
                       rd_source_x := None; rd_source_y := None;
                       rd_source_w := None; rd_source_h := None |}]) in
  hidden_surface s = Some Samples.wide_image
  /\ original s = Samples.wide_image
  /\ current_surface s = Samples.wide_image
  /\ is_complete s = false
  /\ time s = 0
  /\ length (regions s) = 1%nat.
Proof.
  apply (no_cv2_hidden_is_original Samples.no_cv2 Samples.wide_image 8 4
           (Some [{| rd_polygon := Some [(1, 1); (3, 1); (3, 3)]%Z;
                     rd_source_polygon := None;
                     rd_x := 1; rd_y := 1; rd_w := 2; rd_h := 2;
                     rd_source_x := None; rd_source_y := None;
                     rd_source_w := None; rd_source_h := None |}]));
    reflexivity.
Defined.

(** C10: an effect built without region data ([None] or the empty list)
    has no hidden surface; every [update] leaves it exactly as it was
    built, so its clock stays at 0, it is never complete, and [draw] puts
    the original image on the screen. *)
Theorem no_regions_never_completes :
  forall env alpha_blit image width height polygon_data n,
    polygon_data = None \/ polygon_data = Some [] ->
    let s0 := init env image width height polygon_data in
    let s := iter_n n (update alpha_blit) s0 in
    hidden_surface s0 = None
    /\ s = s0
    /\ time s = 0
    /\ is_complete s = false
    /\ current_surface s = image
    /\ (forall screen, draw s screen = blit_origin image screen)
    /\ (forall screen, same_shape image screen -> draw s screen = image).
Proof.
  intros env ab img wd ht data n Hdata s0 s.
  assert (Hs0 : s0 = {| screen_width := wd; screen_height := ht;
                        original := img; current_surface := img;
                        hidden_surface := None; time := 0;
                        is_complete := false; regions := [];
                        reveal_duration := 2; hold_duration := 8;
                        animation_duration := 2 + 8 |}).
  { subst s0. now destruct Hdata as [-> | ->]. }
  assert (Hs : s = s0).
  { subst s. induction n as [|n IH]; simpl; [reflexivity|].
    rewrite IH, Hs0. reflexivity. }
  rewrite Hs, Hs0. unfold draw. simpl.
  repeat split; auto. apply blit_origin_same_shape.
Qed.

Lemma no_regions_never_completes_witness :
  let s0 := init Samples.no_cv2 Samples.image 2 2 None in
  let s := iter_n 5 (update (fun _ hidden _ => hidden)) s0 in
  hidden_surface s0 = None
  /\ s = s0
  /\ time s = 0
  /\ is_complete s = false
  /\ current_surface s = Samples.image
  /\ (forall screen, draw s screen = blit_origin Samples.image screen)
  /\ (forall screen, same_shape Samples.image screen ->
                     draw s screen = Samples.image).
Proof.
  apply (no_regions_never_completes Samples.no_cv2 (fun _ hidden _ => hidden)
           Samples.image 2 2 None 5).
  left. reflexivity.
Defined.

End Hidden_init.

(** ** Region synthesis: cloning and the inpainting pass *)

Module Hidden_clone.
Import Hidden Hidden_spec Hidden_mask.

Section Clone.

Variable cv : OpenCV.
Variables height width : Z.

Local Abbreviation region_mask_of region :=
  (fill_poly cv height width zeros (polygon region)).
Local Abbreviation mask_of rs := (build_mask cv height width rs).

(** The mask of a region with a polygon lies inside the composite mask. *)
Lemma region_mask_in_composite rs region row col :
  In region rs ->
  (3 <=? Z.of_nat (length (polygon region)))%Z = true ->
  (0 < region_mask_of region row col)%Z ->
  mask_of rs row col = 255%Z.
Proof.
  intros Hin Hlen Hpos. rewrite build_mask_covers.
  unfold fill_poly, zeros in Hpos.
  destruct (in_bounds height width row col) eqn:Hb; simpl in *; [|lia].
  destruct (poly_covers cv (polygon region) row col) eqn:Hp; [|lia].
  assert (Hex : existsb (fun r => region_covers cv r row col) rs = true).
  { apply existsb_exists. exists region. unfold region_covers.
    now rewrite Hlen. }
  now rewrite Hex.
Qed.

Lemma region_mask_outside rs region row col :
  In region rs ->
  (3 <=? Z.of_nat (length (polygon region)))%Z = true ->
  mask_of rs row col = 0%Z ->
  (region_mask_of region row col >? 0)%Z = false.
Proof.
  intros Hin Hlen Hzero.
  destruct (region_mask_of region row col >? 0)%Z eqn:E; [|reflexivity].
  rewrite (region_mask_in_composite rs region row col Hin Hlen) in Hzero
    by lia.
  discriminate.
Qed.

(** One pass of the second loop writes inside the composite mask only. *)
Lemma process_region_outside rs orig result region row col :
  In region rs ->
  mask_of rs row col = 0%Z ->
  process_region cv height width orig result region row col = result row col.
Proof.
  intros Hin Hzero. unfold process_region.
  destruct (Z.of_nat (length (polygon region)) <? 3)%Z eqn:Hlt;
    [reflexivity|].
  assert (Hlen : (3 <=? Z.of_nat (length (polygon region)))%Z = true) by lia.
  pose proof (region_mask_outside rs region row col Hin Hlen Hzero) as Hout.
  destruct (is_clone region).
  - unfold clone_region.
    destruct ((source_w region >? 0) && (source_h region >? 0)
              && (w region >? 0) && (h region >? 0))%Z; [|reflexivity].
    cbv zeta. rewrite Hout.
    now rewrite andb_false_r.
  - unfold prefill_region. cbv zeta.
    destruct (mask_any height width _); [|reflexivity].
    rewrite Hout. now rewrite andb_false_r.
Qed.

Lemma second_loop_outside rs orig l result row col :
  incl l rs ->
  mask_of rs row col = 0%Z ->
  fold_left (process_region cv height width orig) l result row col
  = result row col.
Proof.
  revert result. induction l as [|region l IH]; intros result Hincl Hzero.
  - reflexivity.
  - cbn [fold_left]. rewrite IH; [|now apply incl_cons_inv in Hincl|exact Hzero].
    apply (process_region_outside rs); [|exact Hzero].
    apply Hincl. now left.
Qed.

Lemma mask_of_values rs row col :
  mask_of rs row col = 0%Z \/ mask_of rs row col = 255%Z.
Proof.
  rewrite build_mask_covers.
  destruct (_ && _)%bool; auto.
Qed.

End Clone.

Lemma fold_max_ge l a : (a <= fold_left Z.max l a)%Z.
Proof.
  revert a. induction l as [|b l IH]; intros a; simpl; [lia|].
  specialize (IH (Z.max a b)). lia.
Qed.

Lemma box_cv_dilate_extensive : dilate_extensive Samples.box_cv.
Proof.
  intros k n m row col Hpos. simpl. unfold Samples.max3x3.
  eapply Z.lt_le_trans; [exact Hpos | apply fold_max_ge].
Qed.

Lemma box_cv_inpaint_from_known height width :
  inpaint_from_known Samples.box_cv height width.
Proof.
  intros img img' mask _ Hagree. simpl.
  extensionality row. extensionality col. unfold Samples.grey_inpaint.
  destruct (mask row col =? 0)%Z eqn:E; [|reflexivity].
  apply Hagree. lia.
Qed.

(** Evidence for C2, where the code departs from the claim: every pixel
    the clone branch writes lies in the mask handed to [cv2.inpaint], and
    as [cv2.inpaint] rebuilds the pixels of its mask from the pixels
    outside it, the final composite is the one obtained from the original
    image with the cloning and pre-fill loop left out: no pixel of it
    takes its colour from the resized source crop. *)
Theorem clone_overwritten_by_inpaint :
  forall cv height width img rs,
    dilate_extensive cv ->
    inpaint_from_known cv height width ->
    (exists row col,
        in_bounds height width row col = true
        /\ dilate cv 3 1 (build_mask cv height width rs) row col = 0%Z) ->
    (forall region row col,
        In region rs ->
        (3 <= Z.of_nat (length (polygon region)))%Z ->
        (0 < fill_poly cv height width zeros (polygon region) row col)%Z ->
        (0 < dilate cv 3 1 (build_mask cv height width rs) row col)%Z)
    /\ composite cv height width img rs
       = finish cv (to_cv img) (to_cv img) (build_mask cv height width rs).
Proof.
  intros cv height width img rs Hdil Hinp Hknown. split.
  - intros region row col Hin Hlen Hpos. apply Hdil.
    rewrite (region_mask_in_composite cv height width rs region row col);
      [lia | exact Hin | lia | exact Hpos].
  - unfold composite, finish, cloned_and_prefilled. cbv zeta.
    rewrite (Hinp (fold_left (process_region cv height width (to_cv img))
                             rs (to_cv img))
                  (to_cv img)
                  (dilate cv 3 1 (build_mask cv height width rs)) Hknown);
      [reflexivity|].
    intros row col Hzero.
    apply (second_loop_outside cv height width rs); [apply incl_refl|].
    destruct (mask_of_values cv height width rs row col) as [H0 | H255];
      [exact H0|].
    assert (Hpos : (0 < dilate cv 3 1 (build_mask cv height width rs) row col)%Z)
      by (apply Hdil; lia).
    lia.
Qed.

Lemma clone_overwritten_by_inpaint_witness :
  (forall region row col,
      In region [Samples.clone_region] ->
      (3 <= Z.of_nat (length (polygon region)))%Z ->
      (0 < fill_poly Samples.box_cv 4 8 zeros (polygon region) row col)%Z ->
      (0 < dilate Samples.box_cv 3 1
             (build_mask Samples.box_cv 4 8 [Samples.clone_region])
             row col)%Z)
  /\ composite Samples.box_cv 4 8 Samples.wide_image [Samples.clone_region]
     = finish Samples.box_cv (to_cv Samples.wide_image)
              (to_cv Samples.wide_image)
              (build_mask Samples.box_cv 4 8 [Samples.clone_region]).
Proof.
  apply (clone_overwritten_by_inpaint Samples.box_cv 4 8 Samples.wide_image
           [Samples.clone_region]
           box_cv_dilate_extensive (box_cv_inpaint_from_known 4 8)).
  exists 0%Z, 7%Z. split; reflexivity.
Defined.

Lemma py_int_IZR (z : Z) : py_int (IZR z) = z.
Proof.
  unfold py_int. destruct (Rle_dec 0 (IZR z)) as [Hle | Hgt].
  - symmetry. apply Int_part_spec. lra.
  - rewrite <- opp_IZR.
    rewrite <- (Int_part_spec (IZR (- z)) (- z)); [lia | lra].
Qed.

(** The sample clone region under the stand-in OpenCV: the clone branch
    does copy the source pixel (1, 5) to the target pixel (1, 1), that
    pixel is in the inpainting mask, the inpainting pass replaces it, and
    the final composite shows the inpainted colour there, not the source
    colour. *)
Lemma clone_sample_pixel :
  let orig := to_cv Samples.wide_image in
  let rs := [Samples.clone_region] in
  let cloned := cloned_and_prefilled Samples.box_cv 4 8 orig rs in
  let mask_inpaint := dilate Samples.box_cv 3 1
                        (build_mask Samples.box_cv 4 8 rs) in
  is_clone Samples.clone_region = true
  /\ orig 1%Z 1%Z = (0, 0, 11)%Z
  /\ orig 1%Z 5%Z = (0, 0, 15)%Z
  /\ cloned 1%Z 1%Z = (0, 0, 15)%Z
  /\ mask_inpaint 1%Z 1%Z = 255%Z
  /\ inpaint Samples.box_cv cloned mask_inpaint 1%Z 1%Z = (128, 128, 128)%Z
  /\ composite Samples.box_cv 4 8 Samples.wide_image rs 1%Z 1%Z
     = (128, 128, 128)%Z.
Proof.
  cbv zeta. repeat split; try reflexivity.
  unfold composite, finish. cbv zeta. unfold feather_blend.
  change (bilateral_filter Samples.box_cv ?f 1%Z 1%Z) with (f 1%Z 1%Z).
  change (gaussian_blur Samples.box_cv ?m 1%Z 1%Z) with (IZR (m 1%Z 1%Z)).
  assert (Hin : inpaint Samples.box_cv
                  (cloned_and_prefilled Samples.box_cv 4 8
                     (to_cv Samples.wide_image) [Samples.clone_region])
                  (dilate Samples.box_cv 3 1
                     (build_mask Samples.box_cv 4 8 [Samples.clone_region]))
                  1%Z 1%Z = (128, 128, 128)%Z) by reflexivity.
  rewrite Hin.
  assert (Ho : to_cv Samples.wide_image 1%Z 1%Z = (0, 0, 11)%Z)
    by reflexivity.
  rewrite Ho.
  assert (Hm : build_mask Samples.box_cv 4 8 [Samples.clone_region] 1%Z 1%Z
               = 255%Z) by reflexivity.
  rewrite Hm.
  replace (128 * (255 / 255) + 0 * (1 - 255 / 255)) with (IZR 128) by lra.
  replace (128 * (255 / 255) + 11 * (1 - 255 / 255)) with (IZR 128) by lra.
  unfold to_uint8. rewrite py_int_IZR. reflexivity.
Qed.

End Hidden_clone.

(** ** Flip tiles: the idle phase, the cut line, the end of the run *)

Module Flip_tile_more.
Import Flip_tile Flip_tile_inv Flip_tile_run Flip_tile_termination.
Import Flip_tile_lines.

Lemma hd_precompute_states orig rv flips dir px py :
  (1 <= flips)%Z ->
  hd [] (precompute_states orig rv flips dir px py)
  = if rv then orig else scrambled_start orig px py.
Proof.
  intros Hf. destruct rv.
  - now apply Flip_tile_states.precompute_reverse.
  - unfold precompute_states.
    destruct (Z.to_nat flips) as [|n] eqn:E; [lia|]. reflexivity.
Qed.

Lemma py_index_0 {A} (l : list A) (d : A) :
  l <> [] -> py_index l 0 = Some (hd d l).
Proof. destruct l; [congruence | reflexivity]. Qed.

(** X1: for the first [delay] updates a tile does not move: it is neither
    animating nor complete, its angle is 0, its cut line is as built, the
    delay counts down by one per update, and [draw] shows the first state
    unscaled at the tile's position: the scrambled start for a forward
    tile, the untouched bitmap for a reversed one. *)
Theorem tile_idle_during_delay :
  forall edge_alpha img x y size delay edge rv d n (soft : bool),
    valid_draws d ->
    (Z.of_nat n <= delay)%Z ->
    let t0 := init edge_alpha img x y size delay edge rv d in
    let t := iter_n n update t0 in
    let shown := if soft then original_soft t0 else original_surface t0 in
    t = set_current_delay t0 (delay - Z.of_nat n)
    /\ is_animating t = false /\ is_complete t = false
    /\ flip_angle t = 0
    /\ line_alpha t = (if rv then 0 else 255)%Z
    /\ draw t soft
       = Some {| blit_surface :=
                   if rv then shown
                   else scrambled_start shown (d_pre_flip_x d)
                                        (d_pre_flip_y d);
                 blit_scaled_to := None;
                 blit_dest := (x, y) |}.
Proof.
  intros ea img x0 y0 sz dl edge rv d n soft [Hf _] Hn t0 t shown.
  assert (Heq : t = set_current_delay t0 (dl - Z.of_nat n)).
  { subst t. rewrite delay_phase; try reflexivity. exact Hn. }
  rewrite Heq. split; [reflexivity|].
  repeat split; try reflexivity.
  - simpl. now destruct rv.
  - unfold draw. simpl is_complete. simpl is_animating. cbv iota. simpl negb.
    cbv iota. subst shown.
    destruct soft; simpl;
      rewrite (py_index_0 _ ([] : Surface))
        by (intros E; apply (f_equal (@length Surface)) in E;
            rewrite Flip_tile_states.length_precompute_states in E;
            discriminate);
      rewrite hd_precompute_states by lia; reflexivity.
Qed.

Lemma tile_idle_during_delay_witness :
  let t0 := init Samples.no_falloff Samples.image 0 0 2 3 0 true
                 Samples.draws in
  let t := iter_n 2 update t0 in
  let shown := original_soft t0 in
  t = set_current_delay t0 (3 - Z.of_nat 2)
  /\ is_animating t = false /\ is_complete t = false
  /\ flip_angle t = 0
  /\ line_alpha t = 0%Z
  /\ draw t true
     = Some {| blit_surface := shown;
               blit_scaled_to := None;
               blit_dest := (0, 0)%Z |}.
Proof.
  apply (tile_idle_during_delay Samples.no_falloff Samples.image 0 0 2 3 0
           true Samples.draws 2 true).
  - unfold valid_draws; simpl. split; [lia | lra].
  - simpl. lia.
Defined.

(** [update] assigns none of the attributes given to [__init__]. *)
Lemma update_keeps t :
  reverse (update t) = reverse t /\ Flip_tile.size (update t) = Flip_tile.size t
  /\ Flip_tile.x (update t) = Flip_tile.x t
  /\ Flip_tile.y (update t) = Flip_tile.y t
  /\ flip_direction (update t) = flip_direction t
  /\ final_surface (update t) = final_surface t.
Proof.
  unfold update, start_animation.
  repeat match goal with
         | |- context [if ?c then _ else _] => destruct c eqn:?
         end; simpl; repeat split; congruence.
Qed.

Lemma iter_keeps n t :
  let s := iter_n n update t in
  reverse s = reverse t /\ Flip_tile.size s = Flip_tile.size t
  /\ Flip_tile.x s = Flip_tile.x t /\ Flip_tile.y s = Flip_tile.y t
  /\ flip_direction s = flip_direction t
  /\ final_surface s = final_surface t.
Proof.
  induction n as [|n IH]; simpl; [auto 10|].
  destruct (update_keeps (iter_n n update t)) as (-> & -> & -> & -> & -> & ->).
  exact IH.
Qed.

Lemma line_inv_update t : line_inv t -> line_inv (update t).
Proof.
  unfold line_inv, update, start_animation, LINE_FADE_SPEED. intros H.
  repeat match goal with
         | |- context [if ?c then _ else _] => destruct c
         end; simpl; lia.
Qed.

Lemma line_inv_iter n t : line_inv t -> line_inv (iter_n n update t).
Proof.
  intros H. induction n as [|n IH]; simpl; [exact H|].
  now apply line_inv_update.
Qed.

Lemma line_inv_init edge_alpha img x y size delay edge rv d :
  line_inv (init edge_alpha img x y size delay edge rv d).
Proof. unfold line_inv. simpl. destruct rv; simpl; lia. Qed.

(** The cut line of a tile that is not complete changes by the fade-in of
    a reversed, animating tile only. *)
Lemma update_running_line t :
  is_complete t = false -> line_alpha (update t) = line_alpha (faded t).
Proof.
  intros Hc. unfold update. rewrite Hc. fold (faded t). cbv zeta.
  unfold start_animation.
  repeat match goal with
         | |- context [if ?c then _ else _] => destruct c
         end; reflexivity.
Qed.

(** The direction of the fade: down for a forward tile, up for a
    reversed one. *)
Lemma line_alpha_direction t :
  line_inv t ->
  if reverse t then (line_alpha t <= line_alpha (update t))%Z
  else (line_alpha (update t) <= line_alpha t)%Z.
Proof.
  unfold line_inv. intros H.
  destruct (is_complete t) eqn:Hc.
  - unfold update, LINE_FADE_SPEED. rewrite Hc.
    destruct (reverse t);
      [destruct (line_alpha t <? 255)%Z eqn:E
      | destruct (line_alpha t >? 0)%Z eqn:E]; simpl; lia.
  - rewrite (update_running_line t Hc). unfold faded, LINE_FADE_SPEED.
    destruct (reverse t); simpl; [|lia].
    destruct (is_animating t); simpl; [|lia].
    destruct (line_alpha t <? 255)%Z eqn:E; simpl; lia.
Qed.

(** A forward tile keeps its cut line fully opaque until it is complete;
    a reversed tile keeps it transparent until it animates. *)
Lemma line_alpha_waits n edge_alpha img x y size delay edge rv d :
  let t := iter_n n update (init edge_alpha img x y size delay edge rv d) in
  (rv = false -> is_complete t = false -> line_alpha t = 255%Z)
  /\ (rv = true -> is_animating t = false -> line_alpha t = 0%Z).
Proof.
  induction n as [|n [IHf IHr]].
  - simpl. split; intros ->; reflexivity.
  - cbn [iter_n]. cbv zeta.
    set (s := iter_n n update (init edge_alpha img x y size delay edge rv d))
      in *.
    assert (Hrev : reverse s = rv).
    { subst s. destruct (iter_keeps n
                (init edge_alpha img x y size delay edge rv d)) as [-> _].
      reflexivity. }
    destruct (is_complete s) eqn:Hc.
    + destruct (update_complete s Hc) as [_ Hc']. split.
      * intros _ Hn. congruence.
      * intros -> Han.
        destruct (update_complete s Hc) as [Heq _].
        assert (Hanim : is_animating (update s) = is_animating s)
          by (rewrite Heq; reflexivity).
        rewrite Hanim in Han.
        (* a complete tile has animated *)
        exfalso. revert Hc Han. subst s. clear.
        induction n as [|n IH]; [discriminate|].
        cbn [iter_n].
        set (s := iter_n n update
                    (init edge_alpha img x y size delay edge true d)) in *.
        destruct (is_complete s) eqn:Hc.
        -- destruct (update_complete s Hc) as [Heq _]. rewrite Heq.
           simpl. intros _ Han. now apply IH.
        -- destruct (update_running s Hc)
             as [[_ Heq] | (_ & _ & _ & _ & Han & _)].
           ++ rewrite Heq. simpl.
              destruct (faded_fields s) as (_ & _ & _ & _ & -> & _).
              congruence.
           ++ congruence.
    + rewrite (update_running_line s Hc). unfold faded. rewrite Hrev. split.
      * intros -> _. simpl. now apply IHf.
      * intros -> Han.
        destruct (update_running s Hc)
          as [[_ Heq] | (_ & _ & _ & _ & Han' & _)]; [|congruence].
        rewrite Heq in Han. simpl in Han.
        destruct (faded_fields s) as (_ & _ & _ & _ & _ & Hfa).
        rewrite Hfa in Han. rewrite Han. simpl. now apply IHr.
Qed.

Lemma py_int_range (r : R) (lo hi : Z) :
  (lo <= 0 <= hi)%Z -> IZR lo <= r <= IZR hi -> (lo <= py_int r <= hi)%Z.
Proof.
  intros [Hlo Hhi] [Hr1 Hr2]. unfold py_int.
  destruct (Rle_dec 0 r) as [H0 | H0].
  - destruct (base_Int_part r) as [Ha Hb]. split.
    + assert (H : IZR (-1) < IZR (Int_part r)) by (simpl; lra).
      apply lt_IZR in H. lia.
    + apply le_IZR. lra.
  - destruct (base_Int_part (- r)) as [Ha Hb]. split.
    + assert (H : IZR (Int_part (- r)) <= IZR (- lo))
        by (rewrite opp_IZR; lra).
      apply le_IZR in H. lia.
    + assert (H : IZR (-1) < IZR (Int_part (- r))) by (simpl; lra).
      apply lt_IZR in H. lia.
Qed.

(** X2: the cut line of a tile.  Its alpha is always between 0 and 255
    and moves in one direction only (down for a forward tile, up for a
    reversed one); a forward tile keeps it at 255 until the flip is
    complete, a reversed tile keeps it at 0 until it starts to animate;
    [draw_lines] draws nothing exactly when the alpha is 0 and otherwise
    draws an outline whose alpha is between 0 and 102. *)
Theorem cut_line_alpha :
  forall edge_alpha img x y size delay edge (rv : bool) d n,
    let t := iter_n n update
               (init edge_alpha img x y size delay edge rv d) in
    (0 <= line_alpha t <= 255)%Z
    /\ (if rv then (line_alpha t <= line_alpha (update t))%Z
        else (line_alpha (update t) <= line_alpha t)%Z)
    /\ (rv = false -> is_complete t = false -> line_alpha t = 255%Z)
    /\ (rv = true -> is_animating t = false -> line_alpha t = 0%Z)
    /\ (draw_lines t = None <-> line_alpha t = 0%Z)
    /\ (forall o, draw_lines t = Some o -> (0 <= outline_alpha o <= 102)%Z).
Proof.
  intros ea img x0 y0 sz dl edge rv d n t.
  assert (Hinv : line_inv t) by (apply line_inv_iter, line_inv_init).
  assert (Hrev : reverse t = rv).
  { subst t. destruct (iter_keeps n (init ea img x0 y0 sz dl edge rv d))
      as [-> _]. reflexivity. }
  split; [exact Hinv|]. split.
  { pose proof (line_alpha_direction t Hinv) as H. now rewrite Hrev in H. }
  destruct (line_alpha_waits n ea img x0 y0 sz dl edge rv d) as [Hf Hr].
  split; [exact Hf|]. split; [exact Hr|].
  unfold line_inv in Hinv. unfold draw_lines.
  destruct (line_alpha t <=? 0)%Z eqn:E.
  - split; [split; [lia | reflexivity] | discriminate].
  - split; [split; [discriminate | lia]|].
    intros o [= <-]. simpl.
    apply py_int_range; [lia|].
    assert (H1 : IZR 0 <= IZR (line_alpha t)) by (apply IZR_le; lia).
    assert (H2 : IZR (line_alpha t) <= IZR 255) by (apply IZR_le; lia).
    lra.
Qed.

(** The flip of a freshly built tile is over after [delay + 240]
    updates. *)
Lemma complete_at_bound edge_alpha img x y size delay edge rv d :
  valid_draws d ->
  is_complete
    (iter_n (240 + Z.to_nat delay) update
       (init edge_alpha img x y size delay edge rv d)) = true.
Proof.
  intros Hd.
  set (t := init edge_alpha img x y size delay edge rv d).
  assert (Hinv : angle_inv t) by (apply angle_inv_init, Hd).
  rewrite iter_n_add.
  assert (Hphase1 : exists u, iter_n (Z.to_nat delay) update t = u
                              /\ angle_inv u /\ (current_delay u <= 0)%Z
                              /\ total_rotation u = total_rotation t).
  { destruct (Z_le_gt_dec delay 0) as [Hle | Hgt].
    - exists t. replace (Z.to_nat delay) with 0%nat by lia.
      repeat split; try apply Hinv. exact Hle.
    - eexists. split; [apply delay_phase; try reflexivity|].
      + subst t. unfold init. cbn [current_delay]. lia.
      + split; [now apply angle_inv_set_current_delay|].
        split; [|reflexivity].
        subst t. unfold init, set_current_delay. cbn [current_delay]. lia. }
  destruct Hphase1 as (u & -> & Hu & Hdu & Htu).
  destruct (flip_phase 240 u Hu Hdu) as (Hs & _ & [Hc | Hang]); [exact Hc|].
  destruct (is_complete (iter_n 240 update u)) eqn:Hc; [reflexivity|].
  exfalso.
  destruct Hs as (_ & _ & Hlt & _). specialize (Hlt Hc).
  rewrite total_rotation_iter in Hlt.
  assert (Htot : IZR (total_rotation u) <= 720).
  { rewrite Htu. subst t. unfold init. cbn [total_rotation].
    apply (IZR_total_pos (d_target_flips d)), Hd. }
  destruct Hu as (_ & Hrange & _).
  rewrite INR_IZR_INZ in Hang.
  change (Z.of_nat 240) with 240%Z in Hang.
  lra.
Qed.

Lemma fade_left_nonneg t : line_inv t -> (0 <= fade_left t)%Z.
Proof. unfold line_inv, fade_left. destruct (reverse t); lia. Qed.

(** On a complete tile each update takes at least 5 off what is left of
    the fade. *)
Lemma fade_step t :
  is_complete t = true -> line_inv t ->
  (fade_left (update t) <= Z.max 0 (fade_left t - 5))%Z.
Proof.
  intros Hc Hinv. unfold line_inv in Hinv.
  unfold fade_left. destruct (update_keeps t) as [-> _].
  unfold update, LINE_FADE_SPEED. rewrite Hc.
  destruct (reverse t);
    [destruct (line_alpha t <? 255)%Z eqn:E
    | destruct (line_alpha t >? 0)%Z eqn:E];
    cbn [line_alpha set_line_alpha]; lia.
Qed.

Lemma fade_iter k t :
  is_complete t = true -> line_inv t ->
  (fade_left (iter_n k update t) <= Z.max 0 (fade_left t - 5 * Z.of_nat k))%Z.
Proof.
  intros Hc Hinv. induction k as [|k IH].
  - simpl. lia.
  - cbn [iter_n].
    pose proof (fade_step (iter_n k update t)
                  (proj2 (iter_update_complete k t Hc))
                  (line_inv_iter k t Hinv)) as Hstep.
    lia.
Qed.

(** A complete tile whose fade is over is a fixed point of [update]. *)
Lemma update_settled t :
  is_complete t = true -> line_inv t -> fade_left t = 0%Z -> update t = t.
Proof.
  intros Hc Hinv Hf. unfold line_inv in Hinv. unfold fade_left in Hf.
  unfold update. rewrite Hc.
  destruct (reverse t);
    [destruct (line_alpha t <? 255)%Z eqn:E
    | destruct (line_alpha t >? 0)%Z eqn:E]; try reflexivity; lia.
Qed.

(** After the flip is over the fade takes at most 51 updates. *)
Lemma settled_after n edge_alpha img x y size delay edge rv d :
  valid_draws d ->
  (Z.to_nat delay + 291 <= n)%nat ->
  let t := iter_n n update (init edge_alpha img x y size delay edge rv d) in
  is_complete t = true /\ line_inv t /\ fade_left t = 0%Z.
Proof.
  intros Hd Hn t. subst t.
  destruct (Nat.le_exists_sub _ _ Hn) as (k & -> & _).
  replace (k + (Z.to_nat delay + 291))%nat
    with ((k + 51) + (240 + Z.to_nat delay))%nat by lia.
  rewrite iter_n_add.
  set (c := iter_n (240 + Z.to_nat delay) update
              (init edge_alpha img x y size delay edge rv d)).
  assert (Hc : is_complete c = true) by (apply complete_at_bound, Hd).
  assert (Hinv : line_inv c) by (apply line_inv_iter, line_inv_init).
  split; [apply iter_update_complete, Hc|].
  split; [now apply line_inv_iter|].
  pose proof (fade_iter (k + 51) c Hc Hinv) as Hle.
  pose proof (fade_left_nonneg _ (line_inv_iter (k + 51) c Hinv)) as H0.
  assert (fade_left c <= 255)%Z.
  { unfold line_inv in Hinv. unfold fade_left. destruct (reverse c); lia. }
  lia.
Qed.

(** X3: a tile comes to rest.  After [delay + 291] updates (240 for the
    flip, 51 for the fade of the cut line) the tile is complete, its cut
    line has reached its final alpha (0 for a forward tile, 255 for a
    reversed one, which is what the orchestrator tests), and [update]
    no longer changes anything. *)
Theorem tile_comes_to_rest :
  forall edge_alpha img x y size delay edge (rv : bool) d n,
    valid_draws d ->
    (Z.to_nat delay + 291 <= n)%nat ->
    let t := iter_n n update
               (init edge_alpha img x y size delay edge rv d) in
    is_complete t = true
    /\ line_alpha t = (if rv then 255 else 0)%Z
    /\ lines_done rv t = true
    /\ update t = t.
Proof.
  intros ea img x0 y0 sz dl edge rv d n Hd Hn t.
  destruct (settled_after n ea img x0 y0 sz dl edge rv d Hd Hn)
    as (Hc & Hinv & Hf).
  fold t in Hc, Hinv, Hf.
  assert (Hrev : reverse t = rv).
  { subst t. destruct (iter_keeps n (init ea img x0 y0 sz dl edge rv d))
      as [-> _]. reflexivity. }
  split; [exact Hc|].
  assert (Hla : line_alpha t = (if rv then 255 else 0)%Z).
  { unfold fade_left in Hf. rewrite Hrev in Hf. destruct rv; lia. }
  split; [exact Hla|]. split.
  - unfold lines_done. rewrite Hla. now destruct rv.
  - now apply update_settled.
Qed.

Lemma tile_comes_to_rest_witness :
  let t := iter_n 291 update (Samples.tile true) in
  is_complete t = true
  /\ line_alpha t = 255%Z
  /\ lines_done true t = true
  /\ update t = t.
Proof.
  apply (tile_comes_to_rest Samples.no_falloff Samples.image 0 0 2 0 0
           true Samples.draws 291).
  - unfold valid_draws; simpl. split; [lia | lra].
  - simpl. lia.
Defined.

Lemma squash_scale_le_1 a : squash_scale a <= 1.
Proof.
  unfold squash_scale. cbv zeta. apply Rmax_lub; [lra|].
  apply Rabs_le. pose proof (COS_bound (radians (py_fmod a 180))). lra.
Qed.

(** The side [draw] squashes a tile to lies between one pixel and the
    tile's side. *)
Lemma squashed_side_range (sz : Z) (a : R) :
  (1 <= sz)%Z ->
  (1 <= Z.max 1 (py_int (IZR sz * squash_scale a)) <= sz)%Z.
Proof.
  intros Hsz.
  pose proof (squash_scale_le_1 a) as H1.
  pose proof (Flip_tile_draw.squash_scale_min a) as H0.
  assert (Hs : 1 <= IZR sz) by (apply IZR_le in Hsz; exact Hsz).
  assert (Hr : (0 <= py_int (IZR sz * squash_scale a) <= sz)%Z).
  { apply py_int_range; [lia|]. simpl. split; nra. }
  lia.
Qed.

(** [draw] on a tile that is animating and not complete. *)
Lemma draw_animating t soft :
  angle_inv t -> shape_inv t ->
  is_animating t = true -> is_complete t = false ->
  exists base,
    draw t soft
    = Some (let side := Z.max 1 (py_int (IZR (Flip_tile.size t)
                                        * squash_scale (flip_angle t))) in
            match flip_direction t with
            | horizontal =>
                {| blit_surface := base;
                   blit_scaled_to := Some (side, Flip_tile.size t);
                   blit_dest := (Flip_tile.x t + (Flip_tile.size t - side) / 2,
                                 Flip_tile.y t)%Z |}
            | vertical =>
                {| blit_surface := base;
                   blit_scaled_to := Some (Flip_tile.size t, side);
                   blit_dest := (Flip_tile.x t,
                                 Flip_tile.y t + (Flip_tile.size t - side) / 2)%Z |}
            end).
Proof.
  intros (_ & [Ha0 _] & _) (Hf & _ & Hl & Hls) Han Hc.
  unfold draw. rewrite Hc, Han. cbv zeta. simpl negb. cbv iota.
  set (surfaces := if soft then flip_surfaces_soft t else flip_surfaces t).
  assert (Hlen : length surfaces = S (Z.to_nat (target_flips t))).
  { subst surfaces. now destruct soft. }
  set (fi := Z.min (py_int (flip_angle t / 180))
                   (Z.of_nat (length (flip_surfaces t)) - 2)).
  assert (Hfi : (0 <= fi <= target_flips t - 1)%Z).
  { subst fi. rewrite Hl.
    assert (0 <= py_int (flip_angle t / 180))%Z
      by (apply Flip_tile_draw.py_int_nonneg; lra).
    lia. }
  assert (Hbase : exists base,
             (if Rlt_dec (py_fmod (flip_angle t) 180) 90
              then py_index surfaces fi
              else py_index surfaces (fi + 1)) = Some base).
  { destruct (Rlt_dec (py_fmod (flip_angle t) 180) 90);
      apply Flip_tile_draw.py_index_in_range; rewrite Hlen; lia. }
  destruct Hbase as [base ->]. exists base.
  now destruct (flip_direction t).
Qed.

(** X4: [draw] never indexes outside the state lists and never leaves the
    tile's cell.  For every tile of side at least 1, at every point of its
    run and with or without soft edges, [draw] blits one surface: unscaled
    at the tile's corner when the tile is idle or complete (the final
    state when complete), and otherwise scaled to a rectangle of at least
    one pixel that lies inside the tile's square and is centred on the
    flip axis. *)
Theorem draw_stays_in_cell :
  forall edge_alpha img x y size delay edge rv d n (soft : bool),
    valid_draws d ->
    (1 <= size)%Z ->
    let t := iter_n n update
               (init edge_alpha img x y size delay edge rv d) in
    exists b,
      draw t soft = Some b
      /\ (is_complete t = true -> blit_surface b = final_surface t)
      /\ match blit_scaled_to b with
         | None => blit_dest b = (x, y)
         | Some (w, h) =>
             is_animating t = true /\ is_complete t = false
             /\ (1 <= w <= size)%Z /\ (1 <= h <= size)%Z
             /\ (x <= fst (blit_dest b))%Z
             /\ (fst (blit_dest b) + w <= x + size)%Z
             /\ (y <= snd (blit_dest b))%Z
             /\ (snd (blit_dest b) + h <= y + size)%Z
             /\ (0 <= (size - w) - 2 * (fst (blit_dest b) - x) <= 1)%Z
             /\ (0 <= (size - h) - 2 * (snd (blit_dest b) - y) <= 1)%Z
         end.
Proof.
  intros ea img x0 y0 sz dl edge rv d n soft Hd Hsz t.
  assert (Hinv : angle_inv t) by (apply angle_inv_iter, angle_inv_init, Hd).
  assert (Hsh : shape_inv t)
    by (apply Flip_tile_draw.shape_inv_iter, Flip_tile_draw.shape_inv_init, Hd).
  destruct (iter_keeps n (init ea img x0 y0 sz dl edge rv d))
    as (_ & Hsize & Hx & Hy & _ & _).
  cbv zeta in Hsize, Hx, Hy. fold t in Hsize, Hx, Hy.
  simpl in Hsize, Hx, Hy.
  destruct (is_complete t) eqn:Hc.
  - eexists. unfold draw. rewrite Hc. split; [reflexivity|].
    simpl. split; [reflexivity|]. now rewrite Hx, Hy.
  - destruct (is_animating t) eqn:Han.
    + destruct (draw_animating t soft Hinv Hsh Han Hc) as [base Hdraw].
      rewrite Hdraw, Hsize, Hx, Hy. cbv zeta.
      pose proof (squashed_side_range sz (flip_angle t) Hsz) as Hside.
      set (side := Z.max 1 (py_int (IZR sz * squash_scale (flip_angle t))))
        in *.
      clearbody side.
      pose proof (Z.mul_div_le (sz - side) 2 eq_refl) as Hq1.
      pose proof (Z.mul_succ_div_gt (sz - side) 2 eq_refl) as Hq2.
      set (q := ((sz - side) / 2)%Z) in *. clearbody q.
      destruct (flip_direction t); eexists; (split; [reflexivity|]);
        (split; [intros; discriminate|]);
        cbn [blit_scaled_to blit_dest fst snd];
        repeat split; auto; lia.
    + destruct Hsh as (Hf & _ & Hl & Hls).
      unfold draw. rewrite Hc, Han. simpl negb. cbv iota.
      set (surfaces := if soft then flip_surfaces_soft t else flip_surfaces t).
      assert (Hne : surfaces <> []).
      { subst surfaces. destruct soft; intros E;
          [rewrite E in Hls | rewrite E in Hl]; discriminate. }
      rewrite (py_index_0 _ ([] : Surface) Hne).
      eexists. split; [reflexivity|]. simpl.
      split; [discriminate|]. now rewrite Hx, Hy.
Qed.

Lemma draw_stays_in_cell_witness :
  let t := iter_n 1 update (Samples.tile false) in
  exists b,
    draw t true = Some b
    /\ (is_complete t = true -> blit_surface b = final_surface t)
    /\ match blit_scaled_to b with
       | None => blit_dest b = (0, 0)%Z
       | Some (w, h) =>
           is_animating t = true /\ is_complete t = false
           /\ (1 <= w <= 2)%Z /\ (1 <= h <= 2)%Z
           /\ (0 <= fst (blit_dest b))%Z
           /\ (fst (blit_dest b) + w <= 0 + 2)%Z
           /\ (0 <= snd (blit_dest b))%Z
           /\ (snd (blit_dest b) + h <= 0 + 2)%Z
           /\ (0 <= (2 - w) - 2 * (fst (blit_dest b) - 0) <= 1)%Z
           /\ (0 <= (2 - h) - 2 * (snd (blit_dest b) - 0) <= 1)%Z
       end.
Proof.
  apply (draw_stays_in_cell Samples.no_falloff Samples.image 0 0 2 0 0
           false Samples.draws 1 true).
  - unfold valid_draws; simpl. split; [lia | lra].
  - lia.
Defined.

End Flip_tile_more.

(** ** Flip tiles: feathering and the shape of the states *)

Module Flip_tile_shapes.
Import Flip_tile Flip_tile_inv Flip_tile_lines.

Lemma length_py_range_of_nat n : length (py_range (Z.of_nat n)) = n.
Proof. unfold py_range. now rewrite length_map, length_seq, Nat2Z.id. Qed.

Lemma Forall2_map_combine {A B} (P : A -> B -> Prop) (f : Z * A -> B) :
  (forall i a, P a (f (i, a))) ->
  forall (idx : list Z) (l : list A),
    length idx = length l -> Forall2 P l (map f (combine idx l)).
Proof.
  intros Hf idx l. revert idx.
  induction l as [|a l IH]; intros [|i idx] Hlen; simpl in *;
    try discriminate; constructor; auto.
Qed.

Lemma nth_error_indexed {A B} (f : Z * A -> B) (l : list A) (s i : nat) :
  nth_error (map f (combine (map Z.of_nat (seq s (length l))) l)) i
  = option_map (fun a => f (Z.of_nat (s + i), a)) (nth_error l i).
Proof.
  revert s i. induction l as [|a l IH]; intros s i.
  - now destruct i.
  - destruct i as [|i]; simpl.
    + now rewrite Nat.add_0_r.
    + rewrite IH. now rewrite Nat.add_succ_r.
Qed.

Lemma nth_error_py_range_combine {A B} (f : Z * A -> B) (l : list A) i :
  nth_error (map f (combine (py_range (Z.of_nat (length l))) l)) i
  = option_map (fun a => f (Z.of_nat i, a)) (nth_error l i).
Proof.
  unfold py_range. rewrite Nat2Z.id. apply (nth_error_indexed f l 0 i).
Qed.

(** Feathering keeps every colour and raises no alpha. *)
Lemma soft_edge_feathered edge_alpha edge surface :
  Forall2 (Forall2 feathered) surface
          (create_soft_edge_surface edge_alpha edge surface).
Proof.
  unfold create_soft_edge_surface.
  destruct (edge <=? 0)%Z eqn:He.
  - induction surface as [|row surface IH]; constructor; auto.
    clear. induction row as [|[[[r g] b] a] row IHr]; constructor; auto.
    simpl. repeat split; lia.
  - apply Forall2_map_combine; [|apply length_py_range_of_nat].
    intros py row. apply Forall2_map_combine;
      [|apply length_py_range_of_nat].
    intros px [[[r g] b] a].
    destruct (_ <? edge)%Z; simpl; repeat split; lia.
Qed.

(** X5: what [_create_soft_edge_surface] does to a bitmap.  The result
    has the same rows and columns; every pixel keeps its colour and gets
    an alpha that is not higher than before; a pixel whose distance to the
    nearest edge is at least [edge] is left as it is; and with [edge] at
    most 0 the bitmap is returned unchanged. *)
Theorem soft_edge_touches_border_alpha_only :
  forall edge_alpha edge surface,
    let soft := create_soft_edge_surface edge_alpha edge surface in
    let sz := Z.of_nat (length (hd [] surface)) in
    Forall2 (Forall2 feathered) surface soft
    /\ ((edge <= 0)%Z -> soft = surface)
    /\ (forall px py p,
          surface_get_at surface px py = Some p ->
          (edge <= Z.min (Z.min (Z.of_nat px) (Z.of_nat py))
                         (Z.min (sz - 1 - Z.of_nat px)
                                (sz - 1 - Z.of_nat py)))%Z ->
          surface_get_at soft px py = Some p).
Proof.
  intros ea edge surface soft sz.
  split; [apply soft_edge_feathered|].
  subst soft. unfold create_soft_edge_surface. fold sz.
  destruct (edge <=? 0)%Z eqn:He.
  - split; [reflexivity | auto].
  - split; [lia|].
    intros px py p Hget Hdist. unfold surface_get_at in *.
    rewrite nth_error_py_range_combine.
    destruct (nth_error surface py) as [row|]; [|discriminate].
    simpl. rewrite nth_error_py_range_combine, Hget. simpl.
    destruct (_ <? edge)%Z eqn:E; [lia | reflexivity].
Qed.

Lemma square_transform_flip n s fx fy :
  square n s -> square n (transform_flip s fx fy).
Proof.
  intros [Hl Hrows]. unfold transform_flip, square.
  assert (H1 : square n (if fx then map (@rev RGBA) s else s)).
  { destruct fx; [|now split]. split; [now rewrite length_map|].
    apply Forall_map. eapply Forall_impl; [|exact Hrows].
    intros row Hr. simpl. now rewrite length_rev. }
  destruct H1 as [Hl1 Hr1].
  destruct fy; [|now split].
  split; [now rewrite length_rev | now apply Forall_rev].
Qed.

Lemma square_flip_loop n k dir cur :
  square n cur -> Forall (square n) (flip_loop k dir cur).
Proof.
  revert cur. induction k as [|k IH]; intros cur Hc; cbn [flip_loop];
    constructor.
  - destruct dir; now apply square_transform_flip.
  - apply IH. destruct dir; now apply square_transform_flip.
Qed.

Lemma Forall_set_last {A} (P : A -> Prop) l v :
  Forall P l -> P v -> Forall P (set_last l v).
Proof.
  intros Hl Hv. destruct l as [|a l]; [constructor|].
  unfold set_last. apply Forall_app. split; [|now constructor].
  rewrite (app_removelast_last v (l := a :: l)) in Hl by discriminate.
  now apply Forall_app in Hl.
Qed.

Lemma square_precompute_states n orig rv flips dir px py :
  square n orig ->
  Forall (square n) (precompute_states orig rv flips dir px py).
Proof.
  intros Ho. unfold precompute_states.
  assert (Hs : square n (scrambled_start orig px py)).
  { unfold scrambled_start. destruct px, py;
      repeat apply square_transform_flip; exact Ho. }
  assert (Hall : Forall (square n)
                   (set_last (scrambled_start orig px py
                              :: flip_loop (Z.to_nat flips) dir
                                   (scrambled_start orig px py)) orig)).
  { apply Forall_set_last; [|exact Ho].
    constructor; [exact Hs | now apply square_flip_loop]. }
  destruct rv; [now apply Forall_rev | exact Hall].
Qed.

Lemma square_extract_tile img x y size :
  square (Z.to_nat size) (extract_tile img x y size).
Proof.
  unfold extract_tile, square, py_range.
  rewrite length_map, length_map, length_seq. split; [reflexivity|].
  apply Forall_map, Forall_map. apply Forall_forall. intros k _. simpl.
  now rewrite length_map, length_map, length_seq.
Qed.

Lemma Forall2_length_rows {A B} (P : A -> B -> Prop) n l l' :
  Forall2 (Forall2 P) l l' ->
  (length l = n /\ Forall (fun row => length row = n) l) ->
  (length l' = n /\ Forall (fun row => length row = n) l').
Proof.
  intros H [Hl Hrows]. split.
  - now rewrite <- (Forall2_length H).
  - clear Hl. induction H as [|r r' l l' Hr _ IH]; constructor.
    + inversion Hrows; subst. now rewrite <- (Forall2_length Hr).
    + apply IH. now inversion Hrows.
Qed.

(** X6: every bitmap a tile holds has the tile's shape.  For a tile of
    side [size], at every point of its run, the untouched bitmap, its
    feathered variant, every state of both precomputed sequences and both
    final bitmaps have [size] rows of [size] pixels. *)
Theorem tile_bitmaps_are_square :
  forall edge_alpha img x y size delay edge rv d n,
    let t := iter_n n update
               (init edge_alpha img x y size delay edge rv d) in
    let side := Z.to_nat size in
    square side (original_surface t)
    /\ square side (original_soft t)
    /\ Forall (square side) (flip_surfaces t)
    /\ Forall (square side) (flip_surfaces_soft t)
    /\ length (flip_surfaces t) = length (flip_surfaces_soft t)
    /\ square side (final_surface t)
    /\ square side (final_surface_soft t).
Proof.
  intros ea img x0 y0 sz dl edge rv d n t side.
  assert (Hstatic : original_surface t
                    = extract_tile img x0 y0 sz
                    /\ original_soft t
                       = create_soft_edge_surface ea edge
                           (extract_tile img x0 y0 sz)
                    /\ flip_surfaces t
                       = precompute_states (extract_tile img x0 y0 sz) rv
                           (d_target_flips d) (d_direction d)
                           (d_pre_flip_x d) (d_pre_flip_y d)
                    /\ flip_surfaces_soft t
                       = precompute_states
                           (create_soft_edge_surface ea edge
                              (extract_tile img x0 y0 sz)) rv
                           (d_target_flips d) (d_direction d)
                           (d_pre_flip_x d) (d_pre_flip_y d)
                    /\ final_surface t = last (flip_surfaces t) []
                    /\ final_surface_soft t = last (flip_surfaces_soft t) []).
  { subst t. induction n as [|n IH]; [simpl; auto 10|].
    cbn [iter_n].
    set (s := iter_n n update (init ea img x0 y0 sz dl edge rv d)) in *.
    assert (Hk : original_surface (update s) = original_surface s
                 /\ original_soft (update s) = original_soft s
                 /\ flip_surfaces (update s) = flip_surfaces s
                 /\ flip_surfaces_soft (update s) = flip_surfaces_soft s
                 /\ final_surface (update s) = final_surface s
                 /\ final_surface_soft (update s) = final_surface_soft s).
    { unfold update, start_animation.
      repeat match goal with
             | |- context [if ?c then _ else _] => destruct c
             end; simpl; auto 10. }
    destruct Hk as (-> & -> & -> & -> & -> & ->). exact IH. }
  destruct Hstatic as (Ho & Hs & Hf & Hfs & Hfin & Hfins).
  pose proof (square_extract_tile img x0 y0 sz) as Hsq.
  assert (Hsoft : square side (create_soft_edge_surface ea edge
                                 (extract_tile img x0 y0 sz))).
  { exact (Forall2_length_rows feathered side _ _
             (soft_edge_feathered ea edge (extract_tile img x0 y0 sz)) Hsq). }
  assert (Hlast : forall l, Forall (square side) l -> l <> [] ->
                            square side (last l [])).
  { intros l Hl Hne. rewrite Forall_forall in Hl. apply Hl.
    destruct l as [|a l]; [congruence|].
    rewrite (app_removelast_last [] (l := a :: l)) at 2 by discriminate.
    apply in_or_app. right. now left. }
  assert (Hne : forall orig, precompute_states orig rv (d_target_flips d)
                               (d_direction d) (d_pre_flip_x d)
                               (d_pre_flip_y d) <> []).
  { intros orig E. apply (f_equal (@length Surface)) in E.
    rewrite Flip_tile_states.length_precompute_states in E. discriminate. }
  rewrite Ho, Hs, Hfin, Hfins, Hf, Hfs.
  repeat split; try apply Hsq; try apply Hsoft;
    try (now apply square_precompute_states).
  - now rewrite !Flip_tile_states.length_precompute_states.
  - apply Hlast; [now apply square_precompute_states | apply Hne].
  - apply Hlast; [now apply square_precompute_states | apply Hne].
  - apply Hlast; [now apply square_precompute_states | apply Hne].
  - apply Hlast; [now apply square_precompute_states | apply Hne].
Qed.

End Flip_tile_shapes.

(** ** Eye gaze: buffers, sampling, empty and restarted effects *)

Module Eyes_more.
Import Eyes Eyes_inv Eyes_gaze Eyes_geometry.

(** X7: the padded rectangle of an eye.  It never leaves the screen; for
    a box that lies on the screen it contains the box, with a margin of
    at most [max_shift + 5] on every side, and for a box at least
    [max_shift + 5] away from every border of the screen the margin is
    exactly [max_shift + 5] on every side. *)
Theorem padded_rect_on_screen :
  forall screen_width screen_height max_shift x y w h,
    match padded_rect_of screen_width screen_height max_shift x y w h with
    | (x1, y1, pw, ph) =>
        let pad := (max_shift + 5)%Z in
        (0 <= x1 /\ 0 <= y1
         /\ x1 + pw <= screen_width /\ y1 + ph <= screen_height)%Z
        /\ (box_on_screen screen_width screen_height x y w h ->
            (0 <= pad)%Z ->
            (x - pad <= x1 <= x /\ y - pad <= y1 <= y
             /\ x + w <= x1 + pw <= x + w + pad
             /\ y + h <= y1 + ph <= y + h + pad)%Z)
        /\ ((pad <= x /\ pad <= y /\ x + w + pad <= screen_width
             /\ y + h + pad <= screen_height)%Z ->
            (x1 = x - pad /\ y1 = y - pad
             /\ pw = w + 2 * pad /\ ph = h + 2 * pad)%Z)
    end.
Proof.
  intros sw sh ms x y w h. unfold padded_rect_of, box_on_screen. cbv zeta.
  repeat split; intros; lia.
Qed.











(** X10: an eye effect without eyes does nothing.  Built with an empty
    list of eyes, the effect is left exactly as built by every [update]:
    its clock stays at 0, it never completes, and [draw] puts the
    untouched image on the screen. *)
Theorem no_eyes_never_completes :
  forall shift_pixels image width height n,
    let s0 := init image width height [] in
    let s := iter_n n (update shift_pixels) s0 in
    s = s0
    /\ time s = 0
    /\ is_complete s = false
    /\ (forall screen, draw s screen = blit_origin image screen)
    /\ (forall screen, same_shape image screen -> draw s screen = image).
Proof.
  intros sp img wd ht n s0 s.
  assert (Hs : s = s0).
  { subst s. induction n as [|n IH]; [reflexivity|].
    cbn [iter_n]. rewrite IH. reflexivity. }
  rewrite Hs. unfold draw. simpl.
  repeat split; auto. apply blit_origin_same_shape.
Qed.

Section Replay.

Variable shift_pixels : Eye -> R -> R -> Image -> Image.
Variable image : Image.
Variable found : list Eye.
Variable s0 : EyeEffect.

Hypothesis some_eye : found <> [].
Hypothesis s0_static : static s0 image found.
Hypothesis s0_time : time s0 = 0.
Hypothesis s0_running : is_complete s0 = false.

Local Abbreviation step := (update shift_pixels).

Lemma replay_static n : static (iter_n n step s0) image found.
Proof.
  induction n as [|n IH]; [exact s0_static|].
  cbn [iter_n]. now apply (Eyes_run.static_step shift_pixels image found).
Qed.

(** From a state at time 0 the effect runs for 599 ticks. *)
Lemma replay_before_end n :
  (n < 600)%nat ->
  is_complete (iter_n n step s0) = false
  /\ time (iter_n n step s0) = IZR (Z.of_nat n) / 60.
Proof.
  induction n as [|n IH]; intros Hn.
  - simpl. split; [exact s0_running | rewrite s0_time; lra].
  - destruct IH as [Hc Ht]; [lia|].
    pose proof (replay_static n) as (_ & He & _ & _ & Hd).
    assert (Hlt : IZR (Z.of_nat n) / 60 + 1 / 60 < 10).
    { assert (H : (Z.of_nat n <= 598)%Z) by lia.
      apply IZR_le in H. lra. }
    cbn [iter_n].
    destruct (update_cases shift_pixels (iter_n n step s0))
      as [[Hc' _] | [[He' _] | [(_ & _ & Hge & _)
                               | (_ & _ & _ & Ht' & Hc' & _)]]].
    + congruence.
    + congruence.
    + rewrite Ht, Hd in Hge. lra.
    + split; [exact Hc'|]. rewrite Ht', Ht, Nat2Z.inj_succ, succ_IZR. lra.
Qed.

(** The 600th tick completes it on the untouched image. *)
Lemma replay_at_end n :
  n = 599%nat ->
  is_complete (iter_n (S n) step s0) = true
  /\ current_surface (iter_n (S n) step s0) = image.
Proof.
  intros Hn.
  destruct (replay_before_end n) as [Hc Ht]; [lia|].
  pose proof (replay_static n) as (Ho & He & _ & _ & Hd).
  assert (Hn' : IZR (Z.of_nat n) = 599) by (subst n; reflexivity).
  cbn [iter_n].
  destruct (update_cases shift_pixels (iter_n n step s0))
    as [[Hc' _] | [[He' _] | [(_ & _ & _ & Heq)
                             | (_ & _ & Hlt & _)]]].
  - congruence.
  - congruence.
  - rewrite Heq. simpl. split; [reflexivity | exact Ho].
  - rewrite Ht, Hd, Hn' in Hlt. lra.
Qed.

End Replay.

(** X11: [restart] replays the effect.  At any point of a run of an
    effect with at least one eye, [restart] sets the clock to 0 and clears
    the completion flag but leaves the frame as it is; restarting twice
    is restarting once; and from the restarted state the effect is not
    complete for 599 updates and is complete, on the untouched image,
    from the 600th on. *)
Theorem restart_replays :
  forall shift_pixels image width height found n k,
    found <> [] ->
    let step := update shift_pixels in
    let s := iter_n n step (init image width height found) in
    let r := restart s in
    time r = 0 /\ is_complete r = false
    /\ current_surface r = current_surface s
    /\ restart r = r
    /\ ((k < 600)%nat -> is_complete (iter_n k step r) = false)
    /\ ((600 <= k)%nat ->
        is_complete (iter_n k step r) = true
        /\ current_surface (iter_n k step r) = image).
Proof.
  intros sp img wd ht found n k Hne step s r.
  assert (Hst : static r img found).
  { pose proof (Eyes_run.static_state sp img wd ht found n) as H.
    unfold static in *. subst r. simpl. exact H. }
  split; [reflexivity|]. split; [reflexivity|]. split; [reflexivity|].
  split; [reflexivity|]. split.
  - intros Hk.
    now apply (replay_before_end sp img found r Hne Hst eq_refl eq_refl k).
  - intros Hk.
    destruct (Nat.le_exists_sub 600 k Hk) as (j & -> & _).
    destruct (replay_at_end sp img found r Hne Hst eq_refl eq_refl 599 eq_refl)
      as [Hc Hcs].
    subst step. rewrite iter_n_add.
    rewrite (Eyes_run.complete_fixed sp _ j Hc). split; assumption.
Qed.

Lemma restart_replays_witness :
  let step := update Samples.no_shift in
  let s := iter_n 700 step Samples.eye_effect in
  let r := restart s in
  time r = 0 /\ is_complete r = false
  /\ current_surface r = current_surface s
  /\ restart r = r
  /\ ((600 < 600)%nat -> is_complete (iter_n 600 step r) = false)
  /\ ((600 <= 600)%nat ->
      is_complete (iter_n 600 step r) = true
      /\ current_surface (iter_n 600 step r) = Samples.image).
Proof.
  apply (restart_replays Samples.no_shift Samples.image 2 2 [Samples.eye]
           700 600).
  discriminate.
Defined.

End Eyes_more.

(** ** Region reveal: the run, the ease, restart, conversions *)

Module Hidden_more.
Import Hidden Hidden_reveal.

Section Run.

Variable alpha_blit : Z -> Image -> Image -> Image.
Variables image hidden : Image.

Local Abbreviation step := (update alpha_blit).

Lemma ready_update s : ready s image hidden -> ready (step s) image hidden.
Proof.
  unfold ready, update. intros (Ho & Hh & Hr & Ha). rewrite Hh.
  destruct (is_complete s); [auto|]. cbv zeta.
  destruct (Rge_dec _ _); [simpl; auto|].
  destruct (Rlt_dec _ _); simpl; auto.
Qed.

Lemma ready_iter n s :
  ready s image hidden -> ready (iter_n n step s) image hidden.
Proof.
  intros H. induction n as [|n IH]; [exact H|].
  cbn [iter_n]. now apply ready_update.
Qed.

(** One tick of a ready effect that is not complete. *)
Lemma update_ready s :
  ready s image hidden -> is_complete s = false ->
  let t := time s + 1 / 60 in
  time (step s) = t
  /\ (10 <= t ->
      is_complete (step s) = true /\ current_surface (step s) = hidden)
  /\ (t < 10 -> is_complete (step s) = false)
  /\ (2 <= t < 10 -> current_surface (step s) = hidden)
  /\ (t < 2 ->
      current_surface (step s)
      = alpha_blit (py_int (255 * smoothstep (t / 2))) hidden image).
Proof.
  intros Hready Hc t. destruct Hready as (Ho & Hh & Hr & Ha).
  unfold update, Config.FPS. rewrite Hh, Hc. cbv zeta.
  simpl (time (set_time _ _)).
  simpl (animation_duration (set_time _ _)).
  simpl (reveal_duration (set_time _ _)).
  simpl (original (set_time _ _)).
  rewrite Ha, Hr, Ho. fold t.
  destruct (Rge_dec t (2 + 8)) as [Hge | Hlt].
  - simpl. repeat split; auto; intros; lra.
  - destruct (Rlt_dec t 2) as [Hrev | Hhold]; simpl;
      repeat split; auto; intros; try lra; try reflexivity.
Qed.

Lemma reveal_complete_fixed s m : is_complete s = true -> iter_n m step s = s.
Proof.
  intros Hc. induction m as [|m IH]; [reflexivity|].
  cbn [iter_n]. rewrite IH. unfold update. rewrite Hc.
  now destruct (hidden_surface s).
Qed.

Variable s0 : HiddenEffect.
Hypothesis s0_ready : ready s0 image hidden.
Hypothesis s0_time : time s0 = 0.
Hypothesis s0_running : is_complete s0 = false.

(** The clock and the frame over the first 599 ticks. *)
Lemma run_before_end n :
  (n < 600)%nat ->
  let s := iter_n n step s0 in
  is_complete s = false
  /\ time s = IZR (Z.of_nat n) / 60
  /\ ((1 <= n < 120)%nat ->
      current_surface s
      = alpha_blit (reveal_alpha (IZR (Z.of_nat n) / 60)) hidden image)
  /\ ((120 <= n)%nat -> current_surface s = hidden).
Proof.
  induction n as [|n IH]; intros Hn.
  - simpl. split; [exact s0_running|]. split; [rewrite s0_time; lra|].
    split; intros; lia.
  - destruct IH as (Hc & Ht & _); [lia|].
    cbn [iter_n]. cbv zeta.
    destruct (update_ready (iter_n n step s0) (ready_iter n s0 s0_ready) Hc)
      as (Ht' & _ & Hrun & Hhold & Hrev).
    rewrite Ht in Ht', Hrun, Hhold, Hrev.
    assert (Hsucc : IZR (Z.of_nat (S n)) / 60 = IZR (Z.of_nat n) / 60 + 1 / 60).
    { rewrite Nat2Z.inj_succ, succ_IZR. lra. }
    rewrite <- Hsucc in Ht', Hrun, Hhold, Hrev.
    assert (Hlt : IZR (Z.of_nat (S n)) / 60 < 10).
    { assert (H : (Z.of_nat (S n) <= 599)%Z) by lia.
      apply IZR_le in H. lra. }
    split; [now apply Hrun|]. split; [exact Ht'|]. split.
    + intros Hk. unfold reveal_alpha. apply Hrev.
      assert (H : (Z.of_nat (S n) <= 119)%Z) by lia.
      apply IZR_le in H. lra.
    + intros Hk. apply Hhold. split; [|exact Hlt].
      assert (H : (120 <= Z.of_nat (S n))%Z) by lia.
      apply IZR_le in H. lra.
Qed.

Lemma run_at_end n :
  n = 599%nat ->
  is_complete (iter_n (S n) step s0) = true
  /\ current_surface (iter_n (S n) step s0) = hidden.
Proof.
  intros Hn. destruct (run_before_end n) as (Hc & Ht & _); [lia|].
  cbn [iter_n].
  destruct (update_ready (iter_n n step s0) (ready_iter n s0 s0_ready) Hc)
    as (_ & Hend & _).
  apply Hend. rewrite Ht.
  assert (Hn' : IZR (Z.of_nat n) = 599) by (subst n; reflexivity).
  rewrite Hn'. lra.
Qed.

Lemma run_after_end n :
  (600 <= n)%nat ->
  is_complete (iter_n n step s0) = true
  /\ current_surface (iter_n n step s0) = hidden
  /\ step (iter_n n step s0) = iter_n n step s0.
Proof.
  intros Hn. destruct (Nat.le_exists_sub 600 n Hn) as (k & -> & _).
  rewrite iter_n_add.
  generalize (run_at_end 599 eq_refl).
  generalize (iter_n 600 step s0). intros c [Hc Hcs].
  rewrite (reveal_complete_fixed c k Hc).
  repeat split; auto. apply (reveal_complete_fixed c 1 Hc).
Qed.

End Run.

Lemma process_regions_durations data s :
  reveal_duration (process_regions s data) = reveal_duration s
  /\ animation_duration (process_regions s data) = animation_duration s.
Proof.
  revert s. induction data as [|r l IH]; intros a; [split; reflexivity|].
  unfold process_regions in *. cbn [fold_left].
  destruct (IH (set_regions a
                  (regions a ++
                   [{| polygon := get_default (rd_polygon r) [];
                       source_polygon := rd_source_polygon r;
                       x := rd_x r; y := rd_y r;
                       w := rd_w r; h := rd_h r;
                       source_x := get_default (rd_source_x r) 0%Z;
                       source_y := get_default (rd_source_y r) 0%Z;
                       source_w := get_default (rd_source_w r) 0%Z;
                       source_h := get_default (rd_source_h r) 0%Z |}])))
    as [-> ->]. split; reflexivity.
Qed.

Lemma init_ready env image width height polygon_data :
  truthy polygon_data = true ->
  let s0 := init env image width height polygon_data in
  exists hidden,
    ready s0 image hidden /\ time s0 = 0 /\ is_complete s0 = false
    /\ current_surface s0 = image.
Proof.
  intros Ht s0. subst s0. unfold init. rewrite Ht.
  match goal with
  | |- context [process_regions ?s ?d] =>
      destruct (Hidden_init.process_regions_fields d s)
        as (Ho & Hcs & _ & Htm & Hc & _);
      destruct (process_regions_durations d s) as [Hr Ha]
  end.
  cbv zeta in Ho, Hcs, Htm, Hc. simpl in Ho, Hcs, Htm, Hc, Hr, Ha.
  unfold apply_inpainting, ready.
  destruct (import_cv2 env) as [cv|];
    [|destruct (import_cv2_after_install env) as [cv|]];
    eexists; simpl; rewrite ?Ho, ?Hcs, ?Htm, ?Hc, ?Hr, ?Ha;
    repeat split; reflexivity.
Qed.

(** X12: the reveal.  An effect built with at least one region, with or
    without OpenCV, has a hidden surface; over its run the frame is the
    original image under the hidden surface at alpha [reveal_alpha] for
    ticks 1 to 119, the hidden surface itself from tick 120 on, the
    effect is not complete before tick 600 and complete from tick 600 on,
    after which [update] changes nothing. *)
Theorem reveal_run :
  forall env alpha_blit image width height polygon_data n,
    truthy polygon_data = true ->
    let step := update alpha_blit in
    let s := iter_n n step (init env image width height polygon_data) in
    exists hidden,
      hidden_surface s = Some hidden
      /\ (n = 0%nat -> current_surface s = image)
      /\ ((1 <= n < 120)%nat ->
          current_surface s
          = alpha_blit (reveal_alpha (IZR (Z.of_nat n) / 60)) hidden image)
      /\ ((120 <= n)%nat -> current_surface s = hidden)
      /\ ((n < 600)%nat ->
          is_complete s = false /\ time s = IZR (Z.of_nat n) / 60)
      /\ ((600 <= n)%nat -> is_complete s = true /\ step s = s).
Proof.
  intros env ab img wd ht data n Ht step s.
  destruct (init_ready env img wd ht data Ht) as (hid & Hr & Htm & Hc & Hcs).
  exists hid.
  split; [apply (ready_iter ab img hid n _ Hr)|].
  split; [intros ->; exact Hcs|].
  pose proof (run_before_end ab img hid _ Hr Htm Hc n) as Hrun.
  pose proof (run_after_end ab img hid _ Hr Htm Hc n) as Hend.
  cbv zeta in Hrun. fold step in Hrun, Hend. fold s in Hrun, Hend.
  split; [|split; [|split]].
  - intros Hk. apply Hrun; lia.
  - intros Hk. destruct (le_lt_dec 600 n) as [H6 | H6].
    + now apply Hend.
    + now apply Hrun.
  - intros Hk. destruct (Hrun Hk) as (H1 & H2 & _). now split.
  - intros Hk. destruct (Hend Hk) as (H1 & _ & H3). now split.
Qed.

Lemma reveal_run_witness :
  let step := update (fun _ hidden _ => hidden) in
  let s := iter_n 60 step
             (init Samples.no_cv2 Samples.wide_image 8 4
                (Some [{| rd_polygon := Some [(1, 1); (3, 1); (3, 3)]%Z;
                          rd_source_polygon := None;
                          rd_x := 1; rd_y := 1; rd_w := 2; rd_h := 2;
                          rd_source_x := None; rd_source_y := None;
                          rd_source_w := None; rd_source_h := None |}])) in
  exists hidden,
    hidden_surface s = Some hidden
    /\ (60%nat = 0%nat -> current_surface s = Samples.wide_image)
    /\ ((1 <= 60 < 120)%nat ->
        current_surface s
        = (fun _ hidden _ => hidden)
            (reveal_alpha (IZR (Z.of_nat 60) / 60)) hidden Samples.wide_image)
    /\ ((120 <= 60)%nat -> current_surface s = hidden)
    /\ ((60 < 600)%nat ->
        is_complete s = false /\ time s = IZR (Z.of_nat 60) / 60)
    /\ ((600 <= 60)%nat -> is_complete s = true /\ step s = s).
Proof.
  apply (reveal_run Samples.no_cv2 (fun _ hidden _ => hidden)
           Samples.wide_image 8 4
           (Some [{| rd_polygon := Some [(1, 1); (3, 1); (3, 3)]%Z;
                     rd_source_polygon := None;
                     rd_x := 1; rd_y := 1; rd_w := 2; rd_h := 2;
                     rd_source_x := None; rd_source_y := None;
                     rd_source_w := None; rd_source_h := None |}]) 60).
  reflexivity.
Defined.

Lemma py_int_mono (r1 r2 : R) : 0 <= r1 -> r1 <= r2 -> (py_int r1 <= py_int r2)%Z.
Proof.
  intros H0 H12. unfold py_int.
  destruct (Rle_dec 0 r1) as [_|Hn]; [|contradiction].
  destruct (Rle_dec 0 r2) as [_|Hn]; [|lra].
  destruct (base_Int_part r1) as [Ha _].
  destruct (base_Int_part r2) as [_ Hb].
  assert (H : IZR (Int_part r1) < IZR (Int_part r2 + 1)).
  { rewrite plus_IZR. simpl. lra. }
  apply lt_IZR in H. lia.
Qed.

Lemma smoothstep_range p : 0 <= p <= 1 -> 0 <= smoothstep p <= 1.
Proof.
  intros [H0 H1]. unfold smoothstep.
  assert (Hsq : 0 <= p * p) by nra.
  assert (Hlo : 0 <= (p * p) * (3 - 2 * p))
    by (apply Rmult_le_pos; lra).
  assert (Hq : 0 <= (1 - p) * (1 - p)) by nra.
  assert (Hhi : 0 <= ((1 - p) * (1 - p)) * (1 + 2 * p))
    by (apply Rmult_le_pos; lra).
  split; nra.
Qed.

Lemma smoothstep_mono p1 p2 :
  0 <= p1 -> p1 <= p2 -> p2 <= 1 -> smoothstep p1 <= smoothstep p2.
Proof.
  intros H0 H12 H1. unfold smoothstep.
  assert (Hd : 0 <= p2 - p1) by lra.
  assert (Hk : 0 <= 3 * (p1 + p2) - 2 * (p1 * p1 + p1 * p2 + p2 * p2)) by nra.
  pose proof (Rmult_le_pos _ _ Hd Hk) as Hprod.
  nra.
Qed.

(** X13: the ease of the reveal.  Over the 2 seconds of the reveal the
    alpha given to the hidden surface starts at 0, never decreases with
    the clock, stays a byte and would reach 255 at 2 seconds. *)
Theorem reveal_alpha_eases_in :
  forall t1 t2 : R,
    0 <= t1 -> t1 <= t2 -> t2 <= 2 ->
    (0 <= reveal_alpha t1)%Z
    /\ (reveal_alpha t1 <= reveal_alpha t2)%Z
    /\ (reveal_alpha t2 <= 255)%Z
    /\ reveal_alpha 0 = 0%Z
    /\ reveal_alpha 2 = 255%Z.
Proof.
  intros t1 t2 H0 H12 H2. unfold reveal_alpha.
  pose proof (smoothstep_range (t1 / 2)) as Hr1.
  pose proof (smoothstep_range (t2 / 2)) as Hr2.
  pose proof (smoothstep_mono (t1 / 2) (t2 / 2)) as Hm.
  assert (Hs1 : 0 <= smoothstep (t1 / 2) <= 1) by (apply Hr1; lra).
  assert (Hs2 : 0 <= smoothstep (t2 / 2) <= 1) by (apply Hr2; lra).
  assert (Hs12 : smoothstep (t1 / 2) <= smoothstep (t2 / 2))
    by (apply Hm; lra).
  split; [apply Flip_tile_draw.py_int_nonneg; lra|].
  split; [apply py_int_mono; lra|].
  split.
  { assert (H : (0 <= py_int (255 * smoothstep (t2 / 2)) <= 255)%Z)
      by (apply Flip_tile_more.py_int_range; [lia | simpl; lra]).
    lia. }
  split.
  - replace (255 * smoothstep (0 / 2)) with (IZR 0)
      by (unfold smoothstep; lra).
    apply Hidden_clone.py_int_IZR.
  - replace (255 * smoothstep (2 / 2)) with (IZR 255)
      by (unfold smoothstep; lra).
    apply Hidden_clone.py_int_IZR.
Qed.

Lemma reveal_alpha_eases_in_witness :
  (0 <= reveal_alpha (1 / 2))%Z
  /\ (reveal_alpha (1 / 2) <= reveal_alpha 1)%Z
  /\ (reveal_alpha 1 <= 255)%Z
  /\ reveal_alpha 0 = 0%Z
  /\ reveal_alpha 2 = 255%Z.
Proof.
  apply (reveal_alpha_eases_in (1 / 2) 1); lra.
Defined.

(** X14: [restart] of the region reveal.  At any point of a run of an
    effect built with at least one region, [restart] puts the clock at 0,
    clears the completion flag and puts the frame back on the original
    image, keeping the hidden surface; restarting twice is restarting
    once; and the restarted effect reveals again: it is not complete for
    599 updates and is complete, on the hidden surface, from the 600th
    on. *)
Theorem restart_reveals_again :
  forall env alpha_blit image width height polygon_data n k,
    truthy polygon_data = true ->
    let step := update alpha_blit in
    let s := iter_n n step (init env image width height polygon_data) in
    let r := restart s in
    time r = 0 /\ is_complete r = false /\ current_surface r = image
    /\ hidden_surface r = hidden_surface s
    /\ restart r = r
    /\ exists hidden,
        hidden_surface r = Some hidden
        /\ ((k < 600)%nat -> is_complete (iter_n k step r) = false)
        /\ ((600 <= k)%nat ->
            is_complete (iter_n k step r) = true
            /\ current_surface (iter_n k step r) = hidden).
Proof.
  intros env ab img wd ht data n k Ht step s r.
  destruct (init_ready env img wd ht data Ht) as (hid & Hr & _).
  pose proof (ready_iter ab img hid n _ Hr) as Hs.
  fold step in Hs. fold s in Hs.
  assert (Hrr : ready r img hid).
  { unfold ready in *. subst r. simpl. exact Hs. }
  destruct Hs as (Ho & Hh & _).
  split; [reflexivity|]. split; [reflexivity|].
  split; [subst r; simpl; exact Ho|].
  split; [reflexivity|].
  split; [subst r; unfold restart; simpl; reflexivity|].
  exists hid. split; [apply Hrr|]. split.
  - intros Hk.
    now apply (run_before_end ab img hid r Hrr eq_refl eq_refl k).
  - intros Hk.
    destruct (run_after_end ab img hid r Hrr eq_refl eq_refl k Hk)
      as (H1 & H2 & _). now split.
Qed.

Lemma restart_reveals_again_witness :
  let step := update (fun _ hidden _ => hidden) in
  let s := iter_n 700 step
             (init Samples.no_cv2 Samples.wide_image 8 4
                (Some [{| rd_polygon := Some [(1, 1); (3, 1); (3, 3)]%Z;
                          rd_source_polygon := None;
                          rd_x := 1; rd_y := 1; rd_w := 2; rd_h := 2;
                          rd_source_x := None; rd_source_y := None;
                          rd_source_w := None; rd_source_h := None |}])) in
  let r := restart s in
  time r = 0 /\ is_complete r = false
  /\ current_surface r = Samples.wide_image
  /\ hidden_surface r = hidden_surface s
  /\ restart r = r
  /\ exists hidden,
      hidden_surface r = Some hidden
      /\ ((600 < 600)%nat -> is_complete (iter_n 600 step r) = false)
      /\ ((600 <= 600)%nat ->
          is_complete (iter_n 600 step r) = true
          /\ current_surface (iter_n 600 step r) = hidden).
Proof.
  apply (restart_reveals_again Samples.no_cv2 (fun _ hidden _ => hidden)
           Samples.wide_image 8 4
           (Some [{| rd_polygon := Some [(1, 1); (3, 1); (3, 3)]%Z;
                     rd_source_polygon := None;
                     rd_x := 1; rd_y := 1; rd_w := 2; rd_h := 2;
                     rd_source_x := None; rd_source_y := None;
                     rd_source_w := None; rd_source_h := None |}]) 700 600).
  reflexivity.
Defined.

Lemma to_uint8_byte (z : Z) : (0 <= z <= 255)%Z -> to_uint8 (IZR z) = z.
Proof.
  intros Hz. unfold to_uint8. rewrite Hidden_clone.py_int_IZR.
  apply Z.mod_small. lia.
Qed.

(** X15: the ends of the feathered blend.  Where the blurred mask is 0
    the composite keeps the pixel of the original image; where it is 255
    the composite takes the pixel of the inpainted, smoothed image
    (pixels being bytes). *)
Theorem feather_blend_ends :
  forall cv height width img rs row col,
    let mask := build_mask cv height width rs in
    let smoothed :=
      bilateral_filter cv
        (inpaint cv (cloned_and_prefilled cv height width (to_cv img) rs)
                 (dilate cv 3 1 mask)) in
    byte_pixel (to_cv img row col) ->
    byte_pixel (smoothed row col) ->
    (gaussian_blur cv mask row col = 0 ->
     composite cv height width img rs row col = to_cv img row col)
    /\ (gaussian_blur cv mask row col = 255 ->
        composite cv height width img rs row col = smoothed row col).
Proof.
  intros cv ht wd img rs row col mask smoothed Hbo Hbs.
  unfold composite, finish, feather_blend. cbv zeta.
  fold mask. fold smoothed.
  destruct (smoothed row col) as [[b1 g1] r1].
  destruct (to_cv img row col) as [[b0 g0] r0].
  unfold byte_pixel in Hbo, Hbs.
  split; intros ->.
  - replace (IZR b1 * (0 / 255) + IZR b0 * (1 - 0 / 255)) with (IZR b0) by lra.
    replace (IZR g1 * (0 / 255) + IZR g0 * (1 - 0 / 255)) with (IZR g0) by lra.
    replace (IZR r1 * (0 / 255) + IZR r0 * (1 - 0 / 255)) with (IZR r0) by lra.
    rewrite !to_uint8_byte by lia. reflexivity.
  - replace (IZR b1 * (255 / 255) + IZR b0 * (1 - 255 / 255)) with (IZR b1)
      by lra.
    replace (IZR g1 * (255 / 255) + IZR g0 * (1 - 255 / 255)) with (IZR g1)
      by lra.
    replace (IZR r1 * (255 / 255) + IZR r0 * (1 - 255 / 255)) with (IZR r1)
      by lra.
    rewrite !to_uint8_byte by lia. reflexivity.
Qed.

Lemma feather_blend_ends_witness :
  let mask := build_mask Samples.box_cv 4 8 [Samples.clone_region] in
  let smoothed :=
    bilateral_filter Samples.box_cv
      (inpaint Samples.box_cv
         (cloned_and_prefilled Samples.box_cv 4 8
            (to_cv Samples.wide_image) [Samples.clone_region])
         (dilate Samples.box_cv 3 1 mask)) in
  (gaussian_blur Samples.box_cv mask 0%Z 7%Z = 0 ->
   composite Samples.box_cv 4 8 Samples.wide_image [Samples.clone_region]
             0%Z 7%Z
   = to_cv Samples.wide_image 0%Z 7%Z)
  /\ (gaussian_blur Samples.box_cv mask 0%Z 7%Z = 255 ->
      composite Samples.box_cv 4 8 Samples.wide_image [Samples.clone_region]
                0%Z 7%Z
      = smoothed 0%Z 7%Z).
Proof.
  apply (feather_blend_ends Samples.box_cv 4 8 Samples.wide_image
           [Samples.clone_region] 0 7);
    vm_compute; repeat split; discriminate.
Defined.

Lemma map_py_range_nth {A} (l : list A) (f : Z -> A) (d : A) :
  (forall i, (i < length l)%nat -> f (Z.of_nat i) = nth i l d) ->
  map f (py_range (Z.of_nat (length l))) = l.
Proof.
  intros Hf. unfold py_range. rewrite Nat2Z.id.
  apply (nth_ext _ _ d d).
  - now rewrite !length_map, length_seq.
  - intros n Hn. rewrite !length_map, length_seq in Hn.
    rewrite (nth_indep _ d (f 0%Z)) by (now rewrite !length_map, length_seq).
    rewrite map_map, (map_nth (fun k => f (Z.of_nat k)) _ 0%nat).
    rewrite seq_nth by exact Hn. simpl. now apply Hf.
Qed.

(** X16: the conversions between pygame and OpenCV undo each other.  An
    image of the size of the screen, taken to the BGR array and back, is
    the same image. *)
Theorem from_cv_to_cv :
  forall height width img,
    screen_sized height width img ->
    from_cv height width (to_cv img) = img.
Proof.
  intros ht wd img [Hh Hrows]. unfold from_cv. subst ht.
  apply (map_py_range_nth img _ []).
  intros i Hi.
  assert (Hrow : Z.of_nat (length (nth i img [])) = wd).
  { rewrite Forall_forall in Hrows. apply Hrows. now apply nth_In. }
  rewrite <- Hrow.
  apply (map_py_range_nth (nth i img []) _ (0, 0, 0)%Z).
  intros j Hj. unfold to_cv, image_get_at.
  assert (H0 : ((0 <=? Z.of_nat j) && (0 <=? Z.of_nat i))%Z = true)
    by (apply andb_true_intro; split; lia).
  rewrite H0, !Nat2Z.id.
  rewrite (nth_error_nth' img [] Hi).
  rewrite (nth_error_nth' (nth i img []) (0, 0, 0)%Z Hj).
  now destruct (nth j (nth i img []) (0, 0, 0)%Z) as [[r g] b].
Qed.

Lemma from_cv_to_cv_witness :
  from_cv 4 8 (to_cv Samples.wide_image) = Samples.wide_image.
Proof.
  apply (from_cv_to_cv 4 8 Samples.wide_image).
  unfold screen_sized. split; [reflexivity|].
  repeat constructor.
Defined.

End Hidden_more.

(** ** The tile grid *)

Module Main_grid.
Import Flip_tile Main.

Lemma py_ceil_spec (r : R) : IZR (py_ceil r) - 1 < r <= IZR (py_ceil r).
Proof.
  unfold py_ceil. rewrite opp_IZR.
  destruct (base_Int_part (- r)) as [Ha Hb]. lra.
Qed.

(** The number of columns (or rows) is the least that covers the
    screen. *)
Lemma grid_count (extent size : Z) :
  (0 < size)%Z ->
  let count := py_ceil (IZR extent / IZR size) in
  ((count - 1) * size < extent <= count * size)%Z.
Proof.
  intros Hs count.
  pose proof (py_ceil_spec (IZR extent / IZR size)) as [Hlo Hhi].
  fold count in Hlo, Hhi.
  assert (Hsz : 0 < IZR size) by (apply IZR_lt in Hs; exact Hs).
  assert (Heq : IZR extent / IZR size * IZR size = IZR extent)
    by (field; lra).
  split.
  - apply lt_IZR. rewrite mult_IZR, minus_IZR. simpl. nra.
  - apply le_IZR. rewrite mult_IZR. nra.
Qed.

Lemma In_py_range (k n : Z) : In k (py_range n) <-> (0 <= k < n)%Z.
Proof.
  unfold py_range. rewrite in_map_iff. split.
  - intros (i & <- & Hi). apply in_seq in Hi. lia.
  - intros Hk. exists (Z.to_nat k). split; [lia|]. apply in_seq. lia.
Qed.

Lemma In_cells cols rows col row :
  In (col, row) (cells cols rows) <-> (0 <= col < cols /\ 0 <= row < rows)%Z.
Proof.
  unfold cells. rewrite in_flat_map. split.
  - intros (r & Hr & Hin). apply in_map_iff in Hin.
    destruct Hin as (c & [= <- <-] & Hc).
    apply In_py_range in Hr. apply In_py_range in Hc. lia.
  - intros [Hc Hr]. exists row. split; [now apply In_py_range|].
    apply in_map_iff. exists col. split; [reflexivity|].
    now apply In_py_range.
Qed.

Lemma collect_some {A B} (f : A -> option B) (l : list A) :
  (forall a, In a l -> f a <> None) ->
  exists bs, collect f l = Some bs
             /\ forall b, In b bs <-> exists a, In a l /\ f a = Some b.
Proof.
  induction l as [|a l IH]; intros Hf.
  - exists []. split; [reflexivity|]. intros b. split; [contradiction|].
    intros (a & [] & _).
  - destruct IH as (bs & Hbs & Hin); [intros a' Ha'; apply Hf; now right|].
    destruct (f a) as [b0|] eqn:Ea; [|exfalso; apply (Hf a); [now left|exact Ea]].
    exists (b0 :: bs). split; [simpl; now rewrite Ea, Hbs|].
    intros b. split.
    + intros [<- | Hb]; [exists a; split; [now left | exact Ea]|].
      apply Hin in Hb. destruct Hb as (a' & Ha' & Hfa').
      exists a'. split; [now right | exact Hfa'].
    + intros (a' & [<- | Ha'] & Hfa').
      * left. congruence.
      * right. apply Hin. now exists a'.
Qed.

Section Grid.

Variable edge_alpha : Z -> Z -> Z.
Variable hash_cell : Z -> Z -> Z.
Variable draws_at : Z -> Z -> Draws.
Variable wallpaper : Image.
Variables screen_width screen_height square_size : Z.
Variable smooth_edges : bool.
Variable effect_mode : TileEffect.
Variable reverse : bool.

Local Abbreviation delay_of :=
  (tile_delay hash_cell screen_width screen_height square_size
              effect_mode reverse).
Local Abbreviation tile_of :=
  (tile_at edge_alpha hash_cell draws_at wallpaper screen_width
           screen_height square_size smooth_edges effect_mode reverse).
Local Abbreviation the_tiles :=
  (create_tiles edge_alpha hash_cell draws_at wallpaper screen_width
                screen_height square_size smooth_edges effect_mode reverse).

(** A screen of at least two pixels in one direction has a centre away
    from the origin, so no delay divides by zero. *)
Lemma max_dist_positive :
  (0 <= screen_width)%Z -> (0 <= screen_height)%Z ->
  (2 <= screen_width \/ 2 <= screen_height)%Z ->
  0 < sqrt (IZR ((screen_width / 2) ^ 2 + (screen_height / 2) ^ 2)).
Proof.
  intros Hw Hh Hbig. apply sqrt_lt_R0. apply IZR_lt.
  assert (0 <= screen_width / 2)%Z by (apply Z.div_pos; lia).
  assert (0 <= screen_height / 2)%Z by (apply Z.div_pos; lia).
  destruct Hbig as [H2 | H2].
  - assert (1 <= screen_width / 2)%Z
      by (apply Z.div_le_lower_bound; lia). nia.
  - assert (1 <= screen_height / 2)%Z
      by (apply Z.div_le_lower_bound; lia). nia.
Qed.

Lemma delay_of_some col row :
  (0 <= screen_width)%Z -> (0 <= screen_height)%Z ->
  (2 <= screen_width \/ 2 <= screen_height)%Z ->
  exists delay,
    delay_of col row = Some delay
    /\ (0 <= delay)%Z /\ (reverse = true -> (delay <= 60)%Z).
Proof.
  intros Hw Hh Hbig. unfold tile_delay. cbv zeta.
  pose proof (max_dist_positive Hw Hh Hbig) as Hmax.
  set (max_dist := sqrt (IZR ((screen_width / 2) ^ 2
                              + (screen_height / 2) ^ 2))) in *.
  destruct (Req_dec_T max_dist 0) as [E | _]; [lra|].
  match goal with
  | |- context [sqrt ?a / max_dist] => set (dist := sqrt a)
  end.
  assert (Hd : 0 <= dist) by apply sqrt_pos.
  assert (Hn : 0 <= dist / max_dist).
  { apply Rmult_le_pos; [exact Hd|]. left. now apply Rinv_0_lt_compat. }
  eexists. split; [reflexivity|].
  assert (H60 : (0 <= py_int (dist / max_dist * 60))%Z)
    by (apply Flip_tile_draw.py_int_nonneg; lra).
  assert (H10 : (0 <= py_int (dist / max_dist * 10))%Z)
    by (apply Flip_tile_draw.py_int_nonneg; lra).
  assert (Hmod : (0 <= py_mod (hash_cell col row) 5 < 5)%Z)
    by (unfold py_mod; apply Z.mod_pos_bound; lia).
  destruct effect_mode, reverse; split; try lia; intros; try lia;
    discriminate.
Qed.

Lemma tile_of_some col row :
  (0 <= screen_width)%Z -> (0 <= screen_height)%Z ->
  (2 <= screen_width \/ 2 <= screen_height)%Z ->
  exists delay,
    (0 <= delay)%Z /\ (reverse = true -> (delay <= 60)%Z)
    /\ tile_of col row
       = Some (init edge_alpha wallpaper
                    (col * square_size) (row * square_size) square_size delay
                    (if smooth_edges then 6 else 0)%Z reverse
                    (draws_at col row)).
Proof.
  intros Hw Hh Hbig.
  destruct (delay_of_some col row Hw Hh Hbig) as (delay & Hd & H0 & H60).
  exists delay. unfold tile_at. rewrite Hd. auto.
Qed.

(** The list [_create_tiles] returns: one tile per cell of the grid. *)
Lemma the_tiles_spec :
  (0 < square_size)%Z ->
  (0 <= screen_width)%Z -> (0 <= screen_height)%Z ->
  (2 <= screen_width \/ 2 <= screen_height)%Z ->
  exists ts,
    the_tiles = Some ts
    /\ forall t,
        In t ts <->
        exists col row,
          (0 <= col < py_ceil (IZR screen_width / IZR square_size))%Z
          /\ (0 <= row < py_ceil (IZR screen_height / IZR square_size))%Z
          /\ tile_of col row = Some t.
Proof.
  intros Hs Hw Hh Hbig. unfold create_tiles.
  destruct (square_size =? 0)%Z eqn:E; [lia|]. cbv zeta.
  destruct (collect_some
              (fun cell => tile_of (fst cell) (snd cell))
              (cells (py_ceil (IZR screen_width / IZR square_size))
                     (py_ceil (IZR screen_height / IZR square_size))))
    as (ts & Hts & Hin).
  { intros [col row] _. simpl.
    destruct (tile_of_some col row Hw Hh Hbig) as (d & _ & _ & ->).
    discriminate. }
  exists ts. split; [exact Hts|].
  intros t. rewrite Hin. split.
  - intros ([col row] & Hc & Ht). apply In_cells in Hc.
    exists col, row. simpl in Ht. tauto.
  - intros (col & row & Hc & Hr & Ht). exists (col, row).
    split; [apply In_cells; tauto | exact Ht].
Qed.

End Grid.

(** X17: the tiles partition the screen.  For a positive tile size and a
    screen of at least 2 pixels in one direction, [_create_tiles] raises
    no error and returns tiles of side [square_size] placed at multiples
    of it, each starting on the screen, such that every pixel of the
    screen lies on the square of exactly one tile position. *)
Theorem tiles_partition_screen :
  forall edge_alpha hash_cell draws_at wallpaper screen_width screen_height
         square_size smooth_edges effect_mode reverse,
    (0 < square_size)%Z ->
    (0 <= screen_width)%Z -> (0 <= screen_height)%Z ->
    (2 <= screen_width \/ 2 <= screen_height)%Z ->
    exists ts,
      create_tiles edge_alpha hash_cell draws_at wallpaper screen_width
                   screen_height square_size smooth_edges effect_mode reverse
      = Some ts
      /\ (forall t,
            In t ts ->
            size t = square_size
            /\ (0 <= x t < screen_width /\ 0 <= y t < screen_height)%Z
            /\ (x t mod square_size = 0 /\ y t mod square_size = 0)%Z)
      /\ (forall px py,
            (0 <= px < screen_width)%Z -> (0 <= py < screen_height)%Z ->
            exists t,
              In t ts /\ on_tile t px py
              /\ forall t', In t' ts -> on_tile t' px py ->
                            x t' = x t /\ y t' = y t).
Proof.
  intros ea hc da wp sw sh sz sm em rv Hs Hw Hh Hbig.
  destruct (the_tiles_spec ea hc da wp sw sh sz sm em rv Hs Hw Hh Hbig)
    as (ts & Hts & Hin).
  exists ts. split; [exact Hts|].
  pose proof (grid_count sw sz Hs) as Hcols.
  pose proof (grid_count sh sz Hs) as Hrows.
  cbv zeta in Hcols, Hrows.
  set (cols := py_ceil (IZR sw / IZR sz)) in *.
  set (rows := py_ceil (IZR sh / IZR sz)) in *.
  assert (Hfields : forall t col row,
             tile_at ea hc da wp sw sh sz sm em rv col row = Some t ->
             size t = sz /\ x t = (col * sz)%Z /\ y t = (row * sz)%Z).
  { intros t col row Ht.
    destruct (tile_of_some ea hc da wp sw sh sz sm em rv col row Hw Hh Hbig)
      as (d & _ & _ & Heq).
    rewrite Heq in Ht. injection Ht as <-. simpl. auto. }
  split.
  - intros t Ht. apply Hin in Ht. destruct Ht as (col & row & Hc & Hr & Ht).
    destruct (Hfields t col row Ht) as (-> & -> & ->).
    split; [reflexivity|].
    split; [nia|]. split; apply Z.mod_mul; lia.
  - intros px py Hpx Hpy.
    assert (Hcol : (0 <= px / sz < cols)%Z).
    { split; [apply Z.div_pos; lia|].
      pose proof (Z.mul_div_le px sz Hs). nia. }
    assert (Hrow : (0 <= py / sz < rows)%Z).
    { split; [apply Z.div_pos; lia|].
      pose proof (Z.mul_div_le py sz Hs). nia. }
    destruct (tile_of_some ea hc da wp sw sh sz sm em rv (px / sz) (py / sz)
                Hw Hh Hbig) as (d & _ & _ & Heq).
    eexists. split; [apply Hin; exists (px / sz)%Z, (py / sz)%Z; eauto|].
    pose proof (Z.mul_div_le px sz Hs) as Hx1.
    pose proof (Z.mul_succ_div_gt px sz Hs) as Hx2.
    pose proof (Z.mul_div_le py sz Hs) as Hy1.
    pose proof (Z.mul_succ_div_gt py sz Hs) as Hy2.
    split; [unfold on_tile; simpl; lia|].
    intros t' Ht' Hon. apply Hin in Ht'.
    destruct Ht' as (col & row & Hc & Hr & Ht').
    destruct (Hfields t' col row Ht') as (Hs' & Hx' & Hy').
    unfold on_tile in Hon. rewrite Hs', Hx', Hy' in Hon. rewrite Hx', Hy'.
    simpl.
    assert (col = px / sz)%Z by (apply Z.div_unique with (r := (px - col * sz)%Z); lia).
    assert (row = py / sz)%Z by (apply Z.div_unique with (r := (py - row * sz)%Z); lia).
    subst. split; reflexivity.
Qed.

Lemma tiles_partition_screen_witness :
  exists ts,
    create_tiles Samples.no_falloff (fun _ _ => 0%Z) (fun _ _ => Samples.draws)
                 Samples.wide_image 8 4 3 false effect_flip false
    = Some ts
    /\ (forall t,
          In t ts ->
          size t = 3%Z
          /\ (0 <= x t < 8 /\ 0 <= y t < 4)%Z
          /\ (x t mod 3 = 0 /\ y t mod 3 = 0)%Z)
    /\ (forall px py,
          (0 <= px < 8)%Z -> (0 <= py < 4)%Z ->
          exists t,
            In t ts /\ on_tile t px py
            /\ forall t', In t' ts -> on_tile t' px py ->
                          x t' = x t /\ y t' = y t).
Proof.
  apply (tiles_partition_screen Samples.no_falloff (fun _ _ => 0%Z)
           (fun _ _ => Samples.draws) Samples.wide_image 8 4 3 false
           effect_flip false); lia.
Defined.

End Main_grid.

(** ** The tiling branch of the main loop *)

Module Main_loop.
Import Flip_tile Flip_tile_inv Flip_tile_lines Main Main_grid.

Lemma tiles_step rv o : tiles (update_tiling rv o) = map update (tiles o).
Proof. unfold update_tiling. cbv zeta. now destruct (_ && _ && _)%bool. Qed.

Lemma tiles_run n rv o :
  tiles (iter_n n (update_tiling rv) o) = map (iter_n n update) (tiles o).
Proof.
  induction n as [|n IH]; cbn [iter_n].
  - now rewrite map_id.
  - rewrite tiles_step, IH, map_map. reflexivity.
Qed.

Lemma flag_step rv o :
  all_complete (update_tiling rv o)
  = (all_complete o
     || (forallb is_complete (tiles o) && forallb (lines_done rv) (tiles o)))%bool.
Proof.
  unfold update_tiling. cbv zeta.
  change (fun tile : FlipTile =>
            if rv then (line_alpha tile >=? 255)%Z
            else (line_alpha tile <=? 0)%Z) with (lines_done rv).
  destruct (forallb is_complete (tiles o)),
           (forallb (lines_done rv) (tiles o)),
           (all_complete o); reflexivity.
Qed.

Lemma flag_stays n rv o :
  all_complete o = true -> all_complete (iter_n n (update_tiling rv) o) = true.
Proof.
  intros H. induction n as [|n IH]; cbn [iter_n]; [exact H|].
  now rewrite flag_step, IH.
Qed.

(** A tile that passes the two tests of the loop is a fixed point of
    [update]. *)
Lemma at_rest_fixed rv t :
  reverse t = rv -> line_inv t ->
  is_complete t = true -> lines_done rv t = true -> update t = t.
Proof.
  intros Hrev Hinv Hc Hl. apply Flip_tile_more.update_settled; auto.
  unfold line_inv in Hinv. unfold fade_left, lines_done in *.
  rewrite Hrev. destruct rv; lia.
Qed.

Section Loop.

Variable edge_alpha : Z -> Z -> Z.
Variable hash_cell : Z -> Z -> Z.
Variable draws_at : Z -> Z -> Draws.
Variable wallpaper : Image.
Variables screen_width screen_height square_size : Z.
Variable smooth_edges : bool.
Variable effect_mode : TileEffect.
Variable rv : bool.
Variable ts : list FlipTile.

Hypothesis size_pos : (0 < square_size)%Z.
Hypothesis width_pos : (0 <= screen_width)%Z.
Hypothesis height_pos : (0 <= screen_height)%Z.
Hypothesis big : (2 <= screen_width \/ 2 <= screen_height)%Z.
Hypothesis draws_valid : forall col row, valid_draws (draws_at col row).
Hypothesis built :
  create_tiles edge_alpha hash_cell draws_at wallpaper screen_width
               screen_height square_size smooth_edges effect_mode rv
  = Some ts.

Local Abbreviation run n :=
  (iter_n n (update_tiling rv) {| tiles := ts; all_complete := false |}).

(** Every tile of the list is a freshly built tile with valid draws and a
    delay that is not negative, at most 60 in reverse. *)
Lemma built_tile t :
  In t ts ->
  exists x y edge d,
    valid_draws d
    /\ (0 <= delay t)%Z /\ (rv = true -> (delay t <= 60)%Z)
    /\ t = init edge_alpha wallpaper x y square_size (delay t) edge rv d.
Proof.
  intros Ht.
  destruct (the_tiles_spec edge_alpha hash_cell draws_at wallpaper
              screen_width screen_height square_size smooth_edges
              effect_mode rv size_pos width_pos height_pos big)
    as (ts' & Hts & Hin).
  rewrite built in Hts. injection Hts as <-.
  apply Hin in Ht. destruct Ht as (col & row & _ & _ & Ht).
  destruct (tile_of_some edge_alpha hash_cell draws_at wallpaper
              screen_width screen_height square_size smooth_edges
              effect_mode rv col row width_pos height_pos big)
    as (d & H0 & H60 & Heq).
  rewrite Heq in Ht. injection Ht as <-.
  exists (col * square_size)%Z, (row * square_size)%Z,
         (if smooth_edges then 6 else 0)%Z, (draws_at col row).
  simpl. auto.
Qed.

Lemma run_tile n t :
  In t (tiles (run n)) -> exists t0, In t0 ts /\ t = iter_n n update t0.
Proof.
  rewrite tiles_run. simpl. intros Ht. apply in_map_iff in Ht.
  destruct Ht as (t0 & <- & Ht0). now exists t0.
Qed.

Lemma run_tile_inv n t0 :
  In t0 ts ->
  reverse (iter_n n update t0) = rv /\ line_inv (iter_n n update t0).
Proof.
  intros Ht0.
  destruct (built_tile t0 Ht0) as (x0 & y0 & edge & d & _ & _ & _ & Heq).
  split.
  - destruct (Flip_tile_more.iter_keeps n t0) as [-> _].
    rewrite Heq. reflexivity.
  - apply Flip_tile_more.line_inv_iter. rewrite Heq.
    apply Flip_tile_more.line_inv_init.
Qed.

(** The flag is only ever set over tiles that are all at rest. *)
Lemma flag_safe n :
  all_complete (run n) = true ->
  forall t, In t (tiles (run n)) ->
            is_complete t = true /\ lines_done rv t = true /\ update t = t.
Proof.
  induction n as [|n IH]; [discriminate|].
  cbn [iter_n]. rewrite flag_step, tiles_step.
  intros Hflag t Ht. apply in_map_iff in Ht. destruct Ht as (u & <- & Hu).
  destruct (run_tile n u Hu) as (t0 & Ht0 & ->).
  destruct (run_tile_inv n t0 Ht0) as [Hrev Hinv].
  assert (Hrest : is_complete (iter_n n update t0) = true
                  /\ lines_done rv (iter_n n update t0) = true).
  { destruct (all_complete (run n)) eqn:Hf.
    - destruct (IH eq_refl _ Hu) as (H1 & H2 & _). now split.
    - simpl in Hflag. apply andb_prop in Hflag. destruct Hflag as [Hd Hl].
      rewrite forallb_forall in Hd, Hl. split; [now apply Hd | now apply Hl]. }
  destruct Hrest as [Hc Hl].
  pose proof (at_rest_fixed rv _ Hrev Hinv Hc Hl) as Hfix.
  rewrite Hfix. repeat split; assumption.
Qed.

(** Once every tile has had its delay, its flip and its fade, the next
    pass of the loop sets the flag. *)
Lemma flag_live (D : Z) n :
  (forall t, In t ts -> (delay t <= D)%Z) ->
  (Z.to_nat D + 292 <= n)%nat ->
  all_complete (run n) = true.
Proof.
  intros HD Hn.
  destruct (Nat.le_exists_sub _ _ Hn) as (k & -> & _).
  replace (k + (Z.to_nat D + 292))%nat
    with (k + S (Z.to_nat D + 291))%nat by lia.
  rewrite iter_n_add. apply flag_stays.
  cbn [iter_n]. rewrite flag_step.
  set (n0 := (Z.to_nat D + 291)%nat).
  assert (Hall : forall t, In t (tiles (run n0)) ->
                           is_complete t = true /\ lines_done rv t = true).
  { intros t Ht. destruct (run_tile n0 t Ht) as (t0 & Ht0 & ->).
    destruct (built_tile t0 Ht0) as (x0 & y0 & edge & d & Hd & H0 & _ & Heq).
    destruct (run_tile_inv n0 t0 Ht0) as [Hrev _].
    assert (Hle : (Z.to_nat (delay t0) + 291 <= n0)%nat).
    { specialize (HD t0 Ht0). subst n0. lia. }
    pose proof (Flip_tile_more.settled_after n0 edge_alpha wallpaper x0 y0
                  square_size (delay t0) edge rv d Hd Hle) as Hset.
    cbv zeta in Hset. rewrite <- Heq in Hset.
    destruct Hset as (Hc & Hinv & Hf).
    split; [exact Hc|].
    unfold line_inv in Hinv. unfold fade_left in Hf. rewrite Hrev in Hf.
    unfold lines_done. destruct rv; lia. }
  assert (H1 : forallb is_complete (tiles (run n0)) = true).
  { apply forallb_forall. intros t Ht. now apply Hall. }
  assert (H2 : forallb (lines_done rv) (tiles (run n0)) = true).
  { apply forallb_forall. intros t Ht. now apply Hall. }
  rewrite H1, H2. apply orb_true_r.
Qed.

End Loop.

(** X18: the delays of the grid.  For a positive tile size and a screen
    of at least 2 pixels in one direction, every tile [_create_tiles]
    returns has a delay that is not negative, starts with that delay to
    count down, is neither animating nor complete, and carries the
    orchestrator's [reverse] flag; in reverse every delay is at most
    60. *)
Theorem tile_delays_in_range :
  forall edge_alpha hash_cell draws_at wallpaper screen_width screen_height
         square_size smooth_edges effect_mode rv,
    (0 < square_size)%Z ->
    (0 <= screen_width)%Z -> (0 <= screen_height)%Z ->
    (2 <= screen_width \/ 2 <= screen_height)%Z ->
    exists ts,
      create_tiles edge_alpha hash_cell draws_at wallpaper screen_width
                   screen_height square_size smooth_edges effect_mode rv
      = Some ts
      /\ forall t,
          In t ts ->
          (0 <= delay t)%Z
          /\ current_delay t = delay t
          /\ (rv = true -> (delay t <= 60)%Z)
          /\ reverse t = rv
          /\ edge_softness t = (if smooth_edges then 6 else 0)%Z
          /\ is_animating t = false /\ is_complete t = false
          /\ flip_angle t = 0.
Proof.
  intros ea hc da wp sw sh sz sm em rv Hs Hw Hh Hbig.
  destruct (the_tiles_spec ea hc da wp sw sh sz sm em rv Hs Hw Hh Hbig)
    as (ts & Hts & Hin).
  exists ts. split; [exact Hts|]. intros t Ht.
  apply Hin in Ht. destruct Ht as (col & row & _ & _ & Ht).
  destruct (tile_of_some ea hc da wp sw sh sz sm em rv col row Hw Hh Hbig)
    as (d & H0 & H60 & Heq).
  rewrite Heq in Ht. injection Ht as <-. simpl. auto 10.
Qed.

Lemma tile_delays_in_range_witness :
  exists ts,
    create_tiles Samples.no_falloff (fun _ _ => 0%Z) (fun _ _ => Samples.draws)
                 Samples.wide_image 8 4 3 false effect_ripple true
    = Some ts
    /\ forall t,
        In t ts ->
        (0 <= delay t)%Z
        /\ current_delay t = delay t
        /\ (true = true -> (delay t <= 60)%Z)
        /\ reverse t = true
        /\ edge_softness t = 0%Z
        /\ is_animating t = false /\ is_complete t = false
        /\ flip_angle t = 0.
Proof.
  apply (tile_delays_in_range Samples.no_falloff (fun _ _ => 0%Z)
           (fun _ _ => Samples.draws) Samples.wide_image 8 4 3 false
           effect_ripple true); lia.
Defined.

(** X19: the tiling animation completes, and only when every tile has.
    Running the tiling branch of the loop on the tiles of [_create_tiles]
    (draws in their ranges): the flag [all_complete] is never set unless
    every tile is complete with its cut line faded, and then no tile
    changes any more; when every delay is at most [D] the flag is set
    after [D + 292] passes; in reverse it is set after 352 passes. *)
Theorem tiling_completes :
  forall edge_alpha hash_cell draws_at wallpaper screen_width screen_height
         square_size smooth_edges effect_mode rv,
    (0 < square_size)%Z ->
    (0 <= screen_width)%Z -> (0 <= screen_height)%Z ->
    (2 <= screen_width \/ 2 <= screen_height)%Z ->
    (forall col row, valid_draws (draws_at col row)) ->
    exists ts,
      create_tiles edge_alpha hash_cell draws_at wallpaper screen_width
                   screen_height square_size smooth_edges effect_mode rv
      = Some ts
      /\ let run n :=
           iter_n n (update_tiling rv)
                  {| tiles := ts; all_complete := false |} in
         (forall n,
             all_complete (run n) = true ->
             forall t, In t (tiles (run n)) ->
                       is_complete t = true /\ lines_done rv t = true
                       /\ update t = t)
         /\ (forall D n,
               (forall t, In t ts -> (delay t <= D)%Z) ->
               (Z.to_nat D + 292 <= n)%nat ->
               all_complete (run n) = true)
         /\ (rv = true ->
             forall n, (352 <= n)%nat -> all_complete (run n) = true).
Proof.
  intros ea hc da wp sw sh sz sm em rv Hs Hw Hh Hbig Hd.
  destruct (the_tiles_spec ea hc da wp sw sh sz sm em rv Hs Hw Hh Hbig)
    as (ts & Hts & _).
  exists ts. split; [exact Hts|]. intros run.
  split; [|split].
  - intros n. apply (flag_safe ea hc da wp sw sh sz sm em rv ts
                       Hs Hw Hh Hbig Hd Hts n).
  - intros D n. apply (flag_live ea hc da wp sw sh sz sm em rv ts
                         Hs Hw Hh Hbig Hd Hts D n).
  - intros Hrv n Hn.
    apply (flag_live ea hc da wp sw sh sz sm em rv ts
             Hs Hw Hh Hbig Hd Hts 60 n).
    + intros t Ht.
      destruct (built_tile ea hc da wp sw sh sz sm em rv ts
                  Hs Hw Hh Hbig Hd Hts t Ht)
        as (x0 & y0 & edge & d & _ & _ & H60 & _).
      now apply H60.
    + change (Z.to_nat 60) with 60%nat. lia.
Qed.

Lemma tiling_completes_witness :
  exists ts,
    create_tiles Samples.no_falloff (fun _ _ => 0%Z) (fun _ _ => Samples.draws)
                 Samples.wide_image 8 4 3 false effect_flip true
    = Some ts
    /\ let run n :=
         iter_n n (update_tiling true)
                {| tiles := ts; all_complete := false |} in
       (forall n,
           all_complete (run n) = true ->
           forall t, In t (tiles (run n)) ->
                     is_complete t = true /\ lines_done true t = true
                     /\ update t = t)
       /\ (forall D n,
             (forall t, In t ts -> (delay t <= D)%Z) ->
             (Z.to_nat D + 292 <= n)%nat ->
             all_complete (run n) = true)
       /\ (true = true ->
           forall n, (352 <= n)%nat -> all_complete (run n) = true).
Proof.
  apply (tiling_completes Samples.no_falloff (fun _ _ => 0%Z)
           (fun _ _ => Samples.draws) Samples.wide_image 8 4 3 false
           effect_flip true); try lia.
  intros col row. unfold valid_draws; simpl. split; [lia | lra].
Defined.

End Main_loop.

(** ** The polygon selector: events, export, hand-over to the reveal *)

Module Selector_proofs.
Import Polygon_selector.

Lemma fold_min_spec l a :
  (fold_left Z.min l a <= a)%Z
  /\ (forall z, In z l -> (fold_left Z.min l a <= z)%Z)
  /\ (fold_left Z.min l a = a \/ In (fold_left Z.min l a) l).
Proof.
  revert a. induction l as [|b l IH]; intros a; cbn [fold_left].
  - repeat split; [lia | intros z [] | now left].
  - destruct (IH (Z.min a b)) as (H1 & H2 & H3). repeat split.
    + lia.
    + intros z [<- | Hz]; [lia | auto].
    + destruct H3 as [H3 | H3].
      * rewrite H3. destruct (Z.min_spec a b) as [[_ ->] | [_ ->]];
          [now left | right; now left].
      * right; now right.
Qed.

Lemma fold_max_spec l a :
  (a <= fold_left Z.max l a)%Z
  /\ (forall z, In z l -> (z <= fold_left Z.max l a)%Z)
  /\ (fold_left Z.max l a = a \/ In (fold_left Z.max l a) l).
Proof.
  revert a. induction l as [|b l IH]; intros a; cbn [fold_left].
  - repeat split; [lia | intros z [] | now left].
  - destruct (IH (Z.max a b)) as (H1 & H2 & H3). repeat split.
    + lia.
    + intros z [<- | Hz]; [lia | auto].
    + destruct H3 as [H3 | H3].
      * rewrite H3. destruct (Z.max_spec a b) as [[_ ->] | [_ ->]];
          [right; now left | now left].
      * right; now right.
Qed.

Lemma py_min_spec l :
  l <> [] ->
  exists m, py_min l = Some m /\ In m l /\ forall z, In z l -> (m <= z)%Z.
Proof.
  destruct l as [|a l]; [congruence | intros _].
  destruct (fold_min_spec l a) as (H1 & H2 & H3).
  exists (fold_left Z.min l a). split; [reflexivity | split].
  - destruct H3 as [-> | H3]; [now left | now right].
  - intros z [<- | Hz]; auto.
Qed.

Lemma py_max_spec l :
  l <> [] ->
  exists m, py_max l = Some m /\ In m l /\ forall z, In z l -> (z <= m)%Z.
Proof.
  destruct l as [|a l]; [congruence | intros _].
  destruct (fold_max_spec l a) as (H1 & H2 & H3).
  exists (fold_left Z.max l a). split; [reflexivity | split].
  - destruct H3 as [-> | H3]; [now left | now right].
  - intros z [<- | Hz]; auto.
Qed.

Lemma bounding_box_spec pts :
  pts <> [] ->
  exists x y w h,
    bounding_box pts = Some (x, y, w, h) /\ encloses pts x y w h.
Proof.
  intros Hne. unfold bounding_box.
  assert (Hx : map fst pts <> []) by (destruct pts; [congruence | discriminate]).
  assert (Hy : map snd pts <> []) by (destruct pts; [congruence | discriminate]).
  destruct (py_min_spec _ Hx) as (x & -> & Hxin & Hxle).
  destruct (py_min_spec _ Hy) as (y & -> & Hyin & Hyle).
  destruct (py_max_spec _ Hx) as (x2 & -> & Hx2in & Hx2le).
  destruct (py_max_spec _ Hy) as (y2 & -> & Hy2in & Hy2le).
  exists x, y, (x2 - x)%Z, (y2 - y)%Z. split; [reflexivity|].
  apply in_map_iff in Hxin as (px & Hpx & Hpxin).
  apply in_map_iff in Hyin as (py & Hpy & Hpyin).
  apply in_map_iff in Hx2in as (px2 & Hpx2 & Hpx2in).
  apply in_map_iff in Hy2in as (py2 & Hpy2 & Hpy2in).
  assert (Hx12 : (x <= x2)%Z).
  { pose proof (Hxle _ (in_map fst _ _ Hpx2in)). lia. }
  assert (Hy12 : (y <= y2)%Z).
  { pose proof (Hyle _ (in_map snd _ _ Hpy2in)). lia. }
  unfold encloses. split; [lia|]. split; [lia|]. split; [|repeat split].
  - intros pt Hpt.
    pose proof (Hxle _ (in_map fst _ _ Hpt)).
    pose proof (Hyle _ (in_map snd _ _ Hpt)).
    pose proof (Hx2le _ (in_map fst _ _ Hpt)).
    pose proof (Hy2le _ (in_map snd _ _ Hpt)). lia.
  - now exists px.
  - exists px2. split; [assumption | lia].
  - now exists py.
  - exists py2. split; [assumption | lia].
Qed.

Lemma length_unscale sc p : length (unscale sc p) = length p.
Proof. unfold unscale. apply length_map. Qed.

Lemma unscale_nonempty sc p : (3 <= length p)%nat -> unscale sc p <> [].
Proof.
  intros H E. apply (f_equal (@length _)) in E.
  rewrite length_unscale in E. simpl in E. lia.
Qed.

(** *** One event *)

Lemma Forall_snoc {A} (P : A -> Prop) l a :
  Forall P l -> P a -> Forall P (l ++ [a]).
Proof. intros Hl Ha. apply Forall_app. split; [assumption | now constructor]. Qed.

Lemma snoc_not_nil {A} (l : list A) a : l ++ [a] <> [].
Proof. destruct l; discriminate. Qed.

Lemma saved_after_return (b : bool) (l : list (list Point)) :
  (b = true -> l <> []) ->
  (if (0 <? Z.of_nat (length l))%Z then true else b) = true -> l <> [].
Proof.
  intros Hb. destruct (0 <? _)%Z eqn:E; [|exact Hb].
  apply Z.ltb_lt in E. intros _ ->. simpl in E. lia.
Qed.

Lemma handle_event_well_formed s e :
  well_formed s -> well_formed (handle_event s e).
Proof.
  intros (Hp & Hs & Hle & Hsel & Hmode & Hsaved).
  destruct e; cbn [handle_event];
    try (split; [|split; [|split; [|split; [|split]]]]; assumption).
  - (* Return *)
    pose proof (saved_after_return (saved s)) as Hret.
    destruct (3 <=? Z.of_nat (length (current_polygon s)))%Z eqn:E3.
    + apply Z.leb_le in E3.
      destruct (is_clone_mode (mode s)) eqn:Em;
        destruct (selecting_source s) eqn:Es;
        cbn [andb negb];
        unfold well_formed;
        cbn [polygons source_polygons selecting_source mode saved];
        (split; [|split; [|split; [|split; [|split]]]];
         [ try apply Forall_snoc; try assumption; lia
         | try apply Forall_snoc; try assumption; lia
         | rewrite ?length_app; cbn [length];
           try (specialize (Hsel eq_refl)); lia
         | rewrite ?length_app; cbn [length];
           first [discriminate | intros Hx; specialize (Hsel Hx); lia]
         | intros Hx; first [congruence | exact (Hmode Hx) | exact (Hmode eq_refl)]
         | refine (Hret _ _); first [exact Hsaved | intros _; apply snoc_not_nil] ]).
    + cbn [andb negb]. unfold well_formed.
      cbn [polygons source_polygons selecting_source mode saved].
      repeat split; try assumption; try (apply Hmode; assumption).
      refine (Hret _ Hsaved).
  - (* Right click *)
    destruct (3 <=? Z.of_nat (length (current_polygon s)))%Z eqn:E3;
      [| split; [|split; [|split; [|split; [|split]]]]; assumption].
    apply Z.leb_le in E3.
    destruct (is_clone_mode (mode s)) eqn:Em;
      [destruct (selecting_source s) eqn:Es |];
      unfold well_formed;
      cbn [polygons source_polygons selecting_source mode saved];
      (split; [|split; [|split; [|split; [|split]]]];
       [ try apply Forall_snoc; try assumption; lia
       | try apply Forall_snoc; try assumption; lia
       | rewrite ?length_app; cbn [length];
         try (specialize (Hsel eq_refl)); lia
       | rewrite ?length_app; cbn [length];
         first [discriminate | intros Hx; specialize (Hsel Hx); lia | intros _; lia]
       | intros Hx; first [congruence | exact (Hmode Hx) | exact (Hmode eq_refl)]
       | intros Hx; first [apply snoc_not_nil | exact (Hsaved Hx)] ]).
Qed.

Lemma handle_events_well_formed events s :
  well_formed s -> well_formed (handle_events s events).
Proof.
  revert s. induction events as [|e events IH]; intros s Hs; [exact Hs|].
  apply IH. now apply handle_event_well_formed.
Qed.

Lemma init_well_formed m sc : well_formed (init m sc).
Proof.
  unfold well_formed, init; simpl.
  repeat split; auto; discriminate.
Qed.

(** *** The exported records *)

Lemma record_of_spec s i p :
  (3 <= length p)%nat ->
  Forall (fun q => (3 <= length q)%nat) (source_polygons s) ->
  exists r,
    record_of s i p = Some r
    /\ pr_polygon r = unscale (scale s) p
    /\ encloses (pr_polygon r) (pr_x r) (pr_y r) (pr_w r) (pr_h r)
    /\ (pr_x r <= pr_center_x r <= pr_x r + pr_w r)%Z
    /\ (pr_y r <= pr_center_y r <= pr_y r + pr_h r)%Z
    /\ source_enclosed r
    /\ pr_source_polygon r = paired_source s i.
Proof.
  intros Hp Hs. unfold record_of, paired_source.
  destruct (bounding_box_spec _ (unscale_nonempty (scale s) p Hp))
    as (x & y & w & h & -> & Henc).
  assert (Hc : forall a b, (0 <= b)%Z -> (a <= a + b / 2 <= a + b)%Z).
  { intros a b Hb.
    pose proof (Z.div_pos b 2 Hb ltac:(lia)).
    pose proof (Z.mul_div_le b 2 ltac:(lia)). lia. }
  assert (Hw : (0 <= w)%Z) by apply Henc.
  assert (Hh : (0 <= h)%Z) by apply Henc.
  destruct (is_clone_mode (mode s)).
  - destruct (nth_error (source_polygons s) i) as [q|] eqn:Eq.
    + assert (Hq : (3 <= length q)%nat).
      { rewrite Forall_forall in Hs. apply Hs.
        eapply nth_error_In; eassumption. }
      destruct (bounding_box_spec _ (unscale_nonempty (scale s) q Hq))
        as (sx & sy & sw & sh & -> & Hsenc).
      eexists. split; [reflexivity|]. cbn.
      do 4 (split; [solve [auto]|]). split; [|reflexivity].
      unfold source_enclosed; cbn.
      exists sx, sy, sw, sh. do 4 (split; [reflexivity|]).
      split; [now rewrite length_unscale | exact Hsenc].
    + eexists. split; [reflexivity|]. cbn.
      do 4 (split; [solve [auto]|]). split; [|reflexivity].
      unfold source_enclosed; cbn. auto.
  - eexists. split; [reflexivity|]. cbn.
    do 4 (split; [solve [auto]|]). split; [|reflexivity].
    unfold source_enclosed; cbn. auto.
Qed.

Lemma records_from_spec s l i :
  Forall (fun p => (3 <= length p)%nat) l ->
  Forall (fun q => (3 <= length q)%nat) (source_polygons s) ->
  exists rs,
    records_from s i l = Some rs
    /\ length rs = length l
    /\ forall j r, nth_error rs j = Some r ->
         exists p, nth_error l j = Some p
                   /\ record_of s (i + j) p = Some r.
Proof.
  intros Hl Hs. revert i.
  induction Hl as [|p l Hp Hl IH]; intros i; cbn [records_from].
  - exists []. repeat split; auto. intros [|j] r; discriminate.
  - replace (3 <=? Z.of_nat (length p))%Z with true
      by (symmetry; apply Z.leb_le; lia).
    destruct (record_of_spec s i p Hp Hs) as (r0 & Hr0 & _).
    rewrite Hr0.
    destruct (IH (S i)) as (rs & -> & Hlen & Hnth).
    exists (r0 :: rs). split; [reflexivity|]. split; [simpl; lia|].
    intros [|j] r Hr; cbn [nth_error] in *.
    + injection Hr as <-. exists p. split; [reflexivity|].
      now rewrite Nat.add_0_r.
    + destruct (Hnth j r Hr) as (q & Hq & Hrec).
      exists q. split; [assumption|].
      now replace (i + S j)%nat with (S i + j)%nat by lia.
Qed.

Lemma export_total s :
  well_formed s ->
  exists rs, get_polygon_data s = Some rs
             /\ length rs = length (polygons s).
Proof.
  intros (Hp & Hs & _).
  destruct (records_from_spec s (polygons s) 0 Hp Hs) as (rs & H1 & H2 & _).
  now exists rs.
Qed.

Lemma run_result_cases s :
  well_formed s ->
  (saved s = false /\ run_result s = Some None)
  \/ (saved s = true
      /\ exists rs, run_result s = Some (Some rs) /\ rs <> []).
Proof.
  intros Hwf. pose proof Hwf as (_ & _ & _ & _ & _ & Hsaved).
  unfold run_result. destruct (saved s) eqn:Es; [right | left; auto].
  split; [reflexivity|]. specialize (Hsaved eq_refl).
  destruct (export_total s Hwf) as (rs & -> & Hlen).
  replace (0 <? Z.of_nat (length (polygons s)))%Z with true.
  - exists rs. split; [reflexivity|]. intros ->.
    destruct (polygons s); [congruence | discriminate].
  - symmetry. apply Z.ltb_lt.
    destruct (polygons s); [congruence | simpl; lia].
Qed.

(** *** What ends the loop and what saves *)

Lemma running_handle_event s e :
  running (handle_event s e) = (running s && negb (stops e))%bool.
Proof.
  destruct e; cbn [handle_event stops negb running];
    rewrite ?andb_true_r, ?andb_false_r; try reflexivity.
  destruct (3 <=? _)%Z; [|now rewrite ?andb_true_r].
  destruct (is_clone_mode _); [destruct (selecting_source s)|];
    cbn [running]; now rewrite ?andb_true_r.
Qed.

Lemma running_handle_events events s :
  running (handle_events s events)
  = (running s && negb (existsb stops events))%bool.
Proof.
  revert s. induction events as [|e events IH]; intros s; cbn.
  - now rewrite andb_true_r.
  - unfold handle_events in IH. rewrite IH, running_handle_event.
    destruct (running s), (stops e); reflexivity.
Qed.

Lemma saved_handle_event s e :
  e <> KeyReturn -> saved (handle_event s e) = saved s.
Proof.
  destruct e; cbn [handle_event saved]; try reflexivity; try congruence.
  intros _. destruct (3 <=? _)%Z; [|reflexivity].
  destruct (is_clone_mode _); [destruct (selecting_source s)|]; reflexivity.
Qed.

Lemma saved_handle_events events s :
  ~ In KeyReturn events -> saved (handle_events s events) = saved s.
Proof.
  revert s. induction events as [|e events IH]; intros s Hn; [reflexivity|].
  cbn. unfold handle_events in IH. rewrite IH.
  - apply saved_handle_event. intros ->. apply Hn. now left.
  - intros H. apply Hn. now right.
Qed.

(** *** Hand-over to the reveal *)

Lemma process_regions_of_records rs h0 :
  Hidden.regions (Hidden.process_regions h0 (map region_data_of rs))
  = Hidden.regions h0 ++ map region_of rs.
Proof.
  revert h0. induction rs as [|r rs IH]; intros h0; cbn.
  - now rewrite app_nil_r.
  - unfold Hidden.process_regions in IH. rewrite IH.
    destruct h0; cbn. now rewrite <- app_assoc.
Qed.

Lemma build_mask_polygons cv height width regs mask0 :
  Forall (fun reg => (3 <= length (Hidden.polygon reg))%nat) regs ->
  fold_left
    (fun mask region =>
       if (3 <=? Z.of_nat (length (Hidden.polygon region)))%Z
       then Hidden.fill_poly cv height width mask (Hidden.polygon region)
       else Hidden.rectangle height width mask
              (Hidden.x region) (Hidden.y region)
              (Hidden.w region) (Hidden.h region))
    regs mask0
  = fold_left (Hidden.fill_poly cv height width)
              (map Hidden.polygon regs) mask0.
Proof.
  intros H. revert mask0.
  induction H as [|reg regs Hreg _ IH]; intros mask0; cbn; [reflexivity|].
  replace (3 <=? Z.of_nat (length (Hidden.polygon reg)))%Z with true
    by (symmetry; apply Z.leb_le; lia).
  apply IH.
Qed.

Lemma is_clone_region_of r :
  source_enclosed r ->
  Hidden.is_clone (region_of r)
  = match pr_source_polygon r with Some _ => true | None => false end.
Proof.
  unfold source_enclosed, Hidden.is_clone, region_of; cbn.
  destruct (pr_source_polygon r) as [sp|]; [|reflexivity].
  intros (sx & sy & sw & sh & _ & _ & _ & _ & Hlen & _).
  destruct sp as [|pt sp]; [simpl in Hlen; lia|].
  cbn [length Nat.eqb negb andb] in *. unfold Point, Hidden.Point in *.
  apply Z.leb_le. lia.
Qed.

Lemma exported_records s rs :
  well_formed s -> get_polygon_data s = Some rs ->
  length rs = length (polygons s)
  /\ forall i r, nth_error rs i = Some r ->
       exists p, nth_error (polygons s) i = Some p
         /\ pr_polygon r = unscale (scale s) p
         /\ (3 <= length (pr_polygon r))%nat
         /\ encloses (pr_polygon r) (pr_x r) (pr_y r) (pr_w r) (pr_h r)
         /\ (pr_x r <= pr_center_x r <= pr_x r + pr_w r)%Z
         /\ (pr_y r <= pr_center_y r <= pr_y r + pr_h r)%Z
         /\ source_enclosed r
         /\ pr_source_polygon r = paired_source s i.
Proof.
  intros (Hp & Hs & _) Hget.
  destruct (records_from_spec s (polygons s) 0 Hp Hs)
    as (rs' & H1 & H2 & H3).
  unfold get_polygon_data in Hget. rewrite H1 in Hget.
  injection Hget as <-. split; [assumption|].
  intros i r Hr. destruct (H3 i r Hr) as (p & Hpi & Hrec).
  exists p. split; [assumption|].
  assert (Hp3 : (3 <= length p)%nat).
  { rewrite Forall_forall in Hp. apply Hp.
    eapply nth_error_In; eassumption. }
  destruct (record_of_spec s (0 + i) p Hp3 Hs)
    as (r' & Hr' & Hpoly & Henc & Hcx & Hcy & Hsrc & Hpair).
  rewrite Hrec in Hr'. injection Hr' as <-.
  split; [assumption|].
  split; [rewrite Hpoly, length_unscale; assumption|].
  do 4 (split; [assumption|]). exact Hpair.
Qed.

(** X20: whatever events arrive, in whatever order and however many
    after the loop has been told to stop, every polygon the selector has
    stored, target or source, has at least three points; there are never
    more source polygons than targets, and strictly fewer while a source
    is being drawn; outside clone mode there is no source at all; and
    the selector is marked saved only when it holds a polygon. *)
Theorem selector_lists_well_formed m sc events :
  well_formed (handle_events (init m sc) events).
Proof. apply handle_events_well_formed, init_well_formed. Qed.

(** X21: for a selector with well-formed lists, [_get_polygon_data]
    raises nothing and gives one record per stored polygon, in order.
    Record [i] carries polygon [i] divided by the display scale, its
    [x, y, w, h] are the exact bounding box of those points, its centre
    lies inside the box, and its source keys are present exactly in clone
    mode when source polygon [i] exists, where they are the bounding box
    of that source polygon. *)
Theorem export_describes_every_polygon s :
  well_formed s ->
  exists rs,
    get_polygon_data s = Some rs
    /\ length rs = length (polygons s)
    /\ forall i r, nth_error rs i = Some r ->
         exists p, nth_error (polygons s) i = Some p
           /\ pr_polygon r = unscale (scale s) p
           /\ (3 <= length (pr_polygon r))%nat
           /\ encloses (pr_polygon r) (pr_x r) (pr_y r) (pr_w r) (pr_h r)
           /\ (pr_x r <= pr_center_x r <= pr_x r + pr_w r)%Z
           /\ (pr_y r <= pr_center_y r <= pr_y r + pr_h r)%Z
           /\ source_enclosed r
           /\ pr_source_polygon r = paired_source s i.
Proof.
  intros Hwf. destruct (export_total s Hwf) as (rs & Hget & _).
  exists rs. split; [assumption|].
  exact (exported_records s rs Hwf Hget).
Qed.

Lemma export_describes_every_polygon_witness :
  let s := handle_events (init mode_hidden_clone 1%R)
             [LeftClick 10 10; LeftClick 40 12; LeftClick 25 30;
              RightClick;
              LeftClick 100 10; LeftClick 140 12; LeftClick 125 30;
              KeyReturn] in
  well_formed s
  /\ exists rs,
       get_polygon_data s = Some rs
       /\ length rs = length (polygons s)
       /\ forall i r, nth_error rs i = Some r ->
            exists p, nth_error (polygons s) i = Some p
              /\ pr_polygon r = unscale (scale s) p
              /\ (3 <= length (pr_polygon r))%nat
              /\ encloses (pr_polygon r) (pr_x r) (pr_y r) (pr_w r) (pr_h r)
              /\ (pr_x r <= pr_center_x r <= pr_x r + pr_w r)%Z
              /\ (pr_y r <= pr_center_y r <= pr_y r + pr_h r)%Z
              /\ source_enclosed r
              /\ pr_source_polygon r = paired_source s i.
Proof.
  intros s.
  assert (Hwf : well_formed s)
    by apply handle_events_well_formed, init_well_formed.
  split; [exact Hwf|].
  exact (export_describes_every_polygon s Hwf).
Defined.

(** X22: the loop of [run] ends exactly when one of the events was
    closing the window, Escape or Return.  What [run] then gives is
    never an error and never an empty list: it is [None] when no Return
    was pressed, and otherwise [None] or a non-empty list of records. *)
Theorem run_returns_none_or_records m sc events :
  let s := handle_events (init m sc) events in
  (running s = false <-> existsb stops events = true)
  /\ (run_result s = Some None
      \/ exists rs, run_result s = Some (Some rs) /\ rs <> [])
  /\ (~ In KeyReturn events -> run_result s = Some None).
Proof.
  intros s.
  assert (Hwf : well_formed s)
    by apply handle_events_well_formed, init_well_formed.
  split; [|split].
  - unfold s. rewrite running_handle_events. cbn [running init andb].
    destruct (existsb stops events); cbn; split; congruence.
  - destruct (run_result_cases s Hwf) as [[_ H] | [_ H]]; auto.
  - intros Hn.
    destruct (run_result_cases s Hwf) as [[_ H] | [Hs _]]; [assumption|].
    unfold s in Hs. rewrite (saved_handle_events _ _ Hn) in Hs.
    discriminate.
Qed.

(** X23: when the records of a well-formed selector are handed to the
    reveal effect, the composite mask is painted from the polygons
    alone, the bounding-box rectangle is never used; and a region takes
    the clone branch exactly when its record carries a source
    polygon. *)
Theorem selector_regions_masked_by_polygons cv height width s rs h0 :
  well_formed s ->
  get_polygon_data s = Some rs ->
  Hidden.regions h0 = [] ->
  let regs :=
    Hidden.regions (Hidden.process_regions h0 (map region_data_of rs)) in
  Hidden.build_mask cv height width regs
  = fold_left (Hidden.fill_poly cv height width)
              (map pr_polygon rs) Hidden.zeros
  /\ Forall2
       (fun r reg =>
          Hidden.is_clone reg
          = match pr_source_polygon r with
            | Some _ => true
            | None => false
            end)
       rs regs.
Proof.
  intros Hwf Hget Hempty regs.
  destruct (exported_records s rs Hwf Hget) as (_ & Hrec).
  assert (Hall : Forall (fun r => (3 <= length (pr_polygon r))%nat
                                  /\ source_enclosed r) rs).
  { apply Forall_forall. intros r Hin.
    apply In_nth_error in Hin as (i & Hi).
    destruct (Hrec i r Hi) as (p & _ & _ & H3 & _ & _ & _ & Hsrc & _).
    now split. }
  assert (Hregs : regs = map region_of rs).
  { unfold regs. now rewrite process_regions_of_records, Hempty. }
  rewrite Hregs. clear Hregs regs Hrec Hget. split.
  - unfold Hidden.build_mask. rewrite build_mask_polygons.
    + now rewrite map_map.
    + apply Forall_map. eapply Forall_impl; [|exact Hall].
      now intros r [H _].
  - induction Hall as [|r rs [_ Hsrc] _ IH]; cbn; constructor; auto.
    now apply is_clone_region_of.
Qed.

Lemma selector_regions_masked_by_polygons_witness :
  let s := handle_events (init mode_hidden 1%R)
             [LeftClick 1 1; LeftClick 6 1; LeftClick 3 3; RightClick;
              KeyReturn] in
  well_formed s
  /\ exists rs,
       get_polygon_data s = Some rs
       /\ Hidden.build_mask Samples.box_cv 4 8
            (Hidden.regions
               (Hidden.process_regions
                  (Hidden.init Samples.no_cv2 Samples.wide_image 8 4 None)
                  (map region_data_of rs)))
          = fold_left (Hidden.fill_poly Samples.box_cv 4 8)
                      (map pr_polygon rs) Hidden.zeros.
Proof.
  intros s.
  assert (Hwf : well_formed s)
    by apply handle_events_well_formed, init_well_formed.
  split; [exact Hwf|].
  destruct (export_total s Hwf) as (rs & Hget & _).
  exists rs. split; [exact Hget|].
  exact (proj1 (selector_regions_masked_by_polygons
                  Samples.box_cv 4 8 s rs
                  (Hidden.init Samples.no_cv2 Samples.wide_image 8 4 None)
                  Hwf Hget eq_refl)).
Defined.

End Selector_proofs.
